(** * Scatter tile: a shallow embedding of gunrock/util/io/scatter_tile.cuh

    The file embeds the [ScatterTile] structure of Gunrock: the tile
    geometry constants, the compile-time recursion [Iterate<LOAD, VEC>] with
    its four [Invoke] overloads, and the four [Scatter] entry points.  One
    lane (CUDA thread) runs the code sequentially over its register arrays;
    the lanes of a tile share the destination memory. *)

From Stdlib Require Import ZArith Lia List.
From stdpp Require Import base option list gmap.

Local Open Scope Z_scope.

(** ** Machine integers

    Integer values are kept in [Z]; an integer type is its signedness and
    width, and every conversion writes the wrap-around out. *)

Record IntTy : Type := { ty_signed : bool; ty_bits : Z }.

Definition int_t : IntTy := {| ty_signed := true; ty_bits := 32 |}.
Definition unsigned_int_t : IntTy := {| ty_signed := false; ty_bits := 32 |}.
Definition long_long_t : IntTy := {| ty_signed := true; ty_bits := 64 |}.
Definition size_t_t : IntTy := {| ty_signed := false; ty_bits := 64 |}.

(** Conversion of a mathematical integer to the type [ty]. *)
Definition wrap (ty : IntTy) (z : Z) : Z :=
  if ty_signed ty
  then (z + 2 ^ (ty_bits ty - 1)) mod 2 ^ ty_bits ty - 2 ^ (ty_bits ty - 1)
  else z mod 2 ^ ty_bits ty.

Definition in_range (ty : IntTy) (z : Z) : bool :=
  if ty_signed ty
  then (- 2 ^ (ty_bits ty - 1) <=? z) && (z <? 2 ^ (ty_bits ty - 1))
  else (0 <=? z) && (z <? 2 ^ ty_bits ty).

(** Integral promotion: a type narrower than [int] is promoted to [int]. *)
Definition promote (ty : IntTy) : IntTy :=
  if ty_bits ty <? 32 then int_t else ty.

(** The usual arithmetic conversions of C++ for two integer operands. *)
Definition usual_conv (ta tb : IntTy) : IntTy :=
  let pa := promote ta in
  let pb := promote tb in
  if Bool.eqb (ty_signed pa) (ty_signed pb)
  then (if ty_bits pa <? ty_bits pb then pb else pa)
  else
    let u := if ty_signed pa then pb else pa in
    let s := if ty_signed pa then pa else pb in
    if ty_bits s <=? ty_bits u then u else s.

(** [a < b] on operands of types [ta] and [tb]. *)
Definition lt_conv (ta tb : IntTy) (a b : Z) : bool :=
  let ty := usual_conv ta tb in
  wrap ty a <? wrap ty b.

(** ** Two-dimensional register arrays [A a[][LOAD_VEC_SIZE]] *)

Definition get2 {A : Type} (a : list (list A)) (LOAD VEC : nat) : option A :=
  a !! LOAD ≫= (.!! VEC).

Definition set2 {A : Type} (a : list (list A)) (LOAD VEC : nat) (x : A)
  : list (list A) :=
  alter (<[VEC := x]>) LOAD a.

(** [has_shape rows cols a]: the array has [rows] rows of [cols] entries. *)
Definition has_shape {A : Type} (rows cols : nat) (a : list (list A)) : bool :=
  (length a =? rows)%nat && forallb (fun r => (length r =? cols)%nat) a.

(** ** Interleavings

    [Interleave ls s]: the sequence [s] is obtained by repeatedly choosing a
    lane and taking the first pending item of that lane. *)

Inductive Interleave {A : Type} : list (list A) -> list A -> Prop :=
| Interleave_done (ls : list (list A)) :
    Forall (fun l => l = []) ls -> Interleave ls []
| Interleave_step (i : nat) (x : A) (t : list A) (ls : list (list A))
    (s : list A) :
    ls !! i = Some (x :: t) ->
    Interleave (<[i := t]> ls) s ->
    Interleave ls (x :: s).

Module ScatterTile.

Section ScatterTile.

(** Template parameters of [struct ScatterTile]. *)
Variable LOG_LOADS_PER_TILE : Z.
Variable LOG_LOAD_VEC_SIZE : Z.
Variable ACTIVE_THREADS : Z.

(** Modelled from the spec: the enumeration [st::CacheModifier] of
    modified_store.cuh, which is not part of the sources at hand; a tag that
    selects the caching behaviour of a store. *)
Variable CacheModifier : Type.
Variable CACHE_MODIFIER : CacheModifier.

(** Template parameters of the member functions. *)
Variable T : Type.
Variable Flag : Type.
(** Contextual conversion of a flag to [bool] in [if (valid_flags[..][..])]. *)
Variable flag_true : Flag -> bool.
Variable SizeT : IntTy.

(** *** The enumeration of [ScatterTile] *)

Definition LOADS_PER_TILE : Z := Z.shiftl 1 LOG_LOADS_PER_TILE.
Definition LOAD_VEC_SIZE : Z := Z.shiftl 1 LOG_LOAD_VEC_SIZE.
Definition LOG_ELEMENTS_PER_THREAD : Z := LOG_LOADS_PER_TILE + LOG_LOAD_VEC_SIZE.
Definition ELEMENTS_PER_THREAD : Z := Z.shiftl 1 LOG_ELEMENTS_PER_THREAD.
Definition TILE_SIZE : Z := ACTIVE_THREADS * ELEMENTS_PER_THREAD.

(** The geometry is well formed when the exponents are not negative, there is
    a lane, and the tile size fits [int]. *)
Definition geometry_ok : bool :=
  (0 <=? LOG_LOADS_PER_TILE) && (0 <=? LOG_LOAD_VEC_SIZE)
  && (0 <? ACTIVE_THREADS) && (TILE_SIZE <? 2 ^ 31).

(** *** Memory and events *)

(** Modelled from the spec: [ModifiedStore<CACHE_MODIFIER>::St(value, ptr)] of
    modified_store.cuh, which is not part of the sources at hand; it performs
    exactly one write of the value at the address, whatever the cache
    modifier, and never fails. *)
Definition St (cm : CacheModifier) (value : T) (ptr : Z) (m : gmap Z T)
  : gmap Z T :=
  <[ptr := value]> m.

(** Modelled from the spec: [Operators<T>::NopTransform] of operators.cuh,
    which is not part of the sources at hand; the identity transform. *)
Definition NopTransform (x : T) : T := x.

(** What a lane does, in program order. *)
Inductive Event : Type :=
| EvCompare (taken : bool)
| EvTransform (LOAD VEC : nat)
| EvStore (LOAD VEC : nat) (ptr : Z) (value : T).

(** The state a lane's code acts on: its register array [data], the memory
    the pointer [dest] points into, and the history of what it did. *)
Record LaneState : Type := mkLane {
  data : list (list T);
  mem : gmap Z T;
  trace : list Event
}.

Definition log (e : Event) (st : LaneState) : LaneState :=
  mkLane (data st) (mem st) (trace st ++ [e]).

(** *** Tile rank *)

(** [(threadIdx.x << LOG_LOAD_VEC_SIZE) + (LOAD * ACTIVE_THREADS *
    LOAD_VEC_SIZE) + VEC], computed in [unsigned int] since [threadIdx.x] is
    one, and stored in an [int]. *)
Definition tile_rank (threadIdx_x : Z) (LOAD VEC : nat) : Z :=
  let shifted := wrap unsigned_int_t (Z.shiftl threadIdx_x LOG_LOAD_VEC_SIZE) in
  let base := Z.of_nat LOAD * ACTIVE_THREADS * LOAD_VEC_SIZE in
  let sum1 := wrap unsigned_int_t (shifted + wrap unsigned_int_t base) in
  let sum2 := wrap unsigned_int_t (sum1 + wrap unsigned_int_t (Z.of_nat VEC)) in
  wrap int_t sum2.

(** *** The four overloads of [Iterate<LOAD, VEC>::Invoke]

    The overloads differ in the arguments that follow [scatter_offsets]. *)
Inductive GuardArgs : Type :=
| Unguarded
| GuardedByFlags (valid_flags : list (list Flag))
| GuardedByPartial (partial_tile_size : Z)
| GuardedByFlagsPartial (valid_flags : list (list Flag)) (partial_tile_size : Z).

(** [Transform(data[LOAD][VEC]); St(data[LOAD][VEC], dest +
    scatter_offsets[LOAD][VEC])].  An index outside an array has no defined
    result. *)
Definition store_elem (Transform : T -> T) (dest : Z)
    (scatter_offsets : list (list Z)) (LOAD VEC : nat) (st : LaneState)
  : option LaneState :=
  x ← get2 (data st) LOAD VEC;
  let data' := set2 (data st) LOAD VEC (Transform x) in
  value ← get2 data' LOAD VEC;
  off ← get2 scatter_offsets LOAD VEC;
  Some (mkLane data'
          (St CACHE_MODIFIER value (dest + off) (mem st))
          (trace st ++ [EvTransform LOAD VEC; EvStore LOAD VEC (dest + off) value])).

(** The body of the primary template's [Invoke], before the recursive call. *)
Definition Invoke_body (Transform : T -> T) (threadIdx_x : Z) (dest : Z)
    (scatter_offsets : list (list Z)) (g : GuardArgs) (LOAD VEC : nat)
    (st : LaneState) : option LaneState :=
  match g with
  | Unguarded =>
      store_elem Transform dest scatter_offsets LOAD VEC st
  | GuardedByFlags valid_flags =>
      f ← get2 valid_flags LOAD VEC;
      if flag_true f
      then store_elem Transform dest scatter_offsets LOAD VEC st
      else Some st
  | GuardedByPartial partial_tile_size =>
      let tile_rank := tile_rank threadIdx_x LOAD VEC in
      if lt_conv int_t SizeT tile_rank partial_tile_size
      then store_elem Transform dest scatter_offsets LOAD VEC st
      else Some st
  | GuardedByFlagsPartial valid_flags partial_tile_size =>
      let tile_rank := tile_rank threadIdx_x LOAD VEC in
      f ← get2 valid_flags LOAD VEC;
      if flag_true f && lt_conv int_t SizeT tile_rank partial_tile_size
      then store_elem Transform dest scatter_offsets LOAD VEC st
      else Some st
  end.

(** [Iterate<LOAD, VEC>::Invoke]: the specialization [<LOADS_PER_TILE, 0>]
    terminates, the specialization [<LOAD, LOAD_VEC_SIZE>] moves to the next
    load, the primary template handles one element and moves to the next
    vector item.  [depth] bounds the number of nested instantiations. *)
Fixpoint Iterate_Invoke (depth : nat) (Transform : T -> T) (threadIdx_x : Z)
    (dest : Z) (scatter_offsets : list (list Z)) (g : GuardArgs)
    (LOAD VEC : nat) (st : LaneState) : option LaneState :=
  match depth with
  | O => None
  | S depth' =>
      if (Z.of_nat LOAD =? LOADS_PER_TILE) && (Z.of_nat VEC =? 0) then
        Some st
      else if Z.of_nat VEC =? LOAD_VEC_SIZE then
        Iterate_Invoke depth' Transform threadIdx_x dest scatter_offsets g
          (LOAD + 1) 0 st
      else
        st' ← Invoke_body Transform threadIdx_x dest scatter_offsets g LOAD VEC st;
        Iterate_Invoke depth' Transform threadIdx_x dest scatter_offsets g
          LOAD (VEC + 1) st'
  end.

(** The instantiations from [Iterate<0, 0>] to [Iterate<LOADS_PER_TILE, 0>]. *)
Definition Iterate_depth : nat :=
  S (Z.to_nat LOADS_PER_TILE * S (Z.to_nat LOAD_VEC_SIZE)).

(** *** Interface *)

(** The default argument [partial_tile_size = TILE_SIZE]. *)
Definition default_partial_tile_size : Z := wrap SizeT TILE_SIZE.

(** [Scatter<T, Transform, SizeT>(dest, data, scatter_offsets,
    partial_tile_size)]. *)
Definition Scatter (Transform : T -> T) (threadIdx_x : Z) (dest : Z)
    (scatter_offsets : list (list Z)) (partial_tile_size : Z)
    (st : LaneState) : option LaneState :=
  if lt_conv SizeT int_t partial_tile_size TILE_SIZE then
    Iterate_Invoke Iterate_depth Transform threadIdx_x dest scatter_offsets
      (GuardedByPartial partial_tile_size) 0 0 (log (EvCompare true) st)
  else
    Iterate_Invoke Iterate_depth Transform threadIdx_x dest scatter_offsets
      Unguarded 0 0 (log (EvCompare false) st).

(** [Scatter<T, SizeT>(dest, data, scatter_offsets, partial_tile_size)]. *)
Definition Scatter_nop (threadIdx_x : Z) (dest : Z)
    (scatter_offsets : list (list Z)) (partial_tile_size : Z)
    (st : LaneState) : option LaneState :=
  Scatter NopTransform threadIdx_x dest scatter_offsets partial_tile_size st.

(** [Scatter<T, Transform, Flag, SizeT>(dest, data, flags, scatter_offsets,
    partial_tile_size)]. *)
Definition Scatter_flags (Transform : T -> T) (threadIdx_x : Z) (dest : Z)
    (flags : list (list Flag)) (scatter_offsets : list (list Z))
    (partial_tile_size : Z) (st : LaneState) : option LaneState :=
  if lt_conv SizeT int_t partial_tile_size TILE_SIZE then
    Iterate_Invoke Iterate_depth Transform threadIdx_x dest scatter_offsets
      (GuardedByFlagsPartial flags partial_tile_size) 0 0
      (log (EvCompare true) st)
  else
    Iterate_Invoke Iterate_depth Transform threadIdx_x dest scatter_offsets
      (GuardedByFlags flags) 0 0 (log (EvCompare false) st).

(** [Scatter<T, Flag, SizeT>(dest, data, flags, scatter_offsets,
    partial_tile_size)]. *)
Definition Scatter_flags_nop (threadIdx_x : Z) (dest : Z)
    (flags : list (list Flag)) (scatter_offsets : list (list Z))
    (partial_tile_size : Z) (st : LaneState) : option LaneState :=
  Scatter_flags NopTransform threadIdx_x dest flags scatter_offsets
    partial_tile_size st.

(** *** Reading a lane's history *)

Definition store_of (e : Event) : option (Z * T) :=
  match e with
  | EvStore _ _ ptr value => Some (ptr, value)
  | _ => None
  end.

(** The stores a lane issued, in program order. *)
Definition stores_of (tr : list Event) : list (Z * T) := omap store_of tr.

(** The memory after a sequence of stores. *)
Definition run_stores (s : list (Z * T)) (m : gmap Z T) : gmap Z T :=
  foldl (fun m' ps => St CACHE_MODIFIER ps.2 ps.1 m') m s.

(** The value of the last store to [ptr] in a sequence, if there is one. *)
Definition last_store (ptr : Z) (s : list (Z * T)) : option T :=
  snd <$> last (filter (fun ps => ps.1 = ptr) s).

(** The stores to [ptr] in a sequence, in order. *)
Definition stores_to (ptr : Z) (s : list (Z * T)) : list (Z * T) :=
  filter (fun ps => ps.1 = ptr) s.

(** The write predicate of each overload, as the code evaluates it. *)
Definition passes (threadIdx_x : Z) (g : GuardArgs) (LOAD VEC : nat) : bool :=
  match g with
  | Unguarded => true
  | GuardedByFlags valid_flags =>
      from_option flag_true false (get2 valid_flags LOAD VEC)
  | GuardedByPartial partial_tile_size =>
      lt_conv int_t SizeT (tile_rank threadIdx_x LOAD VEC) partial_tile_size
  | GuardedByFlagsPartial valid_flags partial_tile_size =>
      from_option flag_true false (get2 valid_flags LOAD VEC)
      && lt_conv int_t SizeT (tile_rank threadIdx_x LOAD VEC) partial_tile_size
  end.

(** The flags an overload reads are present at [LOAD], [VEC]. *)
Definition flags_at (g : GuardArgs) (LOAD VEC : nat) : Prop :=
  match g with
  | GuardedByFlags valid_flags | GuardedByFlagsPartial valid_flags _ =>
      is_Some (get2 valid_flags LOAD VEC)
  | _ => True
  end.

(** The elements of a lane's tile in the order the recursion visits them:
    loads in order, and vector items in order inside a load. *)
Definition row_elems (LOAD VEC n : nat) : list (nat * nat) :=
  map (pair LOAD) (seq VEC n).

Definition elems_from (LOAD k : nat) : list (nat * nat) :=
  flat_map (fun l => row_elems l 0 (Z.to_nat LOAD_VEC_SIZE)) (seq LOAD k).

Definition tile_elems : list (nat * nat) :=
  elems_from 0 (Z.to_nat LOADS_PER_TILE).

(** A sequence of element bodies run in order. *)
Fixpoint run_elems (body : nat -> nat -> LaneState -> option LaneState)
    (es : list (nat * nat)) (st : LaneState) : option LaneState :=
  match es with
  | [] => Some st
  | e :: es' => st' ← body e.1 e.2 st; run_elems body es' st'
  end.

(** What the element at [e] adds to the history, given the array [d] the
    element is read from. *)
Definition elem_events (Transform : T -> T) (threadIdx_x : Z) (dest : Z)
    (scatter_offsets : list (list Z)) (g : GuardArgs) (d : list (list T))
    (e : nat * nat) : list Event :=
  if passes threadIdx_x g e.1 e.2 then
    match get2 d e.1 e.2, get2 scatter_offsets e.1 e.2 with
    | Some x, Some off =>
        [EvTransform e.1 e.2; EvStore e.1 e.2 (dest + off) (Transform x)]
    | _, _ => []
    end
  else [].

(** The overload a [Scatter] shape selects: [flags] is present for the
    flag-accepting shapes. *)
Definition dispatch (flags : option (list (list Flag))) (partial_tile_size : Z)
  : GuardArgs :=
  match flags with
  | None =>
      if lt_conv SizeT int_t partial_tile_size TILE_SIZE
      then GuardedByPartial partial_tile_size else Unguarded
  | Some fl =>
      if lt_conv SizeT int_t partial_tile_size TILE_SIZE
      then GuardedByFlagsPartial fl partial_tile_size else GuardedByFlags fl
  end.

(** Any of the four shapes: [Transform] is [NopTransform] for the shapes
    without a transform, and [flags] is absent for the shapes without
    flags. *)
Definition Scatter_call (Transform : T -> T) (threadIdx_x : Z) (dest : Z)
    (flags : option (list (list Flag))) (scatter_offsets : list (list Z))
    (partial_tile_size : Z) (st : LaneState) : option LaneState :=
  match flags with
  | None => Scatter Transform threadIdx_x dest scatter_offsets partial_tile_size st
  | Some fl =>
      Scatter_flags Transform threadIdx_x dest fl scatter_offsets
        partial_tile_size st
  end.

(** The arrays [es] ranges over are defined at every element of [es]. *)
Definition elems_ok (offs : list (list Z)) (g : GuardArgs) (d : list (list T))
    (es : list (nat * nat)) : Prop :=
  forall e, e ∈ es ->
    is_Some (get2 d e.1 e.2) /\ is_Some (get2 offs e.1 e.2) /\ flags_at g e.1 e.2.

(** The arrays a call is given have the shape of the lane's tile. *)
Definition arrays_ok (flags : option (list (list Flag)))
    (offs : list (list Z)) (d : list (list T)) : bool :=
  has_shape (Z.to_nat LOADS_PER_TILE) (Z.to_nat LOAD_VEC_SIZE) d
  && has_shape (Z.to_nat LOADS_PER_TILE) (Z.to_nat LOAD_VEC_SIZE) offs
  && match flags with
     | None => true
     | Some fl => has_shape (Z.to_nat LOADS_PER_TILE) (Z.to_nat LOAD_VEC_SIZE) fl
     end.

(** The events of a call after the comparison. *)
Definition call_events (Transform : T -> T) (tid dest : Z)
    (flags : option (list (list Flag))) (offs : list (list Z)) (p : Z)
    (d : list (list T)) : list Event :=
  flat_map (elem_events Transform tid dest offs (dispatch flags p) d) tile_elems.

(** ** The lanes of a tile

    Each lane makes the same call on its own register arrays; the stores of
    the lanes reach the shared memory in some interleaving that keeps each
    lane's program order. *)

Record Lane : Type := mkLaneArgs {
  lane_tid : Z;
  lane_data : list (list T);
  lane_flags : option (list (list Flag));
  lane_offsets : list (list Z)
}.

(** The call of one lane, started on the memory [m]. *)
Definition lane_call (Transform : T -> T) (dest partial_tile_size : Z)
    (m : gmap Z T) (ln : Lane) : option LaneState :=
  Scatter_call Transform (lane_tid ln) dest (lane_flags ln) (lane_offsets ln)
    partial_tile_size (mkLane (lane_data ln) m []).

(** The lane's arrays after its call. *)
Definition lane_after (ln : Lane) (st : LaneState) : Lane :=
  mkLaneArgs (lane_tid ln) (data st) (lane_flags ln) (lane_offsets ln).

(** Modelled from the spec: the scheduling of the lanes of a tile, which is
    the execution model of the device and not part of the sources at hand.
    Every lane runs the call on its own arrays; no order holds between the
    stores of different lanes, and a store is one write of its value.  One
    call of the whole tile leads from memory [m] to memory [m'], the lanes'
    arrays becoming [lanes']. *)
Definition tile_exec (Transform : T -> T) (dest partial_tile_size : Z)
    (lanes : list Lane) (m : gmap Z T) (lanes' : list Lane) (m' : gmap Z T)
  : Prop :=
  exists (sts : list LaneState) (sched : list (Z * T)),
    Forall2 (fun ln st => lane_call Transform dest partial_tile_size m ln = Some st)
      lanes sts
    /\ Interleave (map (fun st => stores_of (trace st)) sts) sched
    /\ lanes' = zip_with lane_after lanes sts
    /\ m' = run_stores sched m.

Definition lane_ok (ln : Lane) : bool :=
  arrays_ok (lane_flags ln) (lane_offsets ln) (lane_data ln).

(** The stores of a lane's call, in program order. *)
Definition lane_stores (Transform : T -> T) (dest partial_tile_size : Z)
    (ln : Lane) : list (Z * T) :=
  stores_of (call_events Transform (lane_tid ln) dest (lane_flags ln)
               (lane_offsets ln) partial_tile_size (lane_data ln)).

(** All the stores of a tile's call, lane after lane. *)
Definition tile_stores (Transform : T -> T) (dest partial_tile_size : Z)
    (lanes : list Lane) : list (Z * T) :=
  concat (map (lane_stores Transform dest partial_tile_size) lanes).

(** How a lane's arrays after the call relate to those before it. *)
Definition lane_post (Transform : T -> T) (partial_tile_size : Z)
    (ln ln' : Lane) : Prop :=
  lane_tid ln' = lane_tid ln
  /\ lane_flags ln' = lane_flags ln
  /\ lane_offsets ln' = lane_offsets ln
  /\ lane_ok ln' = true
  /\ forall l v,
       get2 (lane_data ln') l v =
       if bool_decide ((l, v) ∈ tile_elems)
          && passes (lane_tid ln) (dispatch (lane_flags ln) partial_tile_size) l v
       then Transform <$> get2 (lane_data ln) l v
       else get2 (lane_data ln) l v.

(** The offsets of a lane's elements, in the order of the elements, and the
    offsets of all the lanes of a tile. *)
Definition lane_offset_list (ln : Lane) : list Z :=
  omap (fun e => get2 (lane_offsets ln) e.1 e.2) tile_elems.

Definition tile_offsets (lanes : list Lane) : list Z :=
  concat (map lane_offset_list lanes).

(** No two elements of the tile have the same offset. *)
Definition collision_free (lanes : list Lane) : Prop :=
  NoDup (tile_offsets lanes).

(** ** The four call shapes

    1. [Scatter(dest, data, offsets, partial)]: identity transform, no flags;
    2. the same with a transform;
    3. [Scatter(dest, data, flags, offsets, partial)]: identity transform;
    4. the same with a transform. *)

Inductive Shape : Type :=
| ShapeNop
| ShapeTransform (Transform : T -> T)
| ShapeFlagsNop (flags : list (list Flag))
| ShapeFlagsTransform (Transform : T -> T) (flags : list (list Flag)).

Definition Scatter_shape (sh : Shape) (threadIdx_x : Z) (dest : Z)
    (scatter_offsets : list (list Z)) (partial_tile_size : Z)
    (st : LaneState) : option LaneState :=
  match sh with
  | ShapeNop =>
      Scatter_nop threadIdx_x dest scatter_offsets partial_tile_size st
  | ShapeTransform Transform =>
      Scatter Transform threadIdx_x dest scatter_offsets partial_tile_size st
  | ShapeFlagsNop flags =>
      Scatter_flags_nop threadIdx_x dest flags scatter_offsets
        partial_tile_size st
  | ShapeFlagsTransform Transform flags =>
      Scatter_flags Transform threadIdx_x dest flags scatter_offsets
        partial_tile_size st
  end.

Definition shape_transform (sh : Shape) : T -> T :=
  match sh with
  | ShapeNop | ShapeFlagsNop _ => NopTransform
  | ShapeTransform Transform | ShapeFlagsTransform Transform _ => Transform
  end.

Definition shape_flags (sh : Shape) : option (list (list Flag)) :=
  match sh with
  | ShapeNop | ShapeTransform _ => None
  | ShapeFlagsNop flags | ShapeFlagsTransform _ flags => Some flags
  end.

(** The overload with a boundary check and the one without, for a call with
    or without flags. *)
Definition boundary_variant (flags : option (list (list Flag)))
    (partial_tile_size : Z) : GuardArgs :=
  match flags with
  | None => GuardedByPartial partial_tile_size
  | Some fl => GuardedByFlagsPartial fl partial_tile_size
  end.

Definition plain_variant (flags : option (list (list Flag))) : GuardArgs :=
  match flags with
  | None => Unguarded
  | Some fl => GuardedByFlags fl
  end.

(** The flag of an element, [true] for a call without flags. *)
Definition flag_holds (flags : option (list (list Flag))) (LOAD VEC : nat)
  : bool :=
  match flags with
  | None => true
  | Some fl => from_option flag_true false (get2 fl LOAD VEC)
  end.

(** The guard of a call, in mathematical terms: the flag when there are
    flags, and [tile_rank < partial_tile_size] when the partial tile size is
    below the tile size. *)
Definition guard_holds (threadIdx_x : Z) (flags : option (list (list Flag)))
    (partial_tile_size : Z) (LOAD VEC : nat) : bool :=
  flag_holds flags LOAD VEC
  && (if partial_tile_size <? TILE_SIZE
      then tile_rank threadIdx_x LOAD VEC <? partial_tile_size
      else true).

(** The stores a call is to make: for each element of the lane's tile, in
    order, that passes the guard, its transformed value at its offset from
    [dest]. *)
Definition guarded_stores (Transform : T -> T) (threadIdx_x : Z) (dest : Z)
    (flags : option (list (list Flag))) (scatter_offsets : list (list Z))
    (partial_tile_size : Z) (d : list (list T)) : list (Z * T) :=
  omap (fun e : nat * nat =>
          if guard_holds threadIdx_x flags partial_tile_size e.1 e.2
          then x ← get2 d e.1 e.2;
               off ← get2 scatter_offsets e.1 e.2;
               Some (dest + off, Transform x)
          else None)
       tile_elems.

(** The element at [LOAD], [VEC] of the lane's tile. *)
Definition in_tile (LOAD VEC : nat) : Prop :=
  Z.of_nat LOAD < LOADS_PER_TILE /\ Z.of_nat VEC < LOAD_VEC_SIZE.

(** The element at [LOAD], [VEC] was written in the events [evs]. *)
Definition written (evs : list Event) (LOAD VEC : nat) : Prop :=
  exists ptr value, EvStore LOAD VEC ptr value ∈ evs.

Definition is_compare (e : Event) : bool :=
  match e with EvCompare _ => true | _ => false end.

Definition is_transform_at (LOAD VEC : nat) (e : Event) : bool :=
  match e with
  | EvTransform l v => (l =? LOAD)%nat && (v =? VEC)%nat
  | _ => false
  end.

(** ** A tile laid out by tile rank

    The arrays of lane [tid] in which the entry of each element is a
    function of its tile rank; the lanes [0 .. ACTIVE_THREADS - 1] of a tile
    whose values are [val] of the rank and whose offsets are the rank. *)

Definition rank_array {A : Type} (f : Z -> A) (tid : Z) : list (list A) :=
  map (fun l => map (fun v => f (tile_rank tid l v))
                  (seq 0 (Z.to_nat LOAD_VEC_SIZE)))
      (seq 0 (Z.to_nat LOADS_PER_TILE)).

Definition rank_lane (val : Z -> T) (tid : Z) : Lane :=
  mkLaneArgs tid (rank_array val tid) None (rank_array (fun r => r) tid).

Definition rank_lanes (val : Z -> T) : list Lane :=
  map (fun t => rank_lane val (Z.of_nat t)) (seq 0 (Z.to_nat ACTIVE_THREADS)).

(** ** The order of the elements and the ranks of a tile *)

(** The position of the element at [LOAD], [VEC] in the order the recursion
    visits the elements of a lane's tile. *)
Definition elem_index (LOAD VEC : nat) : nat :=
  (LOAD * Z.to_nat LOAD_VEC_SIZE + VEC)%nat.

(** The tile ranks of the elements of the lanes [tids], lane after lane. *)
Definition tile_ranks (tids : list Z) : list Z :=
  concat (map (fun tid => map (fun e : nat * nat => tile_rank tid e.1 e.2)
                            tile_elems)
              tids).

(** The lanes are the lanes [0 .. ACTIVE_THREADS - 1], in order, and call a
    shape without flags. *)
Definition whole_tile (lanes : list Lane) : Prop :=
  map lane_tid lanes = seqZ 0 ACTIVE_THREADS
  /\ Forall (fun ln => lane_flags ln = None) lanes.

(** All the flags of the tile convert to [b]. *)
Definition flags_all (b : bool) (fl : list (list Flag)) : Prop :=
  forall l v, in_tile l v -> exists f, get2 fl l v = Some f /\ flag_true f = b.

(** ** The tile calling the shape without flags and without transform *)

(** The call [Scatter(dest, data, scatter_offsets, partial_tile_size)] of one
    lane, started on the memory [m]. *)
Definition lane_call_nop (dest partial_tile_size : Z) (m : gmap Z T)
    (ln : Lane) : option LaneState :=
  Scatter_nop (lane_tid ln) dest (lane_offsets ln) partial_tile_size
    (mkLane (lane_data ln) m []).

(** Modelled from the spec: the scheduling of the lanes of a tile, as for
    [tile_exec], every lane calling the shape without flags and without
    transform on its own arrays. *)
Definition tile_exec_nop (dest partial_tile_size : Z) (lanes : list Lane)
    (m : gmap Z T) (lanes' : list Lane) (m' : gmap Z T) : Prop :=
  exists (sts : list LaneState) (sched : list (Z * T)),
    Forall2 (fun ln st => lane_call_nop dest partial_tile_size m ln = Some st)
      lanes sts
    /\ Interleave (map (fun st => stores_of (trace st)) sts) sched
    /\ lanes' = zip_with lane_after lanes sts
    /\ m' = run_stores sched m.

(** The lanes of a tile each calling [Scatter] with a transform and without
    flags on the memory [m]: the states the lanes end in. *)
Definition lanes_Scatter (Transform : T -> T) (dest partial_tile_size : Z)
    (m : gmap Z T) (lanes : list Lane) (sts : list LaneState) : Prop :=
  Forall2 (fun ln st =>
             Scatter Transform (lane_tid ln) dest (lane_offsets ln)
               partial_tile_size (mkLane (lane_data ln) m []) = Some st)
    lanes sts.

(** ** Lemmas on the recursion *)

Lemma Iterate_row (Transform : T -> T) (tid dest : Z) (offs : list (list Z))
    (g : GuardArgs) (LOAD : nat) (d n VEC : nat) (st : LaneState) :
  Z.of_nat LOAD <> LOADS_PER_TILE ->
  Z.of_nat (VEC + n) = LOAD_VEC_SIZE ->
  Iterate_Invoke (n + S d) Transform tid dest offs g LOAD VEC st =
  st' ← run_elems (Invoke_body Transform tid dest offs g) (row_elems LOAD VEC n) st;
  Iterate_Invoke d Transform tid dest offs g (LOAD + 1) 0 st'.
Proof.
  intros HL. revert VEC st.
  induction n as [|n IH]; intros VEC st HV.
  - simpl.
    replace (Z.of_nat LOAD =? LOADS_PER_TILE) with false
      by (symmetry; apply Z.eqb_neq; exact HL).
    replace (Z.of_nat VEC =? LOAD_VEC_SIZE) with true
      by (symmetry; apply Z.eqb_eq; rewrite <- HV; f_equal; lia).
    reflexivity.
  - cbn [Nat.add Iterate_Invoke].
    replace (Z.of_nat LOAD =? LOADS_PER_TILE) with false
      by (symmetry; apply Z.eqb_neq; exact HL).
    replace (Z.of_nat VEC =? LOAD_VEC_SIZE) with false
      by (symmetry; apply Z.eqb_neq; lia).
    cbn [andb row_elems seq map run_elems fst snd].
    destruct (Invoke_body Transform tid dest offs g LOAD VEC st) as [st1|];
      [|reflexivity].
    cbn [mbind option_bind].
    rewrite (IH (VEC + 1)%nat st1) by lia.
    unfold row_elems. replace (VEC + 1)%nat with (S VEC) by lia. reflexivity.
Qed.

Lemma Iterate_loads (Transform : T -> T) (tid dest : Z) (offs : list (list Z))
    (g : GuardArgs) (d k LOAD : nat) (st : LaneState) :
  Z.of_nat (LOAD + k) = LOADS_PER_TILE ->
  Iterate_Invoke (k * S (Z.to_nat LOAD_VEC_SIZE) + S d) Transform tid dest offs
    g LOAD 0 st =
  run_elems (Invoke_body Transform tid dest offs g) (elems_from LOAD k) st.
Proof.
  assert (HVS : 0 <= LOAD_VEC_SIZE) by (apply Z.shiftl_nonneg; lia).
  revert LOAD st.
  induction k as [|k IH]; intros LOAD st HL.
  - simpl.
    replace (Z.of_nat LOAD =? LOADS_PER_TILE) with true
      by (symmetry; apply Z.eqb_eq; rewrite <- HL; f_equal; lia).
    reflexivity.
  - replace (S k * S (Z.to_nat LOAD_VEC_SIZE) + S d)%nat
      with (Z.to_nat LOAD_VEC_SIZE + S (k * S (Z.to_nat LOAD_VEC_SIZE) + S d))%nat
      by lia.
    rewrite Iterate_row by lia.
    unfold elems_from. cbn [seq flat_map].
    fold (elems_from (S LOAD) k).
    generalize (row_elems LOAD 0 (Z.to_nat LOAD_VEC_SIZE)) as es.
    intros es. revert st.
    induction es as [|e es IHes]; intros st.
    + cbn [run_elems app mbind option_bind].
      replace (LOAD + 1)%nat with (S LOAD) by lia.
      apply IH. lia.
    + cbn [run_elems app].
      destruct (Invoke_body Transform tid dest offs g e.1 e.2 st) as [st1|];
        [|reflexivity].
      cbn [mbind option_bind]. apply IHes.
Qed.

(** [Iterate<0, 0>::Invoke] visits the elements of the lane's tile in order,
    and the depth [Iterate_depth] is enough for it. *)
Lemma Iterate_tile (Transform : T -> T) (tid dest : Z) (offs : list (list Z))
    (g : GuardArgs) (st : LaneState) :
  Iterate_Invoke Iterate_depth Transform tid dest offs g 0 0 st =
  run_elems (Invoke_body Transform tid dest offs g) tile_elems st.
Proof.
  assert (HL : 0 <= LOADS_PER_TILE) by (apply Z.shiftl_nonneg; lia).
  unfold Iterate_depth, tile_elems.
  replace (S (Z.to_nat LOADS_PER_TILE * S (Z.to_nat LOAD_VEC_SIZE)))
    with (Z.to_nat LOADS_PER_TILE * S (Z.to_nat LOAD_VEC_SIZE) + 1)%nat by lia.
  apply Iterate_loads. lia.
Qed.

(** ** Lemmas on the register arrays *)

Lemma get2_set2_eq {A : Type} (a : list (list A)) (l v : nat) (x : A) :
  is_Some (get2 a l v) -> get2 (set2 a l v x) l v = Some x.
Proof.
  unfold get2, set2. intros [y Hy].
  rewrite list_lookup_alter_eq.
  destruct (a !! l) as [row|] eqn:Hrow; [|discriminate].
  cbn in *. apply list_lookup_insert_eq.
  apply lookup_lt_Some in Hy. exact Hy.
Qed.

Lemma get2_set2_ne {A : Type} (a : list (list A)) (l v l' v' : nat) (x : A) :
  (l, v) <> (l', v') -> get2 (set2 a l v x) l' v' = get2 a l' v'.
Proof.
  unfold get2, set2. intros Hne.
  destruct (decide (l = l')) as [->|Hl].
  - rewrite list_lookup_alter_eq.
    destruct (a !! l') as [row|]; [|reflexivity].
    cbn. apply list_lookup_insert_ne. congruence.
  - rewrite list_lookup_alter_ne by exact Hl. reflexivity.
Qed.

Lemma has_shape_get2 {A : Type} (rows cols : nat) (a : list (list A))
    (l v : nat) :
  has_shape rows cols a = true -> (l < rows)%nat -> (v < cols)%nat ->
  is_Some (get2 a l v).
Proof.
  unfold has_shape, get2. intros H Hl Hv.
  apply andb_prop in H as [Hlen Hall].
  apply Nat.eqb_eq in Hlen.
  destruct (lookup_lt_is_Some_2 a l) as [row Hrow]; [lia|].
  rewrite Hrow. cbn.
  apply lookup_lt_is_Some_2.
  rewrite forallb_forall in Hall.
  assert (Hin : In row a).
  { apply list_elem_of_In. apply list_elem_of_lookup. eauto. }
  specialize (Hall row Hin). apply Nat.eqb_eq in Hall. lia.
Qed.

(** ** Lemmas on one element *)

Lemma store_elem_spec (Transform : T -> T) (dest : Z) (offs : list (list Z))
    (l v : nat) (st : LaneState) (x : T) (off : Z) :
  get2 (data st) l v = Some x ->
  get2 offs l v = Some off ->
  store_elem Transform dest offs l v st =
  Some (mkLane (set2 (data st) l v (Transform x))
          (St CACHE_MODIFIER (Transform x) (dest + off) (mem st))
          (trace st ++ [EvTransform l v; EvStore l v (dest + off) (Transform x)])).
Proof.
  intros Hx Hoff. unfold store_elem.
  rewrite Hx. cbn [mbind option_bind].
  rewrite get2_set2_eq by (rewrite Hx; eauto).
  cbn [mbind option_bind]. rewrite Hoff. reflexivity.
Qed.

(** An element whose predicate fails leaves the lane's state as it is; an
    element whose predicate holds is transformed and stored. *)
Lemma Invoke_body_spec (Transform : T -> T) (tid dest : Z)
    (offs : list (list Z)) (g : GuardArgs) (l v : nat) (st : LaneState)
    (x : T) (off : Z) :
  flags_at g l v ->
  get2 (data st) l v = Some x ->
  get2 offs l v = Some off ->
  Invoke_body Transform tid dest offs g l v st =
  Some (if passes tid g l v
        then mkLane (set2 (data st) l v (Transform x))
               (St CACHE_MODIFIER (Transform x) (dest + off) (mem st))
               (trace st ++ [EvTransform l v; EvStore l v (dest + off) (Transform x)])
        else st).
Proof.
  intros Hf Hx Hoff.
  pose proof (store_elem_spec Transform dest offs l v st x off Hx Hoff) as Hs.
  destruct g as [|vf|p|vf p]; cbn [Invoke_body passes flags_at] in *.
  - exact Hs.
  - destruct Hf as [f Hf]. rewrite Hf. cbn [mbind option_bind from_option].
    destruct (flag_true f); [exact Hs|reflexivity].
  - destruct (lt_conv int_t SizeT (tile_rank tid l v) p); [exact Hs|reflexivity].
  - destruct Hf as [f Hf]. rewrite Hf. cbn [mbind option_bind from_option].
    destruct (flag_true f && lt_conv int_t SizeT (tile_rank tid l v) p);
      [exact Hs|reflexivity].
Qed.

Lemma elem_events_ext (Transform : T -> T) (tid dest : Z)
    (offs : list (list Z)) (g : GuardArgs) (d d' : list (list T))
    (es : list (nat * nat)) :
  (forall e, e ∈ es -> get2 d' e.1 e.2 = get2 d e.1 e.2) ->
  flat_map (elem_events Transform tid dest offs g d') es =
  flat_map (elem_events Transform tid dest offs g d) es.
Proof.
  induction es as [|e es IH]; intros H; [reflexivity|].
  cbn [flat_map]. rewrite IH by (intros e' He'; apply H; right; exact He').
  f_equal. unfold elem_events. rewrite (H e) by left. reflexivity.
Qed.

Lemma stores_of_app (tr1 tr2 : list Event) :
  stores_of (tr1 ++ tr2) = stores_of tr1 ++ stores_of tr2.
Proof. unfold stores_of. apply omap_app. Qed.

(** ** The elements of a lane's tile, run in order *)

Lemma run_elems_spec (Transform : T -> T) (tid dest : Z)
    (offs : list (list Z)) (g : GuardArgs) (es : list (nat * nat))
    (st : LaneState) :
  NoDup es ->
  elems_ok offs g (data st) es ->
  exists st',
    run_elems (Invoke_body Transform tid dest offs g) es st = Some st'
    /\ trace st' =
       trace st ++ flat_map (elem_events Transform tid dest offs g (data st)) es
    /\ mem st' =
       run_stores
         (stores_of (flat_map (elem_events Transform tid dest offs g (data st)) es))
         (mem st)
    /\ (forall l v,
          get2 (data st') l v =
          if bool_decide ((l, v) ∈ es) && passes tid g l v
          then Transform <$> get2 (data st) l v
          else get2 (data st) l v).
Proof.
  revert st. induction es as [|[l v] es IH]; intros st Hnd Hok.
  - exists st. cbn. rewrite app_nil_r. repeat split; try reflexivity.
  - apply NoDup_cons in Hnd as [Hnotin Hnd].
    destruct (Hok (l, v)) as ([x Hx] & [off Hoff] & Hf); [left|].
    cbn [fst snd] in Hx, Hoff, Hf.
    cbn [run_elems fst snd].
    rewrite (Invoke_body_spec Transform tid dest offs g l v st x off Hf Hx Hoff).
    cbn [mbind option_bind].
    set (st1 := if passes tid g l v then _ else st).
    assert (Hd1 : forall l' v', (l, v) <> (l', v') ->
                    get2 (data st1) l' v' = get2 (data st) l' v').
    { intros l' v' Hne. subst st1. destruct (passes tid g l v); [|reflexivity].
      cbn. apply get2_set2_ne. exact Hne. }
    assert (Hd1es : forall e, e ∈ es -> get2 (data st1) e.1 e.2 = get2 (data st) e.1 e.2).
    { intros [l' v'] He. apply Hd1. intros Heq. apply Hnotin. rewrite Heq. exact He. }
    destruct (IH st1 Hnd) as (st' & Hrun & Htr & Hmem & Hdata).
    { intros e He. rewrite (Hd1es e He). apply Hok. right. exact He. }
    exists st'. split; [exact Hrun|].
    rewrite (elem_events_ext Transform tid dest offs g (data st) (data st1) es Hd1es)
      in Htr, Hmem.
    cbn [flat_map]. unfold elem_events at 1 3. cbn [fst snd].
    rewrite Hx, Hoff.
    split; [|split].
    + rewrite Htr. subst st1. destruct (passes tid g l v); cbn.
      * rewrite <- app_assoc. reflexivity.
      * reflexivity.
    + rewrite Hmem. subst st1. destruct (passes tid g l v); cbn.
      * reflexivity.
      * reflexivity.
    + intros l' v'. rewrite Hdata.
      destruct (decide ((l, v) = (l', v'))) as [Heq|Hne].
      * inversion Heq; subst l' v'.
        rewrite (bool_decide_eq_false_2 _ Hnotin).
        rewrite bool_decide_eq_true_2 by left.
        cbn [andb]. subst st1. destruct (passes tid g l v); cbn.
        -- rewrite get2_set2_eq by (rewrite Hx; eauto). rewrite Hx. reflexivity.
        -- reflexivity.
      * rewrite (Hd1 l' v' Hne).
        assert (Hiff : bool_decide ((l', v') ∈ (l, v) :: es) = bool_decide ((l', v') ∈ es)).
        { apply bool_decide_ext. rewrite elem_of_cons. intuition congruence. }
        rewrite Hiff. reflexivity.
Qed.

(** ** The elements of a tile *)

Lemma elem_of_row_elems (l v n l' v' : nat) :
  (l', v') ∈ row_elems l v n <-> l' = l /\ (v <= v' < v + n)%nat.
Proof.
  unfold row_elems. rewrite list_elem_of_In, in_map_iff. split.
  - intros (w & Heq & Hin). apply in_seq in Hin. inversion Heq; subst. lia.
  - intros [-> Hv]. exists v'. split; [reflexivity|]. apply in_seq. lia.
Qed.

Lemma elem_of_elems_from (LOAD k l v : nat) :
  (l, v) ∈ elems_from LOAD k <->
  (LOAD <= l < LOAD + k)%nat /\ (v < Z.to_nat LOAD_VEC_SIZE)%nat.
Proof.
  unfold elems_from. rewrite list_elem_of_In, in_flat_map. split.
  - intros (l' & Hin & He). apply in_seq in Hin.
    apply list_elem_of_In, elem_of_row_elems in He. lia.
  - intros [Hl Hv]. exists l. split; [apply in_seq; lia|].
    apply list_elem_of_In, elem_of_row_elems. lia.
Qed.

Lemma elem_of_tile_elems (l v : nat) :
  (l, v) ∈ tile_elems <->
  (l < Z.to_nat LOADS_PER_TILE)%nat /\ (v < Z.to_nat LOAD_VEC_SIZE)%nat.
Proof. unfold tile_elems. rewrite elem_of_elems_from. lia. Qed.

Lemma NoDup_row_elems (l v n : nat) : NoDup (row_elems l v n).
Proof.
  unfold row_elems. apply NoDup_fmap_2; [|apply NoDup_seq].
  intros a b Hab. inversion Hab. reflexivity.
Qed.

Lemma NoDup_elems_from (LOAD k : nat) : NoDup (elems_from LOAD k).
Proof.
  revert LOAD. induction k as [|k IH]; intros LOAD.
  - apply NoDup_nil_2.
  - unfold elems_from. cbn [seq flat_map]. fold (elems_from (S LOAD) k).
    apply NoDup_app. split; [apply NoDup_row_elems|]. split; [|apply IH].
    intros [l v] H1 H2.
    apply elem_of_row_elems in H1. apply elem_of_elems_from in H2. lia.
Qed.

Lemma NoDup_tile_elems : NoDup tile_elems.
Proof. apply NoDup_elems_from. Qed.

(** ** One call of one lane *)

Lemma arrays_ok_elems (flags : option (list (list Flag)))
    (offs : list (list Z)) (d : list (list T)) (p : Z) :
  arrays_ok flags offs d = true ->
  elems_ok offs (dispatch flags p) d tile_elems.
Proof.
  unfold arrays_ok. intros H.
  apply andb_prop in H as [H Hfl]. apply andb_prop in H as [Hd Hoffs].
  intros [l v] He. apply elem_of_tile_elems in He as [Hl Hv]. cbn [fst snd].
  split; [eapply has_shape_get2; eauto|].
  split; [eapply has_shape_get2; eauto|].
  unfold dispatch. destruct flags as [fl|].
  - destruct (lt_conv SizeT int_t p TILE_SIZE); cbn [flags_at];
      eapply has_shape_get2; eauto.
  - destruct (lt_conv SizeT int_t p TILE_SIZE); exact I.
Qed.

(** Every shape makes one comparison and then runs the overload the
    comparison selects over the elements of the tile. *)
Lemma Scatter_call_unfold (Transform : T -> T) (tid dest : Z)
    (flags : option (list (list Flag))) (offs : list (list Z)) (p : Z)
    (st : LaneState) :
  Scatter_call Transform tid dest flags offs p st =
  run_elems (Invoke_body Transform tid dest offs (dispatch flags p)) tile_elems
    (log (EvCompare (lt_conv SizeT int_t p TILE_SIZE)) st).
Proof.
  unfold Scatter_call, Scatter, Scatter_flags, dispatch.
  destruct flags as [fl|]; destruct (lt_conv SizeT int_t p TILE_SIZE);
    apply Iterate_tile.
Qed.

Lemma Scatter_call_spec (Transform : T -> T) (tid dest : Z)
    (flags : option (list (list Flag))) (offs : list (list Z)) (p : Z)
    (st : LaneState) :
  arrays_ok flags offs (data st) = true ->
  exists st',
    Scatter_call Transform tid dest flags offs p st = Some st'
    /\ trace st' =
       trace st ++ EvCompare (lt_conv SizeT int_t p TILE_SIZE)
                   :: call_events Transform tid dest flags offs p (data st)
    /\ mem st' =
       run_stores
         (stores_of (call_events Transform tid dest flags offs p (data st)))
         (mem st)
    /\ (forall l v,
          get2 (data st') l v =
          if bool_decide ((l, v) ∈ tile_elems) && passes tid (dispatch flags p) l v
          then Transform <$> get2 (data st) l v
          else get2 (data st) l v).
Proof.
  intros Hok. rewrite Scatter_call_unfold.
  destruct (run_elems_spec Transform tid dest offs (dispatch flags p) tile_elems
              (log (EvCompare (lt_conv SizeT int_t p TILE_SIZE)) st)
              NoDup_tile_elems) as (st' & Hrun & Htr & Hmem & Hdata).
  { apply arrays_ok_elems. exact Hok. }
  exists st'. split; [exact Hrun|].
  cbn [log data mem trace] in Htr, Hmem, Hdata.
  split; [|split].
  - rewrite Htr, <- app_assoc. reflexivity.
  - exact Hmem.
  - exact Hdata.
Qed.

(** ** Lemmas on the machine integers *)

Lemma wrap_in_range (ty : IntTy) (z : Z) :
  0 < ty_bits ty -> in_range ty z = true -> wrap ty z = z.
Proof.
  unfold in_range, wrap. intros Hb H.
  assert (Hp : 2 ^ ty_bits ty = 2 * 2 ^ (ty_bits ty - 1)).
  { replace (ty_bits ty) with (Z.succ (ty_bits ty - 1)) at 1 by lia.
    apply Z.pow_succ_r. lia. }
  destruct (ty_signed ty); apply andb_prop in H as [H1 H2].
  - apply Z.leb_le in H1. apply Z.ltb_lt in H2.
    rewrite Z.mod_small by lia. lia.
  - apply Z.leb_le in H1. apply Z.ltb_lt in H2.
    apply Z.mod_small. lia.
Qed.

(** The type in which an [int] and a [SizeT] are compared holds every value
    of [SizeT] and every [int] that is not negative. *)
Lemma usual_conv_int_SizeT (a b : Z) :
  0 < ty_bits SizeT ->
  0 <= a < 2 ^ 31 ->
  in_range SizeT b = true ->
  usual_conv SizeT int_t = usual_conv int_t SizeT
  /\ 0 < ty_bits (usual_conv int_t SizeT)
  /\ in_range (usual_conv int_t SizeT) a = true
  /\ in_range (usual_conv int_t SizeT) b = true.
Proof.
  intros Hb Ha Hr.
  assert (H32 : (2 : Z) ^ 32 = 2 * 2 ^ 31) by reflexivity.
  destruct SizeT as [sg bits]. cbn [ty_signed ty_bits] in Hb.
  assert (Hr' : if sg then - 2 ^ (bits - 1) <= b < 2 ^ (bits - 1)
                else 0 <= b < 2 ^ bits).
  { unfold in_range in Hr. cbn [ty_signed ty_bits] in Hr.
    destruct sg; apply andb_prop in Hr as [H1 H2];
      apply Z.leb_le in H1; apply Z.ltb_lt in H2; lia. }
  clear Hr.
  assert (Hin : forall lo hi z, lo <= z < hi -> (lo <=? z) && (z <? hi) = true).
  { intros lo hi z Hz. apply andb_true_intro.
    split; [apply Z.leb_le|apply Z.ltb_lt]; lia. }
  unfold usual_conv, promote, in_range, int_t. cbn [ty_signed ty_bits].
  change (32 <? 32) with false. cbv iota. cbn [ty_signed ty_bits].
  destruct (Z.ltb_spec bits 32) as [Hlt|Hge].
  - cbn [ty_signed ty_bits Bool.eqb].
    change (32 <? 32) with false. cbv iota. cbn [ty_signed ty_bits].
    change (32 - 1) with 31.
    pose proof (Z.pow_le_mono_r 2 (bits - 1) 31 ltac:(lia) ltac:(lia)) as P1.
    pose proof (Z.pow_le_mono_r 2 bits 31 ltac:(lia) ltac:(lia)) as P2.
    split; [reflexivity|]. split; [lia|].
    split; apply Hin; [lia|]. destruct sg; lia.
  - pose proof (Z.pow_le_mono_r 2 31 (bits - 1) ltac:(lia) ltac:(lia)) as P1.
    pose proof (Z.pow_le_mono_r 2 32 bits ltac:(lia) ltac:(lia)) as P2.
    destruct sg; cbn [ty_signed ty_bits Bool.eqb].
    + destruct (Z.ltb_spec 32 bits) as [Hlt2|Hge2];
        destruct (Z.ltb_spec bits 32) as [Hlt3|Hge3]; try lia;
        cbn [ty_signed ty_bits].
      * split; [reflexivity|]. split; [lia|]. split; apply Hin; lia.
      * assert (bits = 32) by lia. subst bits.
        split; [reflexivity|]. split; [lia|]. split; apply Hin; lia.
    + destruct (Z.leb_spec 32 bits) as [Hle|Hgt]; try lia.
      cbn [ty_signed ty_bits].
      split; [reflexivity|]. split; [lia|]. split; apply Hin; lia.
Qed.

Lemma lt_conv_int_SizeT (a b : Z) :
  0 < ty_bits SizeT -> 0 <= a < 2 ^ 31 -> in_range SizeT b = true ->
  lt_conv int_t SizeT a b = (a <? b).
Proof.
  intros Hb Ha Hr.
  destruct (usual_conv_int_SizeT a b Hb Ha Hr) as (_ & Hty & Hra & Hrb).
  unfold lt_conv. cbv zeta.
  rewrite (wrap_in_range _ a Hty Hra), (wrap_in_range _ b Hty Hrb). reflexivity.
Qed.

Lemma lt_conv_SizeT_int (a b : Z) :
  0 < ty_bits SizeT -> 0 <= a < 2 ^ 31 -> in_range SizeT b = true ->
  lt_conv SizeT int_t b a = (b <? a).
Proof.
  intros Hb Ha Hr.
  destruct (usual_conv_int_SizeT a b Hb Ha Hr) as (Heq & Hty & Hra & Hrb).
  unfold lt_conv. cbv zeta. rewrite Heq.
  rewrite (wrap_in_range _ a Hty Hra), (wrap_in_range _ b Hty Hrb). reflexivity.
Qed.

(** ** Lemmas on the geometry *)

Lemma geometry_facts :
  geometry_ok = true ->
  LOADS_PER_TILE = 2 ^ LOG_LOADS_PER_TILE
  /\ LOAD_VEC_SIZE = 2 ^ LOG_LOAD_VEC_SIZE
  /\ 0 < LOADS_PER_TILE /\ 0 < LOAD_VEC_SIZE /\ 0 < ACTIVE_THREADS
  /\ TILE_SIZE = ACTIVE_THREADS * LOADS_PER_TILE * LOAD_VEC_SIZE
  /\ 0 < TILE_SIZE < 2 ^ 31.
Proof.
  unfold geometry_ok. intros H.
  apply andb_prop in H as [H H4]. apply andb_prop in H as [H H3].
  apply andb_prop in H as [H1 H2].
  apply Z.leb_le in H1, H2. apply Z.ltb_lt in H3, H4.
  assert (E : TILE_SIZE = ACTIVE_THREADS * LOADS_PER_TILE * LOAD_VEC_SIZE).
  { unfold TILE_SIZE, ELEMENTS_PER_THREAD, LOG_ELEMENTS_PER_THREAD,
      LOADS_PER_TILE, LOAD_VEC_SIZE.
    rewrite !Z.shiftl_1_l, Z.pow_add_r by assumption. ring. }
  unfold LOADS_PER_TILE, LOAD_VEC_SIZE in *. rewrite !Z.shiftl_1_l in *.
  pose proof (Z.pow_pos_nonneg 2 LOG_LOADS_PER_TILE ltac:(lia) H1).
  pose proof (Z.pow_pos_nonneg 2 LOG_LOAD_VEC_SIZE ltac:(lia) H2).
  repeat split; try assumption; try lia.
Qed.

(** The tile rank of an element of lane [tid] is the flattened index
    [tid * LOAD_VEC_SIZE + LOAD * ACTIVE_THREADS * LOAD_VEC_SIZE + VEC], and it
    lies inside the tile. *)
Lemma tile_rank_exact (tid : Z) (l v : nat) :
  geometry_ok = true ->
  0 <= tid < ACTIVE_THREADS ->
  Z.of_nat l < LOADS_PER_TILE ->
  Z.of_nat v < LOAD_VEC_SIZE ->
  tile_rank tid l v =
    tid * LOAD_VEC_SIZE + Z.of_nat l * ACTIVE_THREADS * LOAD_VEC_SIZE + Z.of_nat v
  /\ 0 <= tile_rank tid l v < TILE_SIZE.
Proof.
  intros Hg Htid Hl Hv.
  destruct (geometry_facts Hg) as (EL & EV & HL & HV & HA & ET & HT).
  assert (Hlog : 0 <= LOG_LOAD_VEC_SIZE).
  { unfold geometry_ok in Hg. apply andb_prop in Hg as [Hg _].
    apply andb_prop in Hg as [Hg _]. apply andb_prop in Hg as [_ Hg].
    apply Z.leb_le in Hg. exact Hg. }
  assert (B1 : 0 <= tid * LOAD_VEC_SIZE <= (ACTIVE_THREADS - 1) * LOAD_VEC_SIZE)
    by nia.
  assert (B2 : 0 <= Z.of_nat l * ACTIVE_THREADS * LOAD_VEC_SIZE
               <= (LOADS_PER_TILE - 1) * ACTIVE_THREADS * LOAD_VEC_SIZE).
  { split; [apply Z.mul_nonneg_nonneg; [apply Z.mul_nonneg_nonneg|]; lia|].
    apply Z.mul_le_mono_nonneg_r; [lia|].
    apply Z.mul_le_mono_nonneg_r; lia. }
  assert (B3 : ACTIVE_THREADS * LOADS_PER_TILE * LOAD_VEC_SIZE =
               (ACTIVE_THREADS - 1) * LOAD_VEC_SIZE
               + (LOADS_PER_TILE - 1) * ACTIVE_THREADS * LOAD_VEC_SIZE
               + LOAD_VEC_SIZE) by ring.
  assert (H32 : (2 : Z) ^ 32 = 2 * 2 ^ 31) by reflexivity.
  assert (Hu : forall z, 0 <= z < TILE_SIZE -> wrap unsigned_int_t z = z).
  { intros z Hz. unfold wrap, unsigned_int_t. cbn [ty_signed ty_bits].
    apply Z.mod_small. lia. }
  assert (Hs : forall z, 0 <= z < TILE_SIZE -> wrap int_t z = z).
  { intros z Hz. apply wrap_in_range; [unfold int_t; cbn; lia|].
    unfold in_range, int_t. cbn [ty_signed ty_bits]. change (32 - 1) with 31.
    apply andb_true_intro. split; [apply Z.leb_le|apply Z.ltb_lt]; lia. }
  unfold tile_rank. cbv zeta.
  rewrite Z.shiftl_mul_pow2 by exact Hlog. rewrite <- EV.
  rewrite (Hu (tid * LOAD_VEC_SIZE)) by lia.
  rewrite (Hu (Z.of_nat l * ACTIVE_THREADS * LOAD_VEC_SIZE)) by lia.
  rewrite (Hu (Z.of_nat v)) by lia.
  rewrite (Hu (tid * LOAD_VEC_SIZE + Z.of_nat l * ACTIVE_THREADS * LOAD_VEC_SIZE))
    by lia.
  rewrite (Hu (tid * LOAD_VEC_SIZE + Z.of_nat l * ACTIVE_THREADS * LOAD_VEC_SIZE
               + Z.of_nat v)) by lia.
  rewrite Hs by lia. split; [reflexivity|lia].
Qed.

(** ** Lemmas on stores and memory *)

Lemma run_stores_cons (q : Z) (x : T) (s : list (Z * T)) (m : gmap Z T) :
  run_stores ((q, x) :: s) m = run_stores s (<[q := x]> m).
Proof. reflexivity. Qed.

(** A cell holds the value of the last store to it, and its former contents
    when no store reaches it. *)
Lemma run_stores_lookup (s : list (Z * T)) (m : gmap Z T) (p : Z) :
  run_stores s m !! p =
  match last_store p s with Some x => Some x | None => m !! p end.
Proof.
  revert m. induction s as [|[q x] s IH]; intros m; [reflexivity|].
  rewrite run_stores_cons, IH. unfold last_store.
  rewrite filter_cons. cbn [fst].
  destruct (decide (q = p)) as [->|Hne].
  - rewrite last_cons.
    destruct (last (filter (λ ps : Z * T, ps.1 = p) s)) as [[q' y]|]; cbn.
    + reflexivity.
    + apply lookup_insert_eq.
  - destruct (last (filter (λ ps : Z * T, ps.1 = p) s)) as [[q' y]|]; cbn.
    + reflexivity.
    + apply lookup_insert_ne. exact Hne.
Qed.

Lemma last_store_None (s : list (Z * T)) (p : Z) :
  p ∉ s.*1 -> last_store p s = None.
Proof.
  intros Hp. unfold last_store.
  replace (filter (λ ps : Z * T, ps.1 = p) s) with (@nil (Z * T)); [reflexivity|].
  symmetry. induction s as [|[q x] s IH]; [reflexivity|].
  rewrite filter_cons. cbn [fst]. cbn in Hp.
  apply not_elem_of_cons in Hp as [Hne Hp].
  destruct (decide (q = p)); [congruence|]. apply IH. exact Hp.
Qed.

Lemma last_store_elem_of (s : list (Z * T)) (p : Z) (x : T) :
  last_store p s = Some x -> (p, x) ∈ s.
Proof.
  unfold last_store. intros H.
  destruct (last (filter (λ ps : Z * T, ps.1 = p) s)) as [[q y]|] eqn:Hl;
    [|discriminate].
  cbn in H. inversion H; subst y.
  apply last_Some_elem_of in Hl. apply list_elem_of_filter in Hl as [Hq Hin].
  cbn in Hq. subst q. exact Hin.
Qed.

Lemma NoDup_fst_functional (s : list (Z * T)) (k : Z) (v1 v2 : T) :
  NoDup s.*1 -> (k, v1) ∈ s -> (k, v2) ∈ s -> v1 = v2.
Proof.
  intros Hnd H1 H2.
  induction s as [|[q z] s IH]; [inversion H1|].
  cbn in Hnd. apply NoDup_cons in Hnd as [Hq Hnd].
  apply elem_of_cons in H1 as [H1|H1]; apply elem_of_cons in H2 as [H2|H2].
  - congruence.
  - inversion H1; subst. exfalso. apply Hq.
    apply list_elem_of_fmap. exists (q, v2). split; [reflexivity|exact H2].
  - inversion H2; subst. exfalso. apply Hq.
    apply list_elem_of_fmap. exists (q, v1). split; [reflexivity|exact H1].
  - apply IH; assumption.
Qed.

(** ** Lemmas on interleavings *)

Lemma concat_all_nil {A : Type} (ls : list (list A)) :
  Forall (fun l => l = []) ls -> concat ls = [].
Proof.
  induction 1 as [|l ls Hl _ IH]; [reflexivity|].
  cbn. rewrite Hl, IH. reflexivity.
Qed.

Lemma concat_take_first {A : Type} (ls : list (list A)) (i : nat) (x : A)
    (t : list A) :
  ls !! i = Some (x :: t) -> concat ls ≡ₚ x :: concat (<[i := t]> ls).
Proof.
  revert i. induction ls as [|l ls IH]; intros i Hi; [discriminate|].
  destruct i as [|i]; cbn in *.
  - inversion Hi; subst l. reflexivity.
  - rewrite (IH i Hi). symmetry. apply Permutation_middle.
Qed.

(** An interleaving holds the items of the lanes, each once. *)
Lemma Interleave_Permutation {A : Type} (ls : list (list A)) (s : list A) :
  Interleave ls s -> s ≡ₚ concat ls.
Proof.
  induction 1 as [ls Hnil|i x t ls s Hi _ IH].
  - rewrite concat_all_nil by exact Hnil. reflexivity.
  - rewrite (concat_take_first ls i x t Hi), IH. reflexivity.
Qed.

Lemma Interleave_nil_cons {A : Type} (ls : list (list A)) (s : list A) :
  Interleave ls s -> Interleave ([] :: ls) s.
Proof.
  induction 1 as [ls Hnil|i x t ls s Hi _ IH].
  - apply Interleave_done. constructor; [reflexivity|exact Hnil].
  - apply (Interleave_step (S i) x t); [exact Hi|exact IH].
Qed.

(** The first lane may run before all the others. *)
Lemma Interleave_first {A : Type} (l : list A) (ls : list (list A))
    (s : list A) :
  Interleave ls s -> Interleave (l :: ls) (l ++ s).
Proof.
  intros H. induction l as [|x l IH].
  - apply Interleave_nil_cons. exact H.
  - cbn. apply (Interleave_step 0 x l); [reflexivity|exact IH].
Qed.

(** The first lane may run after all the others. *)
Lemma Interleave_last {A : Type} (l : list A) (ls : list (list A))
    (s : list A) :
  Interleave ls s -> Interleave (l :: ls) (s ++ l).
Proof.
  induction 1 as [ls Hnil|i x t ls s Hi _ IH].
  - cbn. rewrite <- (app_nil_r l) at 2.
    apply Interleave_first. apply Interleave_done. exact Hnil.
  - cbn. apply (Interleave_step (S i) x t); [exact Hi|exact IH].
Qed.

Lemma Interleave_in_order {A : Type} (ls : list (list A)) :
  Interleave ls (concat ls).
Proof.
  induction ls as [|l ls IH].
  - apply Interleave_done. constructor.
  - cbn. apply Interleave_first. exact IH.
Qed.

Lemma Interleave_in_reverse_order {A : Type} (ls : list (list A)) :
  Interleave ls (concat (reverse ls)).
Proof.
  induction ls as [|l ls IH].
  - apply Interleave_done. constructor.
  - rewrite reverse_cons, concat_app. cbn. rewrite app_nil_r.
    apply Interleave_last. exact IH.
Qed.

Lemma filter_concat {A : Type} (P : A -> Prop) `{!forall x, Decision (P x)}
    (ls : list (list A)) :
  filter P (concat ls) = concat (map (filter P) ls).
Proof.
  induction ls as [|l ls IH]; [reflexivity|].
  cbn. rewrite filter_app, IH. reflexivity.
Qed.

Lemma reverse_concat_short {A : Type} (ls : list (list A)) :
  Forall (fun l => (length l <= 1)%nat) ls ->
  concat (reverse ls) = reverse (concat ls).
Proof.
  induction 1 as [|l ls Hl _ IH]; [reflexivity|].
  rewrite reverse_cons, concat_app.
  change (concat [l]) with (l ++ []). change (concat (l :: ls)) with (l ++ concat ls).
  rewrite app_nil_r, reverse_app, IH.
  f_equal. destruct l as [|x [|y l]]; [reflexivity|reflexivity|cbn in Hl; lia].
Qed.

(** ** The shape of the register array is kept *)

Lemma has_shape_set2 {A : Type} (rows cols : nat) (a : list (list A))
    (l v : nat) (x : A) :
  has_shape rows cols (set2 a l v x) = has_shape rows cols a.
Proof.
  unfold has_shape, set2. rewrite length_alter. f_equal.
  revert l. induction a as [|row a IH]; intros l; [reflexivity|].
  destruct l as [|l]; cbn.
  - rewrite length_insert. reflexivity.
  - f_equal. apply IH.
Qed.

Lemma store_elem_shape (Transform : T -> T) (dest : Z) (offs : list (list Z))
    (l v : nat) (st st' : LaneState) (rows cols : nat) :
  store_elem Transform dest offs l v st = Some st' ->
  has_shape rows cols (data st') = has_shape rows cols (data st).
Proof.
  unfold store_elem. intros H.
  destruct (get2 (data st) l v) as [x|]; [|discriminate].
  cbn [mbind option_bind] in H.
  destruct (get2 (set2 (data st) l v (Transform x)) l v) as [y|]; [|discriminate].
  cbn [mbind option_bind] in H.
  destruct (get2 offs l v) as [off|]; [|discriminate].
  cbn [mbind option_bind] in H. inversion H; subst st'. cbn [data].
  apply has_shape_set2.
Qed.

Lemma Invoke_body_shape (Transform : T -> T) (tid dest : Z)
    (offs : list (list Z)) (g : GuardArgs) (l v : nat) (st st' : LaneState)
    (rows cols : nat) :
  Invoke_body Transform tid dest offs g l v st = Some st' ->
  has_shape rows cols (data st') = has_shape rows cols (data st).
Proof.
  intros H.
  assert (Hs : forall s', store_elem Transform dest offs l v st = Some s' ->
                 has_shape rows cols (data s') = has_shape rows cols (data st))
    by (intros s'; apply store_elem_shape).
  assert (Hid : forall s', Some st = Some s' ->
                  has_shape rows cols (data s') = has_shape rows cols (data st))
    by (intros s' E; inversion E; reflexivity).
  destruct g as [|vf|p|vf p]; cbn [Invoke_body] in H.
  - apply Hs. exact H.
  - destruct (get2 vf l v) as [f|]; [|discriminate].
    cbn [mbind option_bind] in H.
    destruct (flag_true f); [apply Hs|apply Hid]; exact H.
  - destruct (lt_conv int_t SizeT (tile_rank tid l v) p);
      [apply Hs|apply Hid]; exact H.
  - destruct (get2 vf l v) as [f|]; [|discriminate].
    cbn [mbind option_bind] in H.
    destruct (flag_true f && lt_conv int_t SizeT (tile_rank tid l v) p);
      [apply Hs|apply Hid]; exact H.
Qed.

Lemma run_elems_shape (Transform : T -> T) (tid dest : Z)
    (offs : list (list Z)) (g : GuardArgs) (es : list (nat * nat))
    (st st' : LaneState) (rows cols : nat) :
  run_elems (Invoke_body Transform tid dest offs g) es st = Some st' ->
  has_shape rows cols (data st') = has_shape rows cols (data st).
Proof.
  revert st. induction es as [|e es IH]; intros st H; cbn [run_elems] in H.
  - inversion H. reflexivity.
  - destruct (Invoke_body Transform tid dest offs g e.1 e.2 st) as [st1|] eqn:Hb;
      [|discriminate].
    cbn [mbind option_bind] in H.
    rewrite (IH st1 H). eapply Invoke_body_shape. exact Hb.
Qed.

Lemma Scatter_call_shape (Transform : T -> T) (tid dest : Z)
    (flags : option (list (list Flag))) (offs : list (list Z)) (p : Z)
    (st st' : LaneState) :
  Scatter_call Transform tid dest flags offs p st = Some st' ->
  arrays_ok flags offs (data st') = arrays_ok flags offs (data st).
Proof.
  rewrite Scatter_call_unfold. intros H. unfold arrays_ok.
  rewrite (run_elems_shape _ _ _ _ _ _ _ _ _ _ H). reflexivity.
Qed.

(** ** One call of a tile *)

Lemma lane_call_spec (Transform : T -> T) (dest p : Z) (m : gmap Z T)
    (ln : Lane) :
  lane_ok ln = true ->
  exists st,
    lane_call Transform dest p m ln = Some st
    /\ stores_of (trace st) = lane_stores Transform dest p ln
    /\ mem st = run_stores (lane_stores Transform dest p ln) m
    /\ lane_post Transform p ln (lane_after ln st).
Proof.
  intros Hok. unfold lane_ok in Hok. unfold lane_call.
  destruct (Scatter_call_spec Transform (lane_tid ln) dest (lane_flags ln)
              (lane_offsets ln) p (mkLane (lane_data ln) m []) Hok)
    as (st & Hrun & Htr & Hmem & Hdata).
  exists st. split; [exact Hrun|]. cbn [data mem trace] in *.
  split; [|split].
  - rewrite Htr. reflexivity.
  - exact Hmem.
  - unfold lane_post, lane_after, lane_ok. cbn [lane_tid lane_flags lane_offsets lane_data].
    repeat split; try reflexivity.
    + rewrite (Scatter_call_shape _ _ _ _ _ _ _ _ Hrun). exact Hok.
    + exact Hdata.
Qed.

(** A call of the tile is an interleaving of the lanes' stores. *)
Lemma tile_exec_elim (Transform : T -> T) (dest p : Z) (lanes lanes' : list Lane)
    (m m' : gmap Z T) :
  Forall (fun ln => lane_ok ln = true) lanes ->
  tile_exec Transform dest p lanes m lanes' m' ->
  (exists sched,
     Interleave (map (lane_stores Transform dest p) lanes) sched
     /\ m' = run_stores sched m)
  /\ Forall2 (lane_post Transform p) lanes lanes'.
Proof.
  intros Hok (sts & sched & HF & HI & -> & ->).
  assert (H : map (fun st => stores_of (trace st)) sts
              = map (lane_stores Transform dest p) lanes
              /\ Forall2 (lane_post Transform p) lanes (zip_with lane_after lanes sts)).
  { clear HI. induction HF as [|ln st lanes sts Hcall _ IH].
    - split; [reflexivity|constructor].
    - apply Forall_cons in Hok as [Hln Hok].
      destruct (IH Hok) as [IH1 IH2].
      destruct (lane_call_spec Transform dest p m ln Hln)
        as (st0 & Hcall0 & Hst & _ & Hpost).
      rewrite Hcall in Hcall0. inversion Hcall0; subst st0.
      split; [cbn; rewrite Hst, IH1; reflexivity|].
      cbn. constructor; assumption. }
  destruct H as [H1 H2]. rewrite H1 in HI.
  split; [exists sched; split; [exact HI|reflexivity]|exact H2].
Qed.

(** Every interleaving of the lanes' stores is a call of the tile. *)
Lemma tile_exec_intro (Transform : T -> T) (dest p : Z) (lanes : list Lane)
    (m : gmap Z T) (sched : list (Z * T)) :
  Forall (fun ln => lane_ok ln = true) lanes ->
  Interleave (map (lane_stores Transform dest p) lanes) sched ->
  exists lanes',
    tile_exec Transform dest p lanes m lanes' (run_stores sched m).
Proof.
  intros Hok HI.
  assert (H : exists sts,
             Forall2 (fun ln st => lane_call Transform dest p m ln = Some st) lanes sts
             /\ map (fun st => stores_of (trace st)) sts
                = map (lane_stores Transform dest p) lanes).
  { clear HI. induction Hok as [|ln lanes Hln _ IH].
    - exists []. split; [constructor|reflexivity].
    - destruct IH as (sts & HF & Hmap).
      destruct (lane_call_spec Transform dest p m ln Hln)
        as (st & Hcall & Hst & _ & _).
      exists (st :: sts). split; [constructor; assumption|].
      cbn. rewrite Hst, Hmap. reflexivity. }
  destruct H as (sts & HF & Hmap).
  exists (zip_with lane_after lanes sts), sts, sched.
  rewrite Hmap. repeat split; assumption.
Qed.

(** A tile always has a call: the lanes may run one after the other. *)
Lemma tile_exec_exists (Transform : T -> T) (dest p : Z) (lanes : list Lane)
    (m : gmap Z T) :
  Forall (fun ln => lane_ok ln = true) lanes ->
  exists lanes',
    tile_exec Transform dest p lanes m lanes'
      (run_stores (tile_stores Transform dest p lanes) m).
Proof.
  intros Hok. apply tile_exec_intro; [exact Hok|].
  apply Interleave_in_order.
Qed.

(** After a call of the tile a cell holds the value of some store of the tile
    to it, or its former contents when the tile has no store to it. *)
Lemma tile_exec_lookup (Transform : T -> T) (dest p : Z) (lanes lanes' : list Lane)
    (m m' : gmap Z T) (ptr : Z) :
  Forall (fun ln => lane_ok ln = true) lanes ->
  tile_exec Transform dest p lanes m lanes' m' ->
  (exists x, (ptr, x) ∈ tile_stores Transform dest p lanes /\ m' !! ptr = Some x)
  \/ ((ptr ∉ (tile_stores Transform dest p lanes).*1) /\ m' !! ptr = m !! ptr).
Proof.
  intros Hok Hex.
  destruct (tile_exec_elim _ _ _ _ _ _ _ Hok Hex) as [(sched & HI & ->) _].
  apply Interleave_Permutation in HI. fold (tile_stores Transform dest p lanes) in HI.
  rewrite run_stores_lookup.
  destruct (last_store ptr sched) as [x|] eqn:Hl.
  - left. exists x. split; [|reflexivity].
    apply last_store_elem_of in Hl. rewrite <- HI. exact Hl.
  - right. split; [|reflexivity].
    intros Hin. apply list_elem_of_fmap in Hin as ([q x] & -> & Hin).
    rewrite <- HI in Hin. cbn in Hl.
    unfold last_store in Hl.
    destruct (last (filter (λ ps : Z * T, ps.1 = q) sched)) eqn:Hlast;
      [discriminate|].
    apply last_None in Hlast.
    apply (filter_nil_not_elem_of (λ ps : Z * T, ps.1 = q) sched (q, x) Hlast);
      [reflexivity|exact Hin].
Qed.

(** Without two stores to one cell, the outcome of a call of the tile does
    not depend on the interleaving. *)
Lemma tile_exec_NoDup_lookup (Transform : T -> T) (dest p : Z)
    (lanes lanes' : list Lane) (m m' : gmap Z T) (ptr : Z) (x : T) :
  Forall (fun ln => lane_ok ln = true) lanes ->
  NoDup (tile_stores Transform dest p lanes).*1 ->
  tile_exec Transform dest p lanes m lanes' m' ->
  (ptr, x) ∈ tile_stores Transform dest p lanes ->
  m' !! ptr = Some x.
Proof.
  intros Hok Hnd Hex Hin.
  destruct (tile_exec_lookup Transform dest p lanes lanes' m m' ptr Hok Hex)
    as [(y & Hy & Hm)|[Hno _]].
  - rewrite Hm. f_equal. eapply NoDup_fst_functional; eauto.
  - exfalso. apply Hno. apply list_elem_of_fmap. exists (ptr, x). split; [reflexivity|exact Hin].
Qed.

(** ** The guard of a call *)

Lemma in_tile_elems (l v : nat) : in_tile l v <-> (l, v) ∈ tile_elems.
Proof.
  assert (HL : 0 <= LOADS_PER_TILE) by (apply Z.shiftl_nonneg; lia).
  assert (HV : 0 <= LOAD_VEC_SIZE) by (apply Z.shiftl_nonneg; lia).
  rewrite elem_of_tile_elems. unfold in_tile. lia.
Qed.

Lemma compare_exact (p : Z) :
  geometry_ok = true -> 0 < ty_bits SizeT -> in_range SizeT p = true ->
  lt_conv SizeT int_t p TILE_SIZE = (p <? TILE_SIZE).
Proof.
  intros Hg Hb Hp. destruct (geometry_facts Hg) as (_ & _ & _ & _ & _ & _ & HT).
  apply lt_conv_SizeT_int; [exact Hb|lia|exact Hp].
Qed.

Lemma dispatch_exact (flags : option (list (list Flag))) (p : Z) :
  geometry_ok = true -> 0 < ty_bits SizeT -> in_range SizeT p = true ->
  dispatch flags p =
  if p <? TILE_SIZE then boundary_variant flags p else plain_variant flags.
Proof.
  intros Hg Hb Hp. unfold dispatch. rewrite (compare_exact p Hg Hb Hp).
  destruct flags; destruct (p <? TILE_SIZE); reflexivity.
Qed.

Lemma passes_guard_holds (tid : Z) (flags : option (list (list Flag)))
    (p : Z) (l v : nat) :
  geometry_ok = true -> 0 < ty_bits SizeT -> in_range SizeT p = true ->
  0 <= tid < ACTIVE_THREADS -> in_tile l v ->
  passes tid (dispatch flags p) l v = guard_holds tid flags p l v.
Proof.
  intros Hg Hb Hp Htid [Hl Hv].
  rewrite (dispatch_exact flags p Hg Hb Hp). unfold guard_holds, flag_holds.
  destruct (geometry_facts Hg) as (_ & _ & _ & _ & _ & _ & HT).
  destruct (tile_rank_exact tid l v Hg Htid Hl Hv) as [_ Hr].
  assert (Hlt : lt_conv int_t SizeT (tile_rank tid l v) p
                = (tile_rank tid l v <? p))
    by (apply lt_conv_int_SizeT; [exact Hb|lia|exact Hp]).
  destruct flags as [fl|]; destruct (p <? TILE_SIZE);
    cbn [boundary_variant plain_variant passes]; rewrite ?Hlt;
    rewrite ?andb_true_r; reflexivity.
Qed.

(** The default argument of [Scatter] is the tile size when [SizeT] holds
    it, and selects the overload without the boundary check. *)
Lemma default_partial_tile_size_full (flags : option (list (list Flag))) :
  geometry_ok = true -> 0 < ty_bits SizeT -> in_range SizeT TILE_SIZE = true ->
  default_partial_tile_size = TILE_SIZE
  /\ dispatch flags default_partial_tile_size = plain_variant flags.
Proof.
  intros Hg Hb Hr. unfold default_partial_tile_size.
  rewrite (wrap_in_range SizeT TILE_SIZE Hb Hr). split; [reflexivity|].
  rewrite (dispatch_exact flags TILE_SIZE Hg Hb Hr), Z.ltb_irrefl. reflexivity.
Qed.

(** ** The events of a call *)

Lemma elem_of_elem_events_store (Transform : T -> T) (tid dest : Z)
    (offs : list (list Z)) (g : GuardArgs) (d : list (list T))
    (e : nat * nat) (l v : nat) (ptr : Z) (val : T) :
  EvStore l v ptr val ∈ elem_events Transform tid dest offs g d e <->
  e = (l, v) /\ passes tid g l v = true
  /\ exists x off, get2 d l v = Some x /\ get2 offs l v = Some off
                   /\ ptr = dest + off /\ val = Transform x.
Proof.
  unfold elem_events. destruct e as [l0 v0]. cbn [fst snd]. split.
  - intros H.
    destruct (passes tid g l0 v0) eqn:Hp; [|inversion H].
    destruct (get2 d l0 v0) as [x|] eqn:Hx; [|inversion H].
    destruct (get2 offs l0 v0) as [off|] eqn:Hoff; [|inversion H].
    apply elem_of_cons in H as [H|H]; [discriminate|].
    apply list_elem_of_singleton in H. inversion H; subst.
    split; [reflexivity|]. split; [exact Hp|]. exists x, off. auto.
  - intros (He & Hp & x & off & Hx & Hoff & -> & ->).
    inversion He; subst l0 v0. rewrite Hp, Hx, Hoff.
    right. left.
Qed.

Lemma elem_of_flat_map {A B : Type} (f : A -> list B) (l : list A) (y : B) :
  y ∈ flat_map f l <-> exists x, x ∈ l /\ y ∈ f x.
Proof.
  rewrite list_elem_of_In, in_flat_map. split.
  - intros (x & Hx & Hy). exists x. rewrite !list_elem_of_In. auto.
  - intros (x & Hx & Hy). exists x. rewrite <- !list_elem_of_In. auto.
Qed.

(** A store is among the events of a call exactly for the elements of the
    tile that pass the predicate of the selected overload. *)
Lemma elem_of_call_events_store (Transform : T -> T) (tid dest : Z)
    (flags : option (list (list Flag))) (offs : list (list Z)) (p : Z)
    (d : list (list T)) (l v : nat) (ptr : Z) (val : T) :
  EvStore l v ptr val ∈ call_events Transform tid dest flags offs p d <->
  in_tile l v /\ passes tid (dispatch flags p) l v = true
  /\ exists x off, get2 d l v = Some x /\ get2 offs l v = Some off
                   /\ ptr = dest + off /\ val = Transform x.
Proof.
  unfold call_events. rewrite elem_of_flat_map. split.
  - intros (e & He & Hin). apply elem_of_elem_events_store in Hin as (-> & H).
    split; [apply in_tile_elems; exact He|exact H].
  - intros (Ht & H). exists (l, v). split; [apply in_tile_elems; exact Ht|].
    apply elem_of_elem_events_store. split; [reflexivity|exact H].
Qed.

Lemma elem_of_stores_of (tr : list Event) (ptr : Z) (val : T) :
  (ptr, val) ∈ stores_of tr <-> exists l v, EvStore l v ptr val ∈ tr.
Proof.
  unfold stores_of. rewrite list_elem_of_omap. split.
  - intros (e & He & Hs). destruct e as [b|l v|l v q y]; try discriminate.
    cbn in Hs. inversion Hs; subst. eauto.
  - intros (l & v & H). exists (EvStore l v ptr val). split; [exact H|reflexivity].
Qed.

Lemma compare_not_in_call_events (Transform : T -> T) (tid dest : Z)
    (flags : option (list (list Flag))) (offs : list (list Z)) (p : Z)
    (d : list (list T)) :
  List.filter is_compare (call_events Transform tid dest flags offs p d) = [].
Proof.
  unfold call_events. induction tile_elems as [|e es IH]; [reflexivity|].
  cbn [flat_map]. rewrite List.filter_app, IH, app_nil_r.
  unfold elem_events.
  destruct (passes tid (dispatch flags p) e.1 e.2); [|reflexivity].
  destruct (get2 d e.1 e.2); [|reflexivity].
  destruct (get2 offs e.1 e.2); reflexivity.
Qed.

Lemma flat_map_split {A B : Type} (f : A -> list B) (l : list A) (x : A) :
  x ∈ l -> exists pre post, flat_map f l = pre ++ f x ++ post.
Proof.
  intros Hx. apply list_elem_of_split in Hx as (l1 & l2 & ->).
  exists (flat_map f l1), (flat_map f l2).
  rewrite flat_map_app. reflexivity.
Qed.

Lemma count_transform_elem (Transform : T -> T) (tid dest : Z)
    (offs : list (list Z)) (g : GuardArgs) (d : list (list T))
    (e : nat * nat) (l v : nat) :
  e <> (l, v) ->
  List.filter (is_transform_at l v) (elem_events Transform tid dest offs g d e) = [].
Proof.
  intros Hne. unfold elem_events.
  destruct (passes tid g e.1 e.2); [|reflexivity].
  destruct (get2 d e.1 e.2); [|reflexivity].
  destruct (get2 offs e.1 e.2); [|reflexivity].
  cbn. destruct (Nat.eqb_spec e.1 l) as [E1|E1]; [|reflexivity].
  destruct (Nat.eqb_spec e.2 v) as [E2|E2]; [|reflexivity].
  exfalso. apply Hne. destruct e; cbn in *; congruence.
Qed.

Lemma count_transform_events (Transform : T -> T) (tid dest : Z)
    (offs : list (list Z)) (g : GuardArgs) (d : list (list T))
    (es : list (nat * nat)) (l v : nat) :
  NoDup es ->
  List.filter (is_transform_at l v)
    (flat_map (elem_events Transform tid dest offs g d) es) =
  if bool_decide ((l, v) ∈ es)
  then List.filter (is_transform_at l v)
         (elem_events Transform tid dest offs g d (l, v))
  else [].
Proof.
  induction es as [|e es IH]; intros Hnd; [reflexivity|].
  apply NoDup_cons in Hnd as [Hnotin Hnd].
  cbn [flat_map]. rewrite List.filter_app, (IH Hnd).
  destruct (decide (e = (l, v))) as [->|Hne].
  - rewrite (bool_decide_eq_false_2 _ Hnotin), app_nil_r.
    rewrite bool_decide_eq_true_2 by left. reflexivity.
  - rewrite (count_transform_elem _ _ _ _ _ _ _ _ _ Hne). cbn [app].
    assert (Hiff : bool_decide ((l, v) ∈ e :: es) = bool_decide ((l, v) ∈ es)).
    { apply bool_decide_ext. rewrite elem_of_cons. intuition congruence. }
    rewrite Hiff. reflexivity.
Qed.

(** ** One call of one lane, for each shape *)

Lemma Scatter_shape_call (sh : Shape) (tid dest : Z) (offs : list (list Z))
    (p : Z) (st : LaneState) :
  Scatter_shape sh tid dest offs p st =
  Scatter_call (shape_transform sh) tid dest (shape_flags sh) offs p st.
Proof. destruct sh; reflexivity. Qed.

Lemma Scatter_shape_run (sh : Shape) (tid dest : Z) (offs : list (list Z))
    (p : Z) (st : LaneState) :
  arrays_ok (shape_flags sh) offs (data st) = true ->
  exists st',
    Scatter_shape sh tid dest offs p st = Some st'
    /\ trace st' =
       trace st ++ EvCompare (lt_conv SizeT int_t p TILE_SIZE)
                   :: call_events (shape_transform sh) tid dest (shape_flags sh)
                        offs p (data st)
    /\ mem st' =
       run_stores
         (stores_of (call_events (shape_transform sh) tid dest (shape_flags sh)
                       offs p (data st)))
         (mem st)
    /\ (forall l v,
          get2 (data st') l v =
          if bool_decide ((l, v) ∈ tile_elems)
             && passes tid (dispatch (shape_flags sh) p) l v
          then shape_transform sh <$> get2 (data st) l v
          else get2 (data st) l v).
Proof.
  intros Hok. rewrite Scatter_shape_call. apply Scatter_call_spec. exact Hok.
Qed.

Lemma arrays_ok_get2 (flags : option (list (list Flag)))
    (offs : list (list Z)) (d : list (list T)) (l v : nat) :
  arrays_ok flags offs d = true -> in_tile l v ->
  (exists x, get2 d l v = Some x) /\ (exists off, get2 offs l v = Some off)
  /\ match flags with
     | None => True
     | Some fl => exists f, get2 fl l v = Some f
     end.
Proof.
  intros Hok Ht. apply in_tile_elems, elem_of_tile_elems in Ht as [Hl Hv].
  unfold arrays_ok in Hok.
  apply andb_prop in Hok as [Hok Hfl]. apply andb_prop in Hok as [Hd Hoffs].
  split; [eapply has_shape_get2; eauto|].
  split; [eapply has_shape_get2; eauto|].
  destruct flags as [fl|]; [|exact I].
  eapply has_shape_get2; eauto.
Qed.

Lemma omap_ext_elem {A B : Type} (f g : A -> option B) (l : list A) :
  (forall x, x ∈ l -> f x = g x) -> omap f l = omap g l.
Proof.
  induction l as [|a l IH]; intros H; [reflexivity|].
  cbn. rewrite (H a) by left. rewrite IH; [reflexivity|].
  intros x Hx. apply H. right. exact Hx.
Qed.

(** The stores of a call are those of the guarded elements, in order. *)
Lemma stores_of_call_events (Transform : T -> T) (tid dest : Z)
    (flags : option (list (list Flag))) (offs : list (list Z)) (p : Z)
    (d : list (list T)) :
  geometry_ok = true -> 0 < ty_bits SizeT -> in_range SizeT p = true ->
  0 <= tid < ACTIVE_THREADS ->
  stores_of (call_events Transform tid dest flags offs p d) =
  guarded_stores Transform tid dest flags offs p d.
Proof.
  intros Hg Hb Hp Htid. unfold guarded_stores, call_events.
  transitivity
    (omap (fun e : nat * nat =>
             if passes tid (dispatch flags p) e.1 e.2
             then x ← get2 d e.1 e.2;
                  off ← get2 offs e.1 e.2;
                  Some (dest + off, Transform x)
             else None)
          tile_elems).
  - induction tile_elems as [|e es IH]; [reflexivity|].
    cbn [flat_map omap list_omap]. rewrite stores_of_app, IH.
    unfold elem_events at 1.
    destruct (passes tid (dispatch flags p) e.1 e.2); [|reflexivity].
    destruct (get2 d e.1 e.2) as [x|]; [|reflexivity].
    destruct (get2 offs e.1 e.2) as [off|]; reflexivity.
  - apply omap_ext_elem. intros [l v] He. cbn [fst snd].
    apply in_tile_elems in He.
    rewrite (passes_guard_holds tid flags p l v Hg Hb Hp Htid He). reflexivity.
Qed.



Lemma written_passes (Transform : T -> T) (tid dest : Z)
    (flags : option (list (list Flag))) (offs : list (list Z)) (p : Z)
    (d : list (list T)) (b : bool) (l v : nat) :
  arrays_ok flags offs d = true -> in_tile l v ->
  written (EvCompare b :: call_events Transform tid dest flags offs p d) l v <->
  passes tid (dispatch flags p) l v = true.
Proof.
  intros Hok Ht. unfold written. split.
  - intros (ptr & val & Hin). apply elem_of_cons in Hin as [Hin|Hin]; [discriminate|].
    apply elem_of_call_events_store in Hin. tauto.
  - intros Hpass.
    destruct (arrays_ok_get2 _ _ _ l v Hok Ht) as ([x Hx] & [off Hoff] & _).
    exists (dest + off), (Transform x). right.
    apply elem_of_call_events_store. split; [exact Ht|]. split; [exact Hpass|].
    exists x, off. auto.
Qed.


(** C4.  Each of the four shapes compares the partial tile size with the tile
    size once: when it is below, the overload with the boundary check runs
    (with the flags, when the shape has them); otherwise the overload without
    the boundary check runs. *)
Theorem scatter_dispatch_once (sh : Shape) (tid dest : Z)
    (offs : list (list Z)) (p : Z) (st : LaneState) :
  geometry_ok = true -> 0 < ty_bits SizeT -> in_range SizeT p = true ->
  (p < TILE_SIZE ->
   Scatter_shape sh tid dest offs p st =
   Iterate_Invoke Iterate_depth (shape_transform sh) tid dest offs
     (boundary_variant (shape_flags sh) p) 0 0 (log (EvCompare true) st))
  /\ (TILE_SIZE <= p ->
      Scatter_shape sh tid dest offs p st =
      Iterate_Invoke Iterate_depth (shape_transform sh) tid dest offs
        (plain_variant (shape_flags sh)) 0 0 (log (EvCompare false) st))
  /\ (arrays_ok (shape_flags sh) offs (data st) = true ->
      exists st' evs,
        Scatter_shape sh tid dest offs p st = Some st'
        /\ trace st' = trace st ++ evs
        /\ List.filter is_compare evs = [EvCompare (p <? TILE_SIZE)]).
Proof.
  intros Hg Hb Hp.
  pose proof (compare_exact p Hg Hb Hp) as Hc.
  split; [|split].
  - intros Hlt. apply Z.ltb_lt in Hlt. rewrite Hlt in Hc.
    destruct sh; cbn [Scatter_shape shape_transform shape_flags boundary_variant];
      unfold Scatter_nop, Scatter_flags_nop, Scatter, Scatter_flags;
      rewrite Hc; reflexivity.
  - intros Hge. apply Z.ltb_ge in Hge. rewrite Hge in Hc.
    destruct sh; cbn [Scatter_shape shape_transform shape_flags plain_variant];
      unfold Scatter_nop, Scatter_flags_nop, Scatter, Scatter_flags;
      rewrite Hc; reflexivity.
  - intros Hok.
    destruct (Scatter_shape_run sh tid dest offs p st Hok)
      as (st' & Hrun & Htr & _ & _).
    eexists st', _. split; [exact Hrun|]. split; [exact Htr|].
    cbn [List.filter is_compare]. rewrite compare_not_in_call_events, Hc.
    reflexivity.
Qed.

(** C5.  The tile rank of an element is
    [lane * LOAD_VEC_SIZE + LOAD * ACTIVE_THREADS * LOAD_VEC_SIZE + VEC]; the
    overloads with a boundary check compare it with the partial tile size to
    decide whether the element is transformed and stored, and nothing else
    depends on it: the transform and the store do not take it, and the
    overloads without a boundary check do not depend on the lane. *)
Theorem tile_rank_only_guards (Transform : T -> T) (tid dest : Z)
    (offs : list (list Z)) (l v : nat) (st : LaneState) :
  geometry_ok = true -> 0 < ty_bits SizeT ->
  0 <= tid < ACTIVE_THREADS -> in_tile l v ->
  let rank :=
    tid * LOAD_VEC_SIZE + Z.of_nat l * ACTIVE_THREADS * LOAD_VEC_SIZE + Z.of_nat v in
  tile_rank tid l v = rank
  /\ (forall p, in_range SizeT p = true ->
        Invoke_body Transform tid dest offs (GuardedByPartial p) l v st =
        if rank <? p then store_elem Transform dest offs l v st else Some st)
  /\ (forall fl f p, in_range SizeT p = true -> get2 fl l v = Some f ->
        Invoke_body Transform tid dest offs (GuardedByFlagsPartial fl p) l v st =
        if flag_true f && (rank <? p)
        then store_elem Transform dest offs l v st else Some st)
  /\ (forall tid',
        Invoke_body Transform tid' dest offs Unguarded l v st =
        store_elem Transform dest offs l v st)
  /\ (forall tid' fl f, get2 fl l v = Some f ->
        Invoke_body Transform tid' dest offs (GuardedByFlags fl) l v st =
        if flag_true f then store_elem Transform dest offs l v st else Some st).
Proof.
  intros Hg Hb Htid [Hl Hv] rank.
  destruct (geometry_facts Hg) as (_ & _ & _ & _ & _ & _ & HT).
  destruct (tile_rank_exact tid l v Hg Htid Hl Hv) as [Hr Hrange].
  fold rank in Hr.
  assert (Hlt : forall p, in_range SizeT p = true ->
                  lt_conv int_t SizeT (tile_rank tid l v) p = (rank <? p)).
  { intros p Hp. rewrite <- Hr. apply lt_conv_int_SizeT; [exact Hb|lia|exact Hp]. }
  split; [exact Hr|]. split; [|split; [|split]].
  - intros p Hp. cbn [Invoke_body]. cbv zeta. rewrite (Hlt p Hp). reflexivity.
  - intros fl f p Hp Hf. cbn [Invoke_body]. cbv zeta. rewrite Hf.
    cbn [mbind option_bind]. rewrite (Hlt p Hp). reflexivity.
  - intros tid'. reflexivity.
  - intros tid' fl f Hf. cbn [Invoke_body]. rewrite Hf. reflexivity.
Qed.



Lemma last_store_unique (s : list (Z * T)) (p : Z) (x : T) :
  (p, x) ∈ s -> (forall y, (p, y) ∈ s -> y = x) -> last_store p s = Some x.
Proof.
  intros Hin Huniq.
  destruct (last_store p s) as [y|] eqn:Hl.
  - f_equal. apply Huniq. apply last_store_elem_of. exact Hl.
  - exfalso. unfold last_store in Hl.
    destruct (last (filter (λ ps : Z * T, ps.1 = p) s)) eqn:Hlast; [discriminate|].
    apply last_None in Hlast.
    apply (filter_nil_not_elem_of (λ ps : Z * T, ps.1 = p) s (p, x) Hlast);
      [reflexivity|exact Hin].
Qed.

(** C6.  The transform is applied once, in place, to each element of the tile
    that passes the guard, just before the store of that element, and to no
    other element; the store writes the transformed value, which the cell
    holds after the call unless another written element targets it too, and
    the array [data] holds the transformed value after the call. *)
Theorem transform_once_before_store (sh : Shape) (tid dest : Z)
    (offs : list (list Z)) (p : Z) (st : LaneState) :
  geometry_ok = true -> 0 < ty_bits SizeT -> in_range SizeT p = true ->
  0 <= tid < ACTIVE_THREADS ->
  arrays_ok (shape_flags sh) offs (data st) = true ->
  exists st' evs,
    Scatter_shape sh tid dest offs p st = Some st'
    /\ trace st' = trace st ++ evs
    /\ forall l v, in_tile l v ->
         exists x off,
           get2 (data st) l v = Some x /\ get2 offs l v = Some off
           /\ if guard_holds tid (shape_flags sh) p l v
              then
                List.filter (is_transform_at l v) evs = [EvTransform l v]
                /\ (exists pre post,
                      evs = pre ++ [EvTransform l v;
                                    EvStore l v (dest + off) (shape_transform sh x)]
                                ++ post)
                /\ get2 (data st') l v = Some (shape_transform sh x)
                /\ ((forall l' v', in_tile l' v' ->
                       guard_holds tid (shape_flags sh) p l' v' = true ->
                       get2 offs l' v' = Some off -> (l', v') = (l, v)) ->
                    mem st' !! (dest + off) = Some (shape_transform sh x))
              else
                List.filter (is_transform_at l v) evs = []
                /\ get2 (data st') l v = Some x.
Proof.
  intros Hg Hb Hp Htid Hok.
  destruct (Scatter_shape_run sh tid dest offs p st Hok)
    as (st' & Hrun & Htr & Hmem & Hdata).
  eexists st', _. split; [exact Hrun|]. split; [exact Htr|].
  intros l v Ht.
  destruct (arrays_ok_get2 _ _ _ l v Hok Ht) as ([x Hx] & [off Hoff] & _).
  exists x, off. split; [exact Hx|]. split; [exact Hoff|].
  pose proof (proj1 (in_tile_elems l v) Ht) as Hel.
  pose proof (passes_guard_holds tid (shape_flags sh) p l v Hg Hb Hp Htid Ht)
    as Hpass.
  assert (Hfilter :
    List.filter (is_transform_at l v)
      (EvCompare (lt_conv SizeT int_t p TILE_SIZE)
       :: call_events (shape_transform sh) tid dest (shape_flags sh) offs p
            (data st)) =
    List.filter (is_transform_at l v)
      (elem_events (shape_transform sh) tid dest offs
         (dispatch (shape_flags sh) p) (data st) (l, v))).
  { cbn [List.filter is_transform_at]. unfold call_events.
    rewrite (count_transform_events _ _ _ _ _ _ _ l v NoDup_tile_elems).
    rewrite bool_decide_eq_true_2 by exact Hel. reflexivity. }
  rewrite Hfilter, Hdata. rewrite bool_decide_eq_true_2 by exact Hel.
  cbn [andb]. unfold elem_events. cbn [fst snd]. rewrite Hpass, Hx, Hoff.
  destruct (guard_holds tid (shape_flags sh) p l v) eqn:Hgu.
  - split; [|split; [|split]].
    + cbn. rewrite !Nat.eqb_refl. reflexivity.
    + destruct (flat_map_split
                  (elem_events (shape_transform sh) tid dest offs
                     (dispatch (shape_flags sh) p) (data st))
                  tile_elems (l, v) Hel) as (pre & post & Hsplit).
      exists (EvCompare (lt_conv SizeT int_t p TILE_SIZE) :: pre), post.
      unfold call_events. rewrite Hsplit. unfold elem_events.
      cbn [fst snd]. rewrite Hpass, Hx, Hoff. reflexivity.
    + reflexivity.
    + intros Huniq. rewrite Hmem, run_stores_lookup.
      rewrite (last_store_unique _ (dest + off) (shape_transform sh x));
        [reflexivity| |].
      * apply elem_of_stores_of. exists l, v.
        apply elem_of_call_events_store. split; [exact Ht|].
        rewrite Hpass. split; [reflexivity|]. exists x, off. auto.
      * intros y Hy. apply elem_of_stores_of in Hy as (l' & v' & Hy).
        apply elem_of_call_events_store in Hy
          as (Ht' & Hpass' & x' & off' & Hx' & Hoff' & Hq & ->).
        rewrite (passes_guard_holds tid (shape_flags sh) p l' v' Hg Hb Hp Htid Ht')
          in Hpass'.
        assert (off' = off) by lia. subst off'.
        pose proof (Huniq l' v' Ht' Hpass' Hoff') as Heq.
        inversion Heq; subst l' v'. rewrite Hx in Hx'. inversion Hx'. reflexivity.
  - split; reflexivity.
Qed.

(** ** The stores of a tile *)

Lemma elem_of_lane_stores (Transform : T -> T) (dest p : Z) (ln : Lane)
    (ptr : Z) (val : T) :
  (ptr, val) ∈ lane_stores Transform dest p ln <->
  exists l v,
    in_tile l v
    /\ passes (lane_tid ln) (dispatch (lane_flags ln) p) l v = true
    /\ exists x off, get2 (lane_data ln) l v = Some x
                     /\ get2 (lane_offsets ln) l v = Some off
                     /\ ptr = dest + off /\ val = Transform x.
Proof.
  unfold lane_stores. rewrite elem_of_stores_of.
  split; intros (l & v & H); exists l, v;
    apply elem_of_call_events_store in H || apply elem_of_call_events_store;
    exact H.
Qed.

Lemma elem_of_concat_map {A B : Type} (f : A -> list B) (l : list A) (y : B) :
  y ∈ concat (map f l) <-> exists x, x ∈ l /\ y ∈ f x.
Proof.
  induction l as [|a l IH]; cbn.
  - split; [intros H; inversion H|intros (x & Hx & _); inversion Hx].
  - rewrite elem_of_app, IH. split.
    + intros [H|(x & Hx & Hy)]; [exists a; split; [left|exact H]|].
      exists x. split; [right; exact Hx|exact Hy].
    + intros (x & Hx & Hy). apply elem_of_cons in Hx as [->|Hx];
        [left; exact Hy|right; eauto].
Qed.

Lemma elem_of_tile_stores (Transform : T -> T) (dest p : Z) (lanes : list Lane)
    (ptr : Z) (val : T) :
  (ptr, val) ∈ tile_stores Transform dest p lanes <->
  exists ln, ln ∈ lanes /\ (ptr, val) ∈ lane_stores Transform dest p ln.
Proof. unfold tile_stores. apply elem_of_concat_map. Qed.

Lemma elem_stores_sublist (Transform : T -> T) (tid dest : Z)
    (offs : list (list Z)) (g : GuardArgs) (d : list (list T))
    (es : list (nat * nat)) :
  (stores_of (flat_map (elem_events Transform tid dest offs g d) es)).*1
  `sublist_of` Z.add dest <$> omap (fun e => get2 offs e.1 e.2) es.
Proof.
  induction es as [|e es IH]; [constructor|].
  cbn [flat_map omap list_omap]. rewrite stores_of_app, fmap_app.
  unfold elem_events at 1.
  destruct (get2 offs e.1 e.2) as [off|].
  - rewrite fmap_cons.
    destruct (passes tid g e.1 e.2); [|apply sublist_cons; exact IH].
    destruct (get2 d e.1 e.2); [|apply sublist_cons; exact IH].
    cbn. apply sublist_skip. exact IH.
  - destruct (passes tid g e.1 e.2); [|exact IH].
    destruct (get2 d e.1 e.2); exact IH.
Qed.

Lemma tile_stores_sublist (Transform : T -> T) (dest p : Z) (lanes : list Lane) :
  (tile_stores Transform dest p lanes).*1
  `sublist_of` Z.add dest <$> tile_offsets lanes.
Proof.
  unfold tile_stores, tile_offsets. induction lanes as [|ln lanes IH]; [constructor|].
  cbn [map concat]. rewrite !fmap_app. apply sublist_app; [|exact IH].
  apply elem_stores_sublist.
Qed.

(** In a tile without offset collisions no two stores target one cell. *)
Lemma collision_free_NoDup (Transform : T -> T) (dest p : Z) (lanes : list Lane) :
  collision_free lanes -> NoDup (tile_stores Transform dest p lanes).*1.
Proof.
  intros Hcf. eapply sublist_NoDup; [|apply tile_stores_sublist].
  apply NoDup_fmap_2; [|exact Hcf].
  intros a b Hab. lia.
Qed.

(** Without flags, the shape without transform is the call with the identity
    transform, for a lane and for the tile. *)
Lemma lane_call_nop_eq (dest p : Z) (m : gmap Z T) (ln : Lane) :
  lane_flags ln = None ->
  lane_call_nop dest p m ln = lane_call NopTransform dest p m ln.
Proof.
  intros Hnf. unfold lane_call_nop, lane_call, Scatter_call, Scatter_nop.
  rewrite Hnf. reflexivity.
Qed.

Lemma tile_exec_nop_exec (dest p : Z) (lanes lanes' : list Lane)
    (m m' : gmap Z T) :
  Forall (fun ln => lane_flags ln = None) lanes ->
  tile_exec_nop dest p lanes m lanes' m' <->
  tile_exec NopTransform dest p lanes m lanes' m'.
Proof.
  intros Hnf.
  assert (HF : forall sts,
             Forall2 (fun ln st => lane_call_nop dest p m ln = Some st) lanes sts
             <-> Forall2 (fun ln st => lane_call NopTransform dest p m ln = Some st)
                   lanes sts).
  { induction Hnf as [|ln lanes Hln _ IH]; intros sts; split; intros H;
      inversion H as [|? st ? sts' Hc Hrest]; subst; constructor;
      try (apply IH; exact Hrest).
    - rewrite <- (lane_call_nop_eq dest p m ln Hln). exact Hc.
    - rewrite (lane_call_nop_eq dest p m ln Hln). exact Hc. }
  unfold tile_exec_nop, tile_exec.
  split; intros (sts & sched & Hc & Hrest); exists sts, sched;
    (split; [apply HF; exact Hc|exact Hrest]).
Qed.

Lemma tile_exec_nop_exists (dest p : Z) (lanes : list Lane) (m : gmap Z T) :
  Forall (fun ln => lane_ok ln = true) lanes ->
  Forall (fun ln => lane_flags ln = None) lanes ->
  exists lanes',
    tile_exec_nop dest p lanes m lanes'
      (run_stores (tile_stores NopTransform dest p lanes) m).
Proof.
  intros Hok Hnf.
  destruct (tile_exec_exists NopTransform dest p lanes m Hok) as [lanes' Hex].
  exists lanes'. apply (tile_exec_nop_exec dest p lanes lanes' m _ Hnf).
  exact Hex.
Qed.

(** C2.  After the lanes of a tile have called [Scatter] without flags and
    without transform on a full tile (the partial tile size is the tile
    size), without offset collisions, the cell at
    [dest + scatter_offsets[l][v]] holds the value [data[l][v]] the lane
    supplied, for every element of every lane of the tile. *)
Theorem full_tile_scatter_identity (dest p : Z) (lanes lanes' : list Lane)
    (m m' : gmap Z T) :
  geometry_ok = true -> 0 < ty_bits SizeT -> in_range SizeT p = true ->
  p = TILE_SIZE ->
  Forall (fun ln => lane_ok ln = true) lanes ->
  Forall (fun ln => lane_flags ln = None) lanes ->
  collision_free lanes ->
  tile_exec_nop dest p lanes m lanes' m' ->
  forall ln l v, ln ∈ lanes -> in_tile l v ->
    exists x off,
      get2 (lane_data ln) l v = Some x
      /\ get2 (lane_offsets ln) l v = Some off
      /\ m' !! (dest + off) = Some x.
Proof.
  intros Hg Hb Hp Hfull Hok Hnf Hcf Hex ln l v Hln Ht.
  apply (tile_exec_nop_exec dest p lanes lanes' m m' Hnf) in Hex.
  pose proof (proj1 (Forall_forall _ _) Hok ln Hln) as Hlok.
  pose proof (proj1 (Forall_forall _ _) Hnf ln Hln) as Hlnf.
  cbv beta in Hlok, Hlnf. unfold lane_ok in Hlok.
  destruct (arrays_ok_get2 _ _ _ l v Hlok Ht) as ([x Hx] & [off Hoff] & _).
  exists x, off. split; [exact Hx|]. split; [exact Hoff|].
  apply (tile_exec_NoDup_lookup NopTransform dest p lanes lanes' m m'
           (dest + off) x Hok (collision_free_NoDup _ _ _ _ Hcf) Hex).
  apply elem_of_tile_stores. exists ln. split; [exact Hln|].
  apply elem_of_lane_stores. exists l, v. split; [exact Ht|]. split.
  - rewrite Hlnf, (dispatch_exact None p Hg Hb Hp), Hfull, Z.ltb_irrefl.
    reflexivity.
  - exists x, off. auto.
Qed.

(** ** A second call of a tile *)

Lemma flat_map_ext_elem {A B : Type} (f g : A -> list B) (l : list A) :
  (forall x, x ∈ l -> f x = g x) -> flat_map f l = flat_map g l.
Proof.
  induction l as [|a l IH]; intros H; [reflexivity|].
  cbn. rewrite (H a) by left. rewrite IH; [reflexivity|].
  intros x Hx. apply H. right. exact Hx.
Qed.

(** With an idempotent transform, a lane stores the same values when it
    calls again on the arrays its first call left. *)
Lemma lane_post_stores (Transform : T -> T) (dest p : Z) (ln ln' : Lane) :
  (forall x, Transform (Transform x) = Transform x) ->
  lane_post Transform p ln ln' ->
  lane_stores Transform dest p ln' = lane_stores Transform dest p ln.
Proof.
  intros Hidem (Htid & Hfl & Hoffs & _ & Hdata).
  unfold lane_stores, call_events. rewrite Htid, Hfl, Hoffs. f_equal.
  apply flat_map_ext_elem. intros [l v] He.
  unfold elem_events. cbn [fst snd]. rewrite Hdata.
  rewrite bool_decide_eq_true_2 by exact He. cbn [andb].
  destruct (passes (lane_tid ln) (dispatch (lane_flags ln) p) l v); [|reflexivity].
  destruct (get2 (lane_data ln) l v) as [x|]; [|reflexivity].
  cbn. destruct (get2 (lane_offsets ln) l v); [|reflexivity].
  rewrite Hidem. reflexivity.
Qed.

Lemma tile_post_stores (Transform : T -> T) (dest p : Z) (lanes lanes' : list Lane) :
  (forall x, Transform (Transform x) = Transform x) ->
  Forall2 (lane_post Transform p) lanes lanes' ->
  tile_stores Transform dest p lanes' = tile_stores Transform dest p lanes
  /\ Forall (fun ln => lane_ok ln = true) lanes'.
Proof.
  intros Hidem HF. unfold tile_stores.
  induction HF as [|ln ln' lanes lanes' Hpost _ [IH1 IH2]].
  - split; [reflexivity|constructor].
  - split.
    + cbn. rewrite (lane_post_stores Transform dest p ln ln' Hidem Hpost), IH1.
      reflexivity.
    + constructor; [|exact IH2]. destruct Hpost as (_ & _ & _ & Hok & _). exact Hok.
Qed.

(** Two calls that make the same stores, no two of them to one cell: the
    second call leaves the memory as the first call left it. *)
Lemma same_stores_again (Transform : T -> T) (dest p : Z)
    (lanesA lanesA' lanesB lanesB' : list Lane) (m m1 m2 : gmap Z T) :
  Forall (fun ln => lane_ok ln = true) lanesA ->
  Forall (fun ln => lane_ok ln = true) lanesB ->
  tile_stores Transform dest p lanesB = tile_stores Transform dest p lanesA ->
  NoDup (tile_stores Transform dest p lanesA).*1 ->
  tile_exec Transform dest p lanesA m lanesA' m1 ->
  tile_exec Transform dest p lanesB m1 lanesB' m2 ->
  m2 = m1.
Proof.
  intros HokA HokB Hsame Hnd HexA HexB. apply map_eq. intros ptr.
  destruct (tile_exec_lookup Transform dest p lanesB lanesB' m1 m2 ptr HokB HexB)
    as [(x & Hx & Hm)|[_ Hm]]; [|exact Hm].
  rewrite Hm. symmetry. rewrite Hsame in Hx.
  exact (tile_exec_NoDup_lookup Transform dest p lanesA lanesA' m m1 ptr x
           HokA Hnd HexA Hx).
Qed.

(** C7, amended.  Without offset collisions, a second call of the same shape
    leaves the destination as the first call left it when it is given the
    data values of the first call again, or when it runs on the arrays the
    first call left and the transform is idempotent, as the identity
    transform is. *)
Theorem second_scatter_keeps_destination (Transform : T -> T) (dest p : Z)
    (lanes lanes1 lanes2 : list Lane) (m m1 m2 : gmap Z T) :
  Forall (fun ln => lane_ok ln = true) lanes ->
  collision_free lanes ->
  tile_exec Transform dest p lanes m lanes1 m1 ->
  (tile_exec Transform dest p lanes m1 lanes2 m2 -> m2 = m1)
  /\ ((forall x, Transform (Transform x) = Transform x) ->
      tile_exec Transform dest p lanes1 m1 lanes2 m2 -> m2 = m1).
Proof.
  intros Hok Hcf Hex1.
  pose proof (collision_free_NoDup Transform dest p lanes Hcf) as Hnd.
  split.
  - intros Hex2.
    exact (same_stores_again Transform dest p lanes lanes1 lanes lanes2 m m1 m2
             Hok Hok eq_refl Hnd Hex1 Hex2).
  - intros Hidem Hex2.
    destruct (tile_exec_elim Transform dest p lanes lanes1 m m1 Hok Hex1)
      as [_ Hpost].
    destruct (tile_post_stores Transform dest p lanes lanes1 Hidem Hpost)
      as [Hsame Hok1].
    exact (same_stores_again Transform dest p lanes lanes1 lanes1 lanes2 m m1 m2
             Hok Hok1 Hsame Hnd Hex1 Hex2).
Qed.

(** ** Two lanes that store to one cell *)

Lemma last_store_stores_to (ptr : Z) (s : list (Z * T)) :
  last_store ptr s = snd <$> last (stores_to ptr s).
Proof. reflexivity. Qed.

Lemma map_reverse {A B : Type} (f : A -> B) (l : list A) :
  map f (reverse l) = reverse (map f l).
Proof.
  induction l as [|a l IH]; [reflexivity|].
  cbn [map]. rewrite !reverse_cons, map_app, IH. reflexivity.
Qed.

Lemma lookup_map {A B : Type} (f : A -> B) (l : list A) (i : nat) :
  map f l !! i = f <$> l !! i.
Proof.
  revert i. induction l as [|a l IH]; intros [|i]; try reflexivity. apply IH.
Qed.

Lemma concat_two {A : Type} (ls : list (list A)) (i j : nat) (x y : A) :
  i <> j -> ls !! i = Some [x] -> ls !! j = Some [y] ->
  (forall k l, ls !! k = Some l -> k <> i -> k <> j -> l = []) ->
  concat ls ≡ₚ [x; y] /\ Forall (fun l => (length l <= 1)%nat) ls.
Proof.
  intros Hij Hi Hj Hothers. split.
  - rewrite (concat_take_first ls i x [] Hi).
    assert (Hj' : <[i := []]> ls !! j = Some [y])
      by (rewrite list_lookup_insert_ne by exact Hij; exact Hj).
    rewrite (concat_take_first _ j y [] Hj').
    rewrite concat_all_nil; [reflexivity|].
    apply Forall_lookup. intros k l Hk.
    apply list_lookup_insert_Some in Hk as [(_ & <- & _)|[Hjk Hk]]; [reflexivity|].
    apply list_lookup_insert_Some in Hk as [(_ & <- & _)|[Hik Hk]]; [reflexivity|].
    apply (Hothers k l Hk); congruence.
  - apply Forall_lookup. intros k l Hk.
    destruct (decide (k = i)) as [->|Hki];
      [rewrite Hi in Hk; inversion Hk; cbn; lia|].
    destruct (decide (k = j)) as [->|Hkj];
      [rewrite Hj in Hk; inversion Hk; cbn; lia|].
    rewrite (Hothers k l Hk Hki Hkj). cbn. lia.
Qed.

(** C9.  When two lanes each store once to the cell [a], with the differing
    values [v1] and [v2], and no other lane stores to it, then after every
    call of the tile the cell holds [v1] or [v2]; either can win: there is a
    call after which it holds [v1] and a call after which it holds [v2]. *)
Theorem colliding_lanes_one_value_wins (Transform : T -> T) (dest p : Z)
    (lanes : list Lane) (m : gmap Z T) (i j : nat) (li lj : Lane) (a : Z)
    (v1 v2 : T) :
  Forall (fun ln => lane_ok ln = true) lanes ->
  i <> j -> lanes !! i = Some li -> lanes !! j = Some lj ->
  stores_to a (lane_stores Transform dest p li) = [(a, v1)] ->
  stores_to a (lane_stores Transform dest p lj) = [(a, v2)] ->
  (forall k ln, lanes !! k = Some ln -> k <> i -> k <> j ->
     stores_to a (lane_stores Transform dest p ln) = []) ->
  v1 <> v2 ->
  (forall lanes' m',
     tile_exec Transform dest p lanes m lanes' m' ->
     m' !! a = Some v1 \/ m' !! a = Some v2)
  /\ (exists lanes1 m1 lanes2 m2,
        tile_exec Transform dest p lanes m lanes1 m1
        /\ tile_exec Transform dest p lanes m lanes2 m2
        /\ m1 !! a = Some v1 /\ m2 !! a = Some v2 /\ m1 <> m2).
Proof.
  intros Hok Hij Hi Hj Hsi Hsj Hothers Hv.
  set (L := map (lane_stores Transform dest p) lanes).
  set (F := map (stores_to a) L).
  assert (HF : concat F ≡ₚ [(a, v1); (a, v2)]
               /\ Forall (fun l => (length l <= 1)%nat) F).
  { apply (concat_two F i j); [exact Hij| | |].
    - unfold F, L. rewrite !lookup_map, Hi. cbn. rewrite Hsi. reflexivity.
    - unfold F, L. rewrite !lookup_map, Hj. cbn. rewrite Hsj. reflexivity.
    - intros k l Hk Hki Hkj. unfold F, L in Hk. rewrite !lookup_map in Hk.
      destruct (lanes !! k) as [ln|] eqn:Hln; [|discriminate].
      cbn in Hk. inversion Hk. apply (Hothers k ln Hln Hki Hkj). }
  destruct HF as [Hperm Hshort].
  assert (Hsched : forall sched, Interleave L sched ->
            stores_to a sched ≡ₚ [(a, v1); (a, v2)]).
  { intros sched HI. apply Interleave_Permutation in HI.
    unfold stores_to. rewrite HI, filter_concat. exact Hperm. }
  assert (Hcases : forall s, s ≡ₚ [(a, v1); (a, v2)] ->
            s = [(a, v1); (a, v2)] \/ s = [(a, v2); (a, v1)]).
  { intros s Hs. symmetry in Hs. apply Permutation_length_2_inv in Hs.
    destruct Hs as [->| ->]; auto. }
  split.
  - intros lanes' m' Hex.
    destruct (tile_exec_elim Transform dest p lanes lanes' m m' Hok Hex)
      as [(sched & HI & ->) _].
    rewrite run_stores_lookup, last_store_stores_to.
    destruct (Hcases _ (Hsched sched HI)) as [-> | ->]; cbn; auto.
  - assert (H1 : stores_to a (concat L) = concat F)
      by (unfold stores_to, F; apply filter_concat).
    assert (H2 : stores_to a (concat (reverse L)) = reverse (concat F)).
    { unfold stores_to. rewrite filter_concat, map_reverse.
      apply reverse_concat_short. exact Hshort. }
    destruct (tile_exec_intro Transform dest p lanes m (concat L) Hok
                (Interleave_in_order L)) as (lanesA & HexA).
    destruct (tile_exec_intro Transform dest p lanes m (concat (reverse L)) Hok
                (Interleave_in_reverse_order L)) as (lanesB & HexB).
    assert (HA : run_stores (concat L) m !! a = snd <$> last (concat F))
      by (rewrite run_stores_lookup, last_store_stores_to, H1;
          destruct (Hcases _ Hperm) as [-> | ->]; reflexivity).
    assert (HB : run_stores (concat (reverse L)) m !! a
                 = snd <$> last (reverse (concat F)))
      by (rewrite run_stores_lookup, last_store_stores_to, H2;
          destruct (Hcases _ Hperm) as [-> | ->]; reflexivity).
    destruct (Hcases _ Hperm) as [E | E]; rewrite E in HA, HB; cbn in HA, HB.
    + exists lanesB, (run_stores (concat (reverse L)) m),
        lanesA, (run_stores (concat L) m).
      repeat split; try assumption. intros Heq. rewrite Heq in HB. congruence.
    + exists lanesA, (run_stores (concat L) m),
        lanesB, (run_stores (concat (reverse L)) m).
      repeat split; try assumption. intros Heq. rewrite Heq in HA. congruence.
Qed.

(** ** A tile laid out by tile rank *)

Lemma get2_rank_array {A : Type} (f : Z -> A) (tid : Z) (l v : nat) :
  in_tile l v -> get2 (rank_array f tid) l v = Some (f (tile_rank tid l v)).
Proof.
  intros Ht. apply in_tile_elems, elem_of_tile_elems in Ht as [Hl Hv].
  unfold get2, rank_array. rewrite lookup_map.
  rewrite lookup_seq_lt by exact Hl. cbn.
  rewrite lookup_map, lookup_seq_lt by exact Hv. reflexivity.
Qed.

Lemma has_shape_rank_array {A : Type} (f : Z -> A) (tid : Z) :
  has_shape (Z.to_nat LOADS_PER_TILE) (Z.to_nat LOAD_VEC_SIZE)
    (rank_array f tid) = true.
Proof.
  unfold has_shape, rank_array. rewrite length_map, length_seq, Nat.eqb_refl.
  cbn [andb]. apply forallb_forall. intros row Hrow.
  apply in_map_iff in Hrow as (l & <- & _).
  rewrite length_map, length_seq. apply Nat.eqb_refl.
Qed.

Lemma lane_ok_rank_lane (val : Z -> T) (tid : Z) :
  lane_ok (rank_lane val tid) = true.
Proof.
  unfold lane_ok, arrays_ok, rank_lane. cbn [lane_flags lane_offsets lane_data].
  rewrite !has_shape_rank_array. reflexivity.
Qed.

Lemma elem_of_rank_lanes (val : Z -> T) (ln : Lane) :
  ln ∈ rank_lanes val <->
  exists tid, 0 <= tid < ACTIVE_THREADS /\ ln = rank_lane val tid.
Proof.
  unfold rank_lanes. rewrite list_elem_of_In, in_map_iff. split.
  - intros (t & <- & Hin). apply in_seq in Hin. exists (Z.of_nat t). split; [lia|reflexivity].
  - intros (tid & Htid & ->). exists (Z.to_nat tid). split.
    + rewrite Z2Nat.id by lia. reflexivity.
    + apply in_seq. lia.
Qed.

(** Every rank below the tile size is the tile rank of one element of one
    lane. *)
Lemma tile_rank_onto (c : Z) :
  geometry_ok = true -> 0 <= c < TILE_SIZE ->
  exists tid l v,
    0 <= tid < ACTIVE_THREADS /\ in_tile l v /\ tile_rank tid l v = c.
Proof.
  intros Hg Hc.
  destruct (geometry_facts Hg) as (_ & _ & HL & HV & HA & ET & _).
  set (W := ACTIVE_THREADS * LOAD_VEC_SIZE).
  assert (HW : 0 < W) by (apply Z.mul_pos_pos; assumption).
  pose proof (Z.div_mod c W ltac:(lia)) as Hdm.
  pose proof (Z.mod_pos_bound c W HW) as Hr.
  pose proof (Z.div_mod (c mod W) LOAD_VEC_SIZE ltac:(lia)) as Hdm2.
  pose proof (Z.mod_pos_bound (c mod W) LOAD_VEC_SIZE HV) as Hv.
  assert (Hq : 0 <= c / W < LOADS_PER_TILE).
  { split; [apply Z.div_pos; lia|].
    apply Z.div_lt_upper_bound; [exact HW|]. unfold W in *. rewrite ET in Hc. lia. }
  assert (Ht : 0 <= c mod W / LOAD_VEC_SIZE < ACTIVE_THREADS).
  { split; [apply Z.div_pos; lia|].
    apply Z.div_lt_upper_bound; [exact HV|]. unfold W in *. lia. }
  exists (c mod W / LOAD_VEC_SIZE), (Z.to_nat (c / W)),
    (Z.to_nat (c mod W mod LOAD_VEC_SIZE)).
  assert (Hin : in_tile (Z.to_nat (c / W)) (Z.to_nat (c mod W mod LOAD_VEC_SIZE)))
    by (unfold in_tile; lia).
  split; [exact Ht|]. split; [exact Hin|].
  destruct Hin as [Hl' Hv'].
  destruct (tile_rank_exact _ _ _ Hg Ht Hl' Hv') as [-> _].
  rewrite !Z2Nat.id by lia. unfold W in *. lia.
Qed.

(** The stores of a tile laid out by rank: the ranks below the partial tile
    size, each stored at its own rank. *)
Lemma rank_tile_stores (Transform : T -> T) (val : Z -> T) (dest p : Z)
    (ptr : Z) (x : T) :
  geometry_ok = true -> 0 < ty_bits SizeT -> in_range SizeT p = true ->
  (ptr, x) ∈ tile_stores Transform dest p (rank_lanes val) <->
  exists c, 0 <= c < TILE_SIZE /\ c < p
            /\ ptr = dest + c /\ x = Transform (val c).
Proof.
  intros Hg Hb Hp.
  rewrite elem_of_tile_stores. split.
  - intros (ln & Hln & Hin).
    apply elem_of_rank_lanes in Hln as (tid & Htid & ->).
    apply elem_of_lane_stores in Hin
      as (l & v & Ht & Hpass & y & off & Hy & Hoff & -> & ->).
    cbn [rank_lane lane_tid lane_flags lane_data lane_offsets] in *.
    rewrite get2_rank_array in Hy by exact Ht.
    rewrite get2_rank_array in Hoff by exact Ht.
    inversion Hy; inversion Hoff; subst.
    rewrite (passes_guard_holds tid None p l v Hg Hb Hp Htid Ht) in Hpass.
    unfold guard_holds, flag_holds in Hpass. cbn [andb] in Hpass.
    destruct Ht as [Hl Hv].
    destruct (tile_rank_exact tid l v Hg Htid Hl Hv) as [_ Hr].
    exists (tile_rank tid l v). split; [exact Hr|]. split; [|auto].
    destruct (Z.ltb_spec p TILE_SIZE); [apply Z.ltb_lt in Hpass|]; lia.
  - intros (c & Hc & Hcp & -> & ->).
    destruct (tile_rank_onto c Hg Hc) as (tid & l & v & Htid & Ht & Hrank).
    exists (rank_lane val tid). split; [apply elem_of_rank_lanes; eauto|].
    apply elem_of_lane_stores. exists l, v. split; [exact Ht|].
    cbn [rank_lane lane_tid lane_flags lane_data lane_offsets].
    split.
    + rewrite (passes_guard_holds tid None p l v Hg Hb Hp Htid Ht).
      unfold guard_holds, flag_holds. cbn [andb]. rewrite Hrank.
      destruct (p <? TILE_SIZE); [apply Z.ltb_lt; exact Hcp|reflexivity].
    + exists (val c), c. rewrite !get2_rank_array by exact Ht.
      rewrite Hrank. auto.
Qed.

(** After a call on a tile laid out by rank, the cell at rank [c] holds the
    transformed value of rank [c] when [c] is inside the tile and below the
    partial tile size, and its former contents otherwise. *)
Lemma rank_tile_exec (Transform : T -> T) (val : Z -> T) (dest p : Z)
    (lanes' : list Lane) (m m' : gmap Z T) (c : Z) :
  geometry_ok = true -> 0 < ty_bits SizeT -> in_range SizeT p = true ->
  tile_exec Transform dest p (rank_lanes val) m lanes' m' ->
  m' !! (dest + c) =
  if (0 <=? c) && (c <? TILE_SIZE) && (c <? p)
  then Some (Transform (val c)) else m !! (dest + c).
Proof.
  intros Hg Hb Hp Hex.
  assert (Hok : Forall (fun ln => lane_ok ln = true) (rank_lanes val)).
  { apply Forall_forall. intros ln Hln.
    apply elem_of_rank_lanes in Hln as (tid & _ & ->). apply lane_ok_rank_lane. }
  destruct (tile_exec_lookup Transform dest p (rank_lanes val) lanes' m m'
              (dest + c) Hok Hex) as [(x & Hx & ->)|[Hno ->]].
  - apply (rank_tile_stores Transform val dest p _ _ Hg Hb Hp) in Hx
      as (c' & Hc' & Hcp & Heq & ->).
    assert (c' = c) by lia. subst c'.
    rewrite (proj2 (Z.leb_le 0 c)), (proj2 (Z.ltb_lt c TILE_SIZE)),
      (proj2 (Z.ltb_lt c p)) by lia.
    reflexivity.
  - destruct ((0 <=? c) && (c <? TILE_SIZE) && (c <? p)) eqn:Hcond; [|reflexivity].
    exfalso. apply Hno.
    apply andb_prop in Hcond as [Hcond H3]. apply andb_prop in Hcond as [H1 H2].
    apply Z.leb_le in H1. apply Z.ltb_lt in H2, H3.
    apply list_elem_of_fmap. exists (dest + c, Transform (val c)).
    split; [reflexivity|].
    apply (rank_tile_stores Transform val dest p _ _ Hg Hb Hp).
    exists c. auto.
Qed.

Lemma rank_lanes_no_flags (val : Z -> T) :
  Forall (fun ln => lane_flags ln = None) (rank_lanes val).
Proof.
  apply Forall_forall. intros ln Hln.
  apply elem_of_rank_lanes in Hln as (tid & _ & ->). reflexivity.
Qed.

(** The lanes' arrays keep their shape over a call of the tile. *)
Lemma tile_exec_post_ok (Transform : T -> T) (dest p : Z)
    (lanes lanes' : list Lane) (m m' : gmap Z T) :
  Forall (fun ln => lane_ok ln = true) lanes ->
  tile_exec Transform dest p lanes m lanes' m' ->
  Forall (fun ln => lane_ok ln = true) lanes'.
Proof.
  intros Hok Hex.
  destruct (tile_exec_elim Transform dest p lanes lanes' m m' Hok Hex)
    as [_ Hpost].
  clear Hok Hex. induction Hpost as [|ln ln' lanes lanes' Hp _ IH]; constructor.
  - destruct Hp as (_ & _ & _ & Hok & _). exact Hok.
  - exact IH.
Qed.

(** A tile of one lane: the lane's stores, in program order. *)
Lemma tile_exec_single (Transform : T -> T) (dest p : Z) (ln : Lane)
    (m : gmap Z T) (st : LaneState) :
  lane_call Transform dest p m ln = Some st ->
  tile_exec Transform dest p [ln] m [lane_after ln st]
    (run_stores (stores_of (trace st)) m).
Proof.
  intros Hcall. exists [st], (stores_of (trace st)).
  split; [constructor; [exact Hcall|constructor]|].
  split; [|split; reflexivity].
  cbn [map]. rewrite <- (app_nil_r (stores_of (trace st))) at 2.
  apply (Interleave_in_order [stores_of (trace st)]).
Qed.

(** ** More on the geometry and on the recursion *)

(** X1.  In a well-formed geometry the loads per tile and the vector size are
    powers of two, a lane holds their product of elements, and the tile size
    is the product of the lanes, the loads and the vector size; it is
    positive and fits [int]. *)
Theorem tile_geometry :
  geometry_ok = true ->
  LOADS_PER_TILE = 2 ^ LOG_LOADS_PER_TILE
  /\ LOAD_VEC_SIZE = 2 ^ LOG_LOAD_VEC_SIZE
  /\ 1 <= LOADS_PER_TILE /\ 1 <= LOAD_VEC_SIZE
  /\ ELEMENTS_PER_THREAD = LOADS_PER_TILE * LOAD_VEC_SIZE
  /\ TILE_SIZE = ACTIVE_THREADS * LOADS_PER_TILE * LOAD_VEC_SIZE
  /\ ELEMENTS_PER_THREAD <= TILE_SIZE < 2 ^ 31.
Proof.
  intros Hg.
  destruct (geometry_facts Hg) as (EL & EV & HL & HV & HA & ET & HT).
  assert (EE : ELEMENTS_PER_THREAD = LOADS_PER_TILE * LOAD_VEC_SIZE).
  { unfold TILE_SIZE in ET.
    apply (Z.mul_cancel_l _ _ ACTIVE_THREADS); [lia|]. rewrite ET. ring. }
  repeat split; try assumption; try lia.
  rewrite EE, ET. nia.
Qed.

Lemma length_elems_from (LOAD k : nat) :
  length (elems_from LOAD k) = (k * Z.to_nat LOAD_VEC_SIZE)%nat.
Proof.
  revert LOAD. induction k as [|k IH]; intros LOAD; [reflexivity|].
  unfold elems_from. cbn [seq flat_map]. fold (elems_from (S LOAD) k).
  rewrite length_app, IH. unfold row_elems. rewrite length_map, length_seq. lia.
Qed.

Lemma lookup_elems_from (k LOAD i : nat) :
  (i < k * Z.to_nat LOAD_VEC_SIZE)%nat ->
  elems_from LOAD k !! i =
  Some ((LOAD + i / Z.to_nat LOAD_VEC_SIZE)%nat, (i mod Z.to_nat LOAD_VEC_SIZE)%nat).
Proof.
  set (n := Z.to_nat LOAD_VEC_SIZE).
  revert LOAD i. induction k as [|k IH]; intros LOAD i Hi; [lia|].
  unfold elems_from. cbn [seq flat_map]. fold (elems_from (S LOAD) k). fold n.
  assert (Hlen : length (row_elems LOAD 0 n) = n)
    by (unfold row_elems; rewrite length_map, length_seq; reflexivity).
  destruct (Nat.lt_ge_cases i n) as [Hlt|Hge].
  - rewrite lookup_app_l by (rewrite Hlen; exact Hlt).
    unfold row_elems. rewrite lookup_map, lookup_seq_lt by exact Hlt.
    rewrite Nat.div_small, Nat.mod_small by exact Hlt. cbn.
    repeat f_equal; lia.
  - rewrite lookup_app_r by (rewrite Hlen; exact Hge). rewrite Hlen.
    rewrite IH by lia.
    assert (Hn : n <> 0%nat) by lia.
    assert (Hd : (i / n = 1 + (i - n) / n)%nat).
    { replace i with (1 * n + (i - n))%nat at 1 by lia.
      apply Nat.div_add_l. exact Hn. }
    assert (Hm : (i mod n = (i - n) mod n)%nat).
    { replace i with ((i - n) + 1 * n)%nat at 1 by lia.
      apply Nat.Div0.mod_add. }
    rewrite Hd, Hm. generalize ((i - n) / n)%nat as q. intros q.
    replace (S LOAD + q)%nat with (LOAD + (1 + q))%nat by lia. reflexivity.
Qed.

(** X2.  [Iterate<0, 0>::Invoke] handles the elements of the lane's tile one
    after the other, the vector item varying fastest: the element handled at
    position [i] is the one at load [i / LOAD_VEC_SIZE] and vector item
    [i mod LOAD_VEC_SIZE], and there are [LOADS_PER_TILE * LOAD_VEC_SIZE]
    positions. *)
Theorem iterate_visits_row_major (Transform : T -> T) (tid dest : Z)
    (offs : list (list Z)) (g : GuardArgs) (st : LaneState) :
  Iterate_Invoke Iterate_depth Transform tid dest offs g 0 0 st =
    run_elems (Invoke_body Transform tid dest offs g) tile_elems st
  /\ Z.of_nat (length tile_elems) = LOADS_PER_TILE * LOAD_VEC_SIZE
  /\ forall i, (i < length tile_elems)%nat ->
       tile_elems !! i =
       Some ((i / Z.to_nat LOAD_VEC_SIZE)%nat, (i mod Z.to_nat LOAD_VEC_SIZE)%nat).
Proof.
  assert (HL : 0 <= LOADS_PER_TILE) by (apply Z.shiftl_nonneg; lia).
  assert (HV : 0 <= LOAD_VEC_SIZE) by (apply Z.shiftl_nonneg; lia).
  split; [apply Iterate_tile|]. unfold tile_elems. rewrite length_elems_from.
  split; [lia|].
  intros i Hi. rewrite lookup_elems_from by exact Hi. reflexivity.
Qed.

Lemma Iterate_short (Transform : T -> T) (tid dest : Z) (offs : list (list Z))
    (g : GuardArgs) (d : nat) :
  forall (LOAD VEC k n : nat) (st : LaneState),
    Z.of_nat (LOAD + S k) = LOADS_PER_TILE ->
    Z.of_nat (VEC + n) = LOAD_VEC_SIZE ->
    (d < n + 1 + k * S (Z.to_nat LOAD_VEC_SIZE) + 1)%nat ->
    Iterate_Invoke d Transform tid dest offs g LOAD VEC st = None.
Proof.
  induction d as [|d IH]; intros LOAD VEC k n st HL HV Hd; [reflexivity|].
  cbn [Iterate_Invoke].
  replace (Z.of_nat LOAD =? LOADS_PER_TILE) with false
    by (symmetry; apply Z.eqb_neq; lia).
  cbn [andb].
  destruct n as [|n].
  - replace (Z.of_nat VEC =? LOAD_VEC_SIZE) with true
      by (symmetry; apply Z.eqb_eq; lia).
    destruct k as [|k].
    + assert (d = 0%nat) by lia. subst d. reflexivity.
    + apply (IH (LOAD + 1)%nat 0%nat k (Z.to_nat LOAD_VEC_SIZE)); lia.
  - replace (Z.of_nat VEC =? LOAD_VEC_SIZE) with false
      by (symmetry; apply Z.eqb_neq; lia).
    destruct (Invoke_body Transform tid dest offs g LOAD VEC st) as [st1|];
      [|reflexivity].
    cbn [mbind option_bind].
    apply (IH LOAD (VEC + 1)%nat k n); lia.
Qed.

(** X3.  The recursion from [Iterate<0, 0>] needs
    [LOADS_PER_TILE * (LOAD_VEC_SIZE + 1) + 1] nested instantiations: with a
    smaller depth it gives no result, and a greater depth changes nothing. *)
Theorem iterate_depth_exact (Transform : T -> T) (tid dest : Z)
    (offs : list (list Z)) (g : GuardArgs) (st : LaneState) (d : nat) :
  Z.of_nat Iterate_depth = LOADS_PER_TILE * (LOAD_VEC_SIZE + 1) + 1
  /\ ((d < Iterate_depth)%nat ->
      Iterate_Invoke d Transform tid dest offs g 0 0 st = None)
  /\ ((Iterate_depth <= d)%nat ->
      Iterate_Invoke d Transform tid dest offs g 0 0 st =
      Iterate_Invoke Iterate_depth Transform tid dest offs g 0 0 st).
Proof.
  assert (HL : 0 <= LOADS_PER_TILE) by (apply Z.shiftl_nonneg; lia).
  assert (HV : 0 <= LOAD_VEC_SIZE) by (apply Z.shiftl_nonneg; lia).
  unfold Iterate_depth. split; [nia|]. split.
  - intros Hd. destruct (Z.to_nat LOADS_PER_TILE) as [|k] eqn:Hk.
    + assert (d = 0%nat) by lia. subst d. reflexivity.
    + apply (Iterate_short Transform tid dest offs g d 0 0 k
               (Z.to_nat LOAD_VEC_SIZE)); lia.
  - intros Hd. rewrite Iterate_tile.
    replace d with (Z.to_nat LOADS_PER_TILE * S (Z.to_nat LOAD_VEC_SIZE)
                    + S (d - S (Z.to_nat LOADS_PER_TILE
                                * S (Z.to_nat LOAD_VEC_SIZE))))%nat by lia.
    apply Iterate_loads. lia.
Qed.

Lemma Iterate_outside (Transform : T -> T) (tid dest : Z) (offs : list (list Z))
    (g : GuardArgs) (d : nat) :
  forall (LOAD VEC : nat) (st : LaneState),
    LOADS_PER_TILE < Z.of_nat LOAD
    \/ (Z.of_nat LOAD = LOADS_PER_TILE /\ VEC <> 0%nat) ->
    Iterate_Invoke d Transform tid dest offs g LOAD VEC st = None.
Proof.
  induction d as [|d IH]; intros LOAD VEC st H; [reflexivity|].
  cbn [Iterate_Invoke].
  replace ((Z.of_nat LOAD =? LOADS_PER_TILE) && (Z.of_nat VEC =? 0)) with false.
  2:{ symmetry. apply andb_false_iff.
      destruct H as [H|[_ H]]; [left|right]; apply Z.eqb_neq; lia. }
  destruct (Z.of_nat VEC =? LOAD_VEC_SIZE).
  - apply IH. left. lia.
  - destruct (Invoke_body Transform tid dest offs g LOAD VEC st) as [st1|];
      [|reflexivity].
    cbn [mbind option_bind]. apply IH.
    destruct H as [H|[H _]]; [left; exact H|right; split; [exact H|lia]].
Qed.

(** X4.  Entered above the tile, at a load beyond [LOADS_PER_TILE] or at
    [LOADS_PER_TILE] with a vector item other than 0, the recursion never
    meets the terminating specialization: no depth gives a result. *)
Theorem iterate_outside_tile_never_ends (Transform : T -> T) (tid dest : Z)
    (offs : list (list Z)) (g : GuardArgs) (d LOAD VEC : nat) (st : LaneState) :
  LOADS_PER_TILE < Z.of_nat LOAD
  \/ (Z.of_nat LOAD = LOADS_PER_TILE /\ VEC <> 0%nat) ->
  Iterate_Invoke d Transform tid dest offs g LOAD VEC st = None.
Proof. apply Iterate_outside. Qed.

(** ** The tile rank numbers the elements of a tile *)

Lemma tile_rank_inj (tid tid' : Z) (l v l' v' : nat) :
  geometry_ok = true ->
  0 <= tid < ACTIVE_THREADS -> 0 <= tid' < ACTIVE_THREADS ->
  in_tile l v -> in_tile l' v' ->
  tile_rank tid l v = tile_rank tid' l' v' ->
  tid = tid' /\ l = l' /\ v = v'.
Proof.
  intros Hg Ht Ht' [Hl Hv] [Hl' Hv'] Heq.
  destruct (geometry_facts Hg) as (_ & _ & HL & HV & HA & _ & _).
  destruct (tile_rank_exact tid l v Hg Ht Hl Hv) as [E _].
  destruct (tile_rank_exact tid' l' v' Hg Ht' Hl' Hv') as [E' _].
  rewrite E, E' in Heq. clear E E'.
  set (a := Z.of_nat l * ACTIVE_THREADS + tid) in *.
  set (a' := Z.of_nat l' * ACTIVE_THREADS + tid') in *.
  assert (Heq2 : a * LOAD_VEC_SIZE + Z.of_nat v
                 = a' * LOAD_VEC_SIZE + Z.of_nat v') by (unfold a, a'; lia).
  assert (Ha : a = a') by nia.
  assert (Hvv : Z.of_nat v = Z.of_nat v') by (rewrite Ha in Heq2; lia).
  unfold a, a' in Ha.
  assert (Hll : Z.of_nat l = Z.of_nat l') by nia.
  rewrite Hll in Ha. split; [lia|]. split; lia.
Qed.

(** X5.  In a well-formed geometry the tile rank is a one-to-one numbering of
    the elements of the lanes [0 .. ACTIVE_THREADS - 1] by the ranks
    [0 .. TILE_SIZE - 1]: it stays inside the tile, two elements with the
    same rank are the same element of the same lane, and every rank of the
    tile is the rank of an element. *)
Theorem tile_rank_bijective :
  geometry_ok = true ->
  (forall tid l v, 0 <= tid < ACTIVE_THREADS -> in_tile l v ->
     0 <= tile_rank tid l v < TILE_SIZE)
  /\ (forall tid tid' l v l' v',
        0 <= tid < ACTIVE_THREADS -> 0 <= tid' < ACTIVE_THREADS ->
        in_tile l v -> in_tile l' v' ->
        tile_rank tid l v = tile_rank tid' l' v' ->
        tid = tid' /\ l = l' /\ v = v')
  /\ (forall c, 0 <= c < TILE_SIZE ->
        exists tid l v,
          0 <= tid < ACTIVE_THREADS /\ in_tile l v /\ tile_rank tid l v = c).
Proof.
  intros Hg. split; [|split].
  - intros tid l v Ht [Hl Hv]. apply (tile_rank_exact tid l v Hg Ht Hl Hv).
  - intros tid tid' l v l' v'. apply tile_rank_inj. exact Hg.
  - intros c Hc. apply tile_rank_onto; assumption.
Qed.

Lemma length_omap_filter {A B : Type} (f : A -> option B) (P : A -> Prop)
    `{!forall x, Decision (P x)} (l : list A) :
  (forall x, x ∈ l -> (is_Some (f x) <-> P x)) ->
  length (omap f l) = length (filter P l).
Proof.
  induction l as [|a l IH]; intros Hall; [reflexivity|].
  cbn [omap list_omap]. rewrite filter_cons.
  assert (IH' : length (omap f l) = length (filter P l))
    by (apply IH; intros x Hx; apply Hall; right; exact Hx).
  pose proof (Hall a ltac:(left)) as Ha.
  destruct (f a) as [b|]; destruct (decide (P a)) as [HP|HP]; cbn [length].
  - rewrite IH'. reflexivity.
  - exfalso. apply HP, Ha. eauto.
  - exfalso. apply Ha in HP. destruct HP as [? HP]. discriminate HP.
  - exact IH'.
Qed.

Lemma length_filter_map {A B : Type} (g : A -> B) (P : B -> Prop)
    `{!forall y, Decision (P y)} (l : list A) :
  length (filter P (map g l)) = length (filter (fun x => P (g x)) l).
Proof.
  induction l as [|a l IH]; [reflexivity|].
  cbn [map]. rewrite !filter_cons.
  destruct (decide (P (g a))); cbn [length]; rewrite IH; reflexivity.
Qed.

Lemma NoDup_concat_map {A B : Type} (f : A -> list B) (l : list A) :
  (forall x1 x2 y, x1 ∈ l -> x2 ∈ l -> y ∈ f x1 -> y ∈ f x2 -> x1 = x2) ->
  (forall x, x ∈ l -> NoDup (f x)) ->
  NoDup l -> NoDup (concat (map f l)).
Proof.
  intros Hinj Hnd. induction 1 as [|a l Ha Hl IH]; [constructor|].
  cbn [map concat]. apply NoDup_app. split; [apply Hnd; left|].
  split.
  - intros y Hy Hy'. apply elem_of_concat_map in Hy' as (x & Hx & Hyx).
    assert (a = x) by (apply (Hinj a x y); [left|right; exact Hx|exact Hy|exact Hyx]).
    subst x. exact (Ha Hx).
  - apply IH.
    + intros x1 x2 y H1 H2. apply Hinj; right; assumption.
    + intros x Hx. apply Hnd. right. exact Hx.
Qed.

Lemma length_filter_lt_seqZ (q N : Z) :
  0 <= N ->
  length (filter (fun r => r < q) (seqZ 0 N)) = Z.to_nat (Z.min q N).
Proof.
  intros HN.
  rewrite <- (length_seqZ 0 (Z.min q N)).
  apply Permutation_length, NoDup_Permutation.
  - apply NoDup_filter, NoDup_seqZ.
  - apply NoDup_seqZ.
  - intros r. rewrite list_elem_of_filter, !elem_of_seqZ. lia.
Qed.

(** The ranks of the lanes [0 .. ACTIVE_THREADS - 1] are the ranks of the
    tile, each once. *)
Lemma tile_ranks_Permutation :
  geometry_ok = true ->
  tile_ranks (seqZ 0 ACTIVE_THREADS) ≡ₚ seqZ 0 TILE_SIZE.
Proof.
  intros Hg. apply NoDup_Permutation.
  - unfold tile_ranks. apply NoDup_concat_map; [| |apply NoDup_seqZ].
    + intros t1 t2 r Ht1 Ht2 Hr1 Hr2.
      apply elem_of_seqZ in Ht1, Ht2.
      apply list_elem_of_In, in_map_iff in Hr1 as ([l1 v1] & E1 & H1).
      apply list_elem_of_In, in_map_iff in Hr2 as ([l2 v2] & E2 & H2).
      apply list_elem_of_In, in_tile_elems in H1, H2. cbn [fst snd] in E1, E2.
      apply (tile_rank_inj t1 t2 l1 v1 l2 v2 Hg); try lia; assumption.
    + intros t Ht. apply elem_of_seqZ in Ht.
      change (NoDup ((fun e : nat * nat => tile_rank t e.1 e.2) <$> tile_elems)).
      apply NoDup_fmap_2_strong; [|apply NoDup_tile_elems].
      intros [l1 v1] [l2 v2] H1 H2 E. cbn [fst snd] in E.
      apply in_tile_elems in H1, H2.
      destruct (tile_rank_inj t t l1 v1 l2 v2 Hg) as (_ & -> & ->);
        try lia; try assumption. reflexivity.
  - apply NoDup_seqZ.
  - intros r. rewrite elem_of_seqZ. unfold tile_ranks.
    rewrite elem_of_concat_map. split.
    + intros (t & Ht & Hr). apply elem_of_seqZ in Ht.
      apply list_elem_of_In, in_map_iff in Hr as ([l v] & <- & H).
      apply list_elem_of_In, in_tile_elems in H. destruct H as [Hl Hv].
      cbn [fst snd].
      destruct (tile_rank_exact t l v Hg ltac:(lia) Hl Hv) as [_ Hr]. lia.
    + intros Hr. destruct (tile_rank_onto r Hg ltac:(lia))
        as (t & l & v & Ht & Hin & <-).
      exists t. split; [apply elem_of_seqZ; lia|].
      apply list_elem_of_In, in_map_iff. exists (l, v). split; [reflexivity|].
      apply list_elem_of_In, in_tile_elems. exact Hin.
Qed.

Lemma guard_holds_no_flags (tid p : Z) (l v : nat) :
  geometry_ok = true -> 0 <= tid < ACTIVE_THREADS -> in_tile l v ->
  guard_holds tid None p l v = true <->
  tile_rank tid l v < Z.min p TILE_SIZE.
Proof.
  intros Hg Ht [Hl Hv].
  destruct (tile_rank_exact tid l v Hg Ht Hl Hv) as [_ Hr].
  unfold guard_holds, flag_holds. cbn [andb].
  destruct (Z.ltb_spec p TILE_SIZE); [rewrite Z.ltb_lt|]; lia.
Qed.

Lemma lane_stores_length (Transform : T -> T) (dest p : Z) (ln : Lane) :
  geometry_ok = true -> 0 < ty_bits SizeT -> in_range SizeT p = true ->
  0 <= lane_tid ln < ACTIVE_THREADS -> lane_ok ln = true ->
  lane_flags ln = None ->
  length (lane_stores Transform dest p ln) =
  length (filter (fun r => r < Z.min p TILE_SIZE)
            (map (fun e : nat * nat => tile_rank (lane_tid ln) e.1 e.2)
               tile_elems)).
Proof.
  intros Hg Hb Hp Ht Hok Hnf. unfold lane_stores.
  rewrite (stores_of_call_events _ _ dest _ _ p _ Hg Hb Hp Ht).
  rewrite length_filter_map. unfold guarded_stores.
  apply length_omap_filter. intros [l v] He. cbn [fst snd].
  apply in_tile_elems in He.
  unfold lane_ok in Hok.
  destruct (arrays_ok_get2 _ _ _ l v Hok He) as ([x Hx] & [off Hoff] & _).
  rewrite Hnf, Hx, Hoff. cbn [mbind option_bind].
  rewrite <- (guard_holds_no_flags (lane_tid ln) p l v Hg Ht He).
  destruct (guard_holds (lane_tid ln) None p l v); split; intros H;
    eauto; try discriminate.
  destruct H as [? H]. discriminate H.
Qed.

Lemma tile_stores_length (Transform : T -> T) (dest p : Z) (lanes : list Lane) :
  geometry_ok = true -> 0 < ty_bits SizeT -> in_range SizeT p = true ->
  Forall (fun ln => 0 <= lane_tid ln < ACTIVE_THREADS /\ lane_ok ln = true
                    /\ lane_flags ln = None) lanes ->
  length (tile_stores Transform dest p lanes) =
  length (filter (fun r => r < Z.min p TILE_SIZE)
            (tile_ranks (map lane_tid lanes))).
Proof.
  intros Hg Hb Hp. unfold tile_stores, tile_ranks.
  induction 1 as [|ln lanes (Ht & Hok & Hnf) _ IH]; [reflexivity|].
  cbn [map concat]. rewrite filter_app, !length_app, IH.
  rewrite (lane_stores_length Transform dest p ln Hg Hb Hp Ht Hok Hnf).
  reflexivity.
Qed.

(** The stores of a whole tile without flags, counted. *)
Lemma tile_stores_count (Transform : T -> T) (dest p : Z)
    (lanes : list Lane) :
  geometry_ok = true -> 0 < ty_bits SizeT -> in_range SizeT p = true ->
  Forall (fun ln => lane_ok ln = true) lanes ->
  whole_tile lanes ->
  length (tile_stores Transform dest p lanes) = Z.to_nat (Z.min p TILE_SIZE).
Proof.
  intros Hg Hb Hp Hok [Htids Hnf].
  destruct (geometry_facts Hg) as (_ & _ & _ & _ & _ & _ & HT).
  rewrite (tile_stores_length Transform dest p lanes Hg Hb Hp).
  - rewrite Htids, (tile_ranks_Permutation Hg).
    rewrite length_filter_lt_seqZ by lia. f_equal. lia.
  - apply Forall_forall. intros ln Hln.
    split; [|split].
    + assert (Hin : lane_tid ln ∈ map lane_tid lanes).
      { apply list_elem_of_In, in_map, list_elem_of_In. exact Hln. }
      rewrite Htids in Hin. apply elem_of_seqZ in Hin. lia.
    + exact (proj1 (Forall_forall _ _) Hok ln Hln).
    + exact (proj1 (Forall_forall _ _) Hnf ln Hln).
Qed.

(** The lanes of a tile without flags run [Scatter], and each makes the
    stores of its guarded elements. *)
Lemma lanes_Scatter_run (Transform : T -> T) (dest p : Z) (m : gmap Z T)
    (lanes : list Lane) :
  Forall (fun ln => lane_ok ln = true) lanes ->
  Forall (fun ln => lane_flags ln = None) lanes ->
  exists sts,
    lanes_Scatter Transform dest p m lanes sts
    /\ map (fun st => stores_of (trace st)) sts =
       map (lane_stores Transform dest p) lanes.
Proof.
  unfold lanes_Scatter.
  induction lanes as [|ln lanes IH]; intros Hok Hnf.
  - exists []. split; [constructor|reflexivity].
  - apply Forall_cons in Hok as [Hln Hok]. apply Forall_cons in Hnf as [Hf Hnf].
    destruct (IH Hok Hnf) as (sts & Hall & Hst).
    destruct (lane_call_spec Transform dest p m ln Hln) as (st & Hc & Hs & _).
    unfold lane_call, Scatter_call in Hc. rewrite Hf in Hc.
    exists (st :: sts). split; [constructor; assumption|].
    cbn [map]. rewrite Hs, Hst. reflexivity.
Qed.

(** X6.  Without flags, the lanes [0 .. ACTIVE_THREADS - 1] of a tile each
    run [Scatter] to its end and make together as many stores as the partial
    tile size says: [p] stores for [0 <= p <= TILE_SIZE], none for a negative
    [p], and [TILE_SIZE] stores for a greater [p]. *)
Theorem whole_tile_stores_count (Transform : T -> T) (dest p : Z)
    (lanes : list Lane) (m : gmap Z T) :
  geometry_ok = true -> 0 < ty_bits SizeT -> in_range SizeT p = true ->
  Forall (fun ln => lane_ok ln = true) lanes ->
  whole_tile lanes ->
  exists sts,
    lanes_Scatter Transform dest p m lanes sts
    /\ length (concat (map (fun st => stores_of (trace st)) sts)) =
       Z.to_nat (Z.min p TILE_SIZE).
Proof.
  intros Hg Hb Hp Hok Hwt.
  destruct (lanes_Scatter_run Transform dest p m lanes Hok (proj2 Hwt))
    as (sts & Hrun & Hst).
  exists sts. split; [exact Hrun|].
  rewrite Hst.
  exact (tile_stores_count Transform dest p lanes Hg Hb Hp Hok Hwt).
Qed.

(** X7.  A greater partial tile size writes at least the same elements: an
    element a call writes with the partial tile size [p] is written by the
    same call with any [q >= p]. *)
Theorem partial_size_monotone (sh : Shape) (tid dest : Z)
    (offs : list (list Z)) (p q : Z) (st : LaneState) :
  geometry_ok = true -> 0 < ty_bits SizeT ->
  in_range SizeT p = true -> in_range SizeT q = true ->
  0 <= tid < ACTIVE_THREADS ->
  arrays_ok (shape_flags sh) offs (data st) = true ->
  p <= q ->
  exists stp evp stq evq,
    Scatter_shape sh tid dest offs p st = Some stp
    /\ trace stp = trace st ++ evp
    /\ Scatter_shape sh tid dest offs q st = Some stq
    /\ trace stq = trace st ++ evq
    /\ forall l v, written evp l v -> written evq l v.
Proof.
  intros Hg Hb Hp Hq Htid Hok Hpq.
  destruct (Scatter_shape_run sh tid dest offs p st Hok)
    as (stp & Hrunp & Htrp & _ & _).
  destruct (Scatter_shape_run sh tid dest offs q st Hok)
    as (stq & Hrunq & Htrq & _ & _).
  eexists stp, _, stq, _.
  split; [exact Hrunp|]. split; [exact Htrp|].
  split; [exact Hrunq|]. split; [exact Htrq|].
  intros l v Hw.
  assert (Ht : in_tile l v).
  { destruct Hw as (ptr & val & Hin).
    apply elem_of_cons in Hin as [Hin|Hin]; [discriminate|].
    apply elem_of_call_events_store in Hin. tauto. }
  apply (written_passes _ tid dest _ offs p _ _ l v Hok Ht) in Hw.
  apply (written_passes _ tid dest _ offs q _ _ l v Hok Ht).
  rewrite (passes_guard_holds tid _ p l v Hg Hb Hp Htid Ht) in Hw.
  rewrite (passes_guard_holds tid _ q l v Hg Hb Hq Htid Ht).
  unfold guard_holds in *. apply andb_prop in Hw as [Hf Hr]. rewrite Hf.
  cbn [andb].
  destruct (Z.ltb_spec q TILE_SIZE); [|reflexivity].
  destruct (Z.ltb_spec p TILE_SIZE); [|lia].
  apply Z.ltb_lt in Hr. apply Z.ltb_lt. lia.
Qed.

(** ** Calls that write nothing, and flags that are all set *)

Lemma run_elems_skip (body : nat -> nat -> LaneState -> option LaneState)
    (es : list (nat * nat)) (st : LaneState) :
  (forall e, e ∈ es -> body e.1 e.2 st = Some st) ->
  run_elems body es st = Some st.
Proof.
  induction es as [|e es IH]; intros Hall; [reflexivity|].
  cbn [run_elems]. rewrite (Hall e) by left. cbn [mbind option_bind].
  apply IH. intros e' He'. apply Hall. right. exact He'.
Qed.

Lemma run_elems_ext (body1 body2 : nat -> nat -> LaneState -> option LaneState)
    (es : list (nat * nat)) (st : LaneState) :
  (forall e st', e ∈ es -> body1 e.1 e.2 st' = body2 e.1 e.2 st') ->
  run_elems body1 es st = run_elems body2 es st.
Proof.
  revert st. induction es as [|e es IH]; intros st Hall; [reflexivity|].
  cbn [run_elems]. rewrite (Hall e st) by left.
  destruct (body2 e.1 e.2 st) as [st'|]; [|reflexivity].
  cbn [mbind option_bind].
  apply IH. intros e' st'' He'. apply Hall. right. exact He'.
Qed.

(** X8.  With a partial tile size of zero or below, a call of any shape
    makes the comparison and nothing else: no transform, no store, the
    registers and the memory as they were. *)
Theorem nonpositive_partial_writes_nothing (sh : Shape) (tid dest : Z)
    (offs : list (list Z)) (p : Z) (st : LaneState) :
  geometry_ok = true -> 0 < ty_bits SizeT -> in_range SizeT p = true ->
  0 <= tid < ACTIVE_THREADS ->
  arrays_ok (shape_flags sh) offs (data st) = true ->
  p <= 0 ->
  Scatter_shape sh tid dest offs p st = Some (log (EvCompare true) st).
Proof.
  intros Hg Hb Hp Htid Hok Hp0.
  destruct (geometry_facts Hg) as (_ & _ & _ & _ & _ & _ & HT).
  rewrite Scatter_shape_call, Scatter_call_unfold, (compare_exact p Hg Hb Hp).
  replace (p <? TILE_SIZE) with true by (symmetry; apply Z.ltb_lt; lia).
  apply run_elems_skip. intros [l v] He. cbn [fst snd].
  apply in_tile_elems in He.
  destruct (arrays_ok_get2 _ _ _ l v Hok He) as ([x Hx] & [off Hoff] & Hfl).
  rewrite (Invoke_body_spec _ tid dest offs _ l v _ x off); try assumption.
  - rewrite (passes_guard_holds tid _ p l v Hg Hb Hp Htid He).
    unfold guard_holds.
    replace (p <? TILE_SIZE) with true by (symmetry; apply Z.ltb_lt; lia).
    destruct He as [Hl Hv].
    destruct (tile_rank_exact tid l v Hg Htid Hl Hv) as [_ Hr].
    replace (tile_rank tid l v <? p) with false
      by (symmetry; apply Z.ltb_ge; lia).
    rewrite andb_false_r. reflexivity.
  - rewrite (dispatch_exact _ p Hg Hb Hp).
    destruct (p <? TILE_SIZE), (shape_flags sh); cbn; try exact I;
      destruct Hfl as [f Hf]; rewrite Hf; eauto.
Qed.

(** X9.  When every flag of the tile is set, the call with flags does what
    the call without flags does. *)
Theorem true_flags_as_without_flags (Transform : T -> T) (tid dest : Z)
    (fl : list (list Flag)) (offs : list (list Z)) (p : Z) (st : LaneState) :
  flags_all true fl ->
  Scatter_flags Transform tid dest fl offs p st =
  Scatter Transform tid dest offs p st.
Proof.
  intros Hfl. unfold Scatter_flags, Scatter.
  destruct (lt_conv SizeT int_t p TILE_SIZE); rewrite !Iterate_tile;
    apply run_elems_ext; intros [l v] st' He; cbn [fst snd];
    apply in_tile_elems in He; destruct (Hfl l v He) as (f & Hf & Ht);
    cbn [Invoke_body]; rewrite Hf; cbn [mbind option_bind]; rewrite Ht;
    reflexivity.
Qed.

(** X10.  When no flag of the tile is set, the call with flags makes the
    comparison and nothing else, whatever the partial tile size; it does not
    even read the data and the offsets. *)
Theorem false_flags_write_nothing (Transform : T -> T) (tid dest : Z)
    (fl : list (list Flag)) (offs : list (list Z)) (p : Z) (st : LaneState) :
  flags_all false fl ->
  Scatter_flags Transform tid dest fl offs p st =
  Some (log (EvCompare (lt_conv SizeT int_t p TILE_SIZE)) st).
Proof.
  intros Hfl. unfold Scatter_flags.
  destruct (lt_conv SizeT int_t p TILE_SIZE); rewrite Iterate_tile;
    apply run_elems_skip; intros [l v] He; cbn [fst snd];
    apply in_tile_elems in He; destruct (Hfl l v He) as (f & Hf & Ht);
    cbn [Invoke_body]; rewrite Hf; cbn [mbind option_bind]; rewrite Ht;
    reflexivity.
Qed.

(** ** The registers after a call, and calls in a row *)

Lemma get2_ext {A : Type} (rows cols : nat) (a b : list (list A)) :
  has_shape rows cols a = true -> has_shape rows cols b = true ->
  (forall l v, get2 a l v = get2 b l v) -> a = b.
Proof.
  intros Ha Hb Hget. unfold has_shape in Ha, Hb.
  apply andb_prop in Ha as [Ha Hca], Hb as [Hb Hcb].
  apply Nat.eqb_eq in Ha, Hb.
  rewrite forallb_forall in Hca, Hcb.
  apply list_eq. intros l.
  destruct (a !! l) as [ra|] eqn:Ea, (b !! l) as [rb|] eqn:Eb.
  - f_equal. apply list_eq. intros v.
    specialize (Hget l v). unfold get2 in Hget. rewrite Ea, Eb in Hget.
    exact Hget.
  - apply lookup_lt_Some in Ea. apply lookup_ge_None in Eb. lia.
  - apply lookup_ge_None in Ea. apply lookup_lt_Some in Eb. lia.
  - reflexivity.
Qed.

Lemma arrays_ok_data_shape (flags : option (list (list Flag)))
    (offs : list (list Z)) (d : list (list T)) :
  arrays_ok flags offs d = true ->
  has_shape (Z.to_nat LOADS_PER_TILE) (Z.to_nat LOAD_VEC_SIZE) d = true.
Proof.
  unfold arrays_ok. intros H.
  apply andb_prop in H as [H _]. apply andb_prop in H as [H _]. exact H.
Qed.

Lemma Scatter_call_data_ext (Transform Transform' : T -> T) (tid dest dest' : Z)
    (flags : option (list (list Flag))) (offs offs' : list (list Z)) (p : Z)
    (st st' st1 st1' : LaneState) :
  arrays_ok flags offs (data st) = true ->
  arrays_ok flags offs' (data st') = true ->
  Scatter_call Transform tid dest flags offs p st = Some st1 ->
  Scatter_call Transform' tid dest' flags offs' p st' = Some st1' ->
  (forall l v,
     (if bool_decide ((l, v) ∈ tile_elems) && passes tid (dispatch flags p) l v
      then Transform <$> get2 (data st) l v else get2 (data st) l v) =
     (if bool_decide ((l, v) ∈ tile_elems) && passes tid (dispatch flags p) l v
      then Transform' <$> get2 (data st') l v else get2 (data st') l v)) ->
  data st1 = data st1'.
Proof.
  intros Hok Hok' Hc Hc' Hget.
  destruct (Scatter_call_spec Transform tid dest flags offs p st Hok)
    as (s & Hs & _ & _ & Hd).
  destruct (Scatter_call_spec Transform' tid dest' flags offs' p st' Hok')
    as (s' & Hs' & _ & _ & Hd').
  rewrite Hc in Hs. rewrite Hc' in Hs'.
  injection Hs as <-. injection Hs' as <-.
  apply (get2_ext (Z.to_nat LOADS_PER_TILE) (Z.to_nat LOAD_VEC_SIZE)).
  - apply (arrays_ok_data_shape flags offs).
    rewrite (Scatter_call_shape _ _ _ _ _ _ _ _ Hc). exact Hok.
  - apply (arrays_ok_data_shape flags offs').
    rewrite (Scatter_call_shape _ _ _ _ _ _ _ _ Hc'). exact Hok'.
  - intros l v. rewrite Hd, Hd'. apply Hget.
Qed.

(** X11.  The two shapes without a transform leave the lane's registers as
    they were: [Scatter] without transform never modifies [data]. *)
Theorem nop_scatter_keeps_data (tid dest : Z)
    (flags : option (list (list Flag))) (offs : list (list Z)) (p : Z)
    (st : LaneState) :
  arrays_ok flags offs (data st) = true ->
  exists st',
    match flags with
    | None => Scatter_nop tid dest offs p st
    | Some fl => Scatter_flags_nop tid dest fl offs p st
    end = Some st'
    /\ data st' = data st.
Proof.
  intros Hok.
  destruct (Scatter_call_spec NopTransform tid dest flags offs p st Hok)
    as (st' & Hrun & _ & _ & Hd).
  exists st'. split; [destruct flags; exact Hrun|].
  apply (get2_ext (Z.to_nat LOADS_PER_TILE) (Z.to_nat LOAD_VEC_SIZE)).
  - apply (arrays_ok_data_shape flags offs).
    rewrite (Scatter_call_shape _ _ _ _ _ _ _ _ Hrun). exact Hok.
  - apply (arrays_ok_data_shape flags offs). exact Hok.
  - intros l v. rewrite Hd.
    destruct (bool_decide _ && passes _ _ _ _); [|reflexivity].
    destruct (get2 (data st) l v); reflexivity.
Qed.

Lemma last_store_is_Some (s : list (Z * T)) (p : Z) :
  p ∈ s.*1 -> is_Some (last_store p s).
Proof.
  intros Hin. apply list_elem_of_fmap in Hin as ([q x] & -> & Hin).
  unfold last_store. apply fmap_is_Some, last_is_Some.
  intros Hnil.
  assert (Hf : (q, x) ∈ filter (fun ps : Z * T => ps.1 = (q, x).1) s)
    by (apply list_elem_of_filter; split; [reflexivity|exact Hin]).
  rewrite Hnil in Hf. inversion Hf.
Qed.

Lemma run_stores_overwrite (s1 s2 : list (Z * T)) (m : gmap Z T) :
  (forall p, p ∈ s1.*1 -> p ∈ s2.*1) ->
  run_stores s2 (run_stores s1 m) = run_stores s2 m.
Proof.
  intros Hsub. apply map_eq. intros p. rewrite !run_stores_lookup.
  destruct (last_store p s2) as [x|] eqn:E; [reflexivity|].
  rewrite (last_store_None s1 p); [reflexivity|].
  intros Hin. apply Hsub, last_store_is_Some in Hin.
  rewrite E in Hin. destruct Hin as [? Hin]. discriminate Hin.
Qed.

Lemma call_events_fst (Transform Transform' : T -> T) (tid dest : Z)
    (flags : option (list (list Flag))) (offs : list (list Z)) (p : Z)
    (d : list (list T)) :
  (stores_of (call_events Transform tid dest flags offs p d)).*1 =
  (stores_of (call_events Transform' tid dest flags offs p d)).*1.
Proof.
  unfold call_events. generalize tile_elems as es.
  induction es as [|e es IH]; [reflexivity|].
  cbn [flat_map]. rewrite !stores_of_app, !fmap_app, IH. f_equal.
  unfold elem_events.
  destruct (passes tid (dispatch flags p) e.1 e.2), (get2 d e.1 e.2),
    (get2 offs e.1 e.2); reflexivity.
Qed.

(** X12.  A call only writes the destination, it never reads it: started on
    two different memories, a call leaves the same registers and the same
    history of transforms and stores, and the two memories agree afterwards
    on every cell the call stored to. *)
Theorem scatter_never_reads_dest (sh : Shape) (tid dest : Z)
    (offs : list (list Z)) (p : Z) (d : list (list T)) (m1 m2 : gmap Z T) :
  arrays_ok (shape_flags sh) offs d = true ->
  exists st1 st2,
    Scatter_shape sh tid dest offs p (mkLane d m1 []) = Some st1
    /\ Scatter_shape sh tid dest offs p (mkLane d m2 []) = Some st2
    /\ data st1 = data st2
    /\ trace st1 = trace st2
    /\ forall ptr, ptr ∈ (stores_of (trace st1)).*1 ->
         mem st1 !! ptr = mem st2 !! ptr.
Proof.
  intros Hok.
  destruct (Scatter_shape_run sh tid dest offs p (mkLane d m1 []) Hok)
    as (st1 & Hrun1 & Htr1 & Hm1 & Hd1).
  destruct (Scatter_shape_run sh tid dest offs p (mkLane d m2 []) Hok)
    as (st2 & Hrun2 & Htr2 & Hm2 & Hd2).
  exists st1, st2. split; [exact Hrun1|]. split; [exact Hrun2|].
  cbn [data mem trace] in *.
  split; [|split].
  - rewrite Scatter_shape_call in Hrun1, Hrun2.
    apply (Scatter_call_data_ext _ _ tid dest dest (shape_flags sh) offs offs p
             (mkLane d m1 []) (mkLane d m2 []) st1 st2 Hok Hok Hrun1 Hrun2).
    reflexivity.
  - rewrite Htr1, Htr2. reflexivity.
  - intros ptr Hin. rewrite Hm1, Hm2, !run_stores_lookup.
    rewrite Htr1 in Hin. cbn [app] in Hin.
    change (ptr ∈ (stores_of (call_events (shape_transform sh) tid dest
                                (shape_flags sh) offs p d)).*1) in Hin.
    destruct (last_store_is_Some _ _ Hin) as [x Hx]. rewrite Hx. reflexivity.
Qed.

(** X13.  Two calls in a row compose: a call with the transform [f] followed
    by the same call with the transform [g] leaves the registers and the
    memory that one call with the transform [g] after [f] leaves. *)
Theorem scatter_twice_composes (f g : T -> T) (tid dest : Z)
    (flags : option (list (list Flag))) (offs : list (list Z)) (p : Z)
    (st : LaneState) :
  arrays_ok flags offs (data st) = true ->
  exists st1 st2 st12,
    Scatter_call f tid dest flags offs p st = Some st1
    /\ Scatter_call g tid dest flags offs p st1 = Some st2
    /\ Scatter_call (fun x => g (f x)) tid dest flags offs p st = Some st12
    /\ data st2 = data st12
    /\ mem st2 = mem st12.
Proof.
  intros Hok.
  destruct (Scatter_call_spec f tid dest flags offs p st Hok)
    as (st1 & Hrun1 & _ & Hm1 & Hd1).
  assert (Hok1 : arrays_ok flags offs (data st1) = true)
    by (rewrite (Scatter_call_shape _ _ _ _ _ _ _ _ Hrun1); exact Hok).
  destruct (Scatter_call_spec g tid dest flags offs p st1 Hok1)
    as (st2 & Hrun2 & _ & Hm2 & _).
  destruct (Scatter_call_spec (fun x => g (f x)) tid dest flags offs p st Hok)
    as (st12 & Hrun12 & _ & Hm12 & _).
  exists st1, st2, st12.
  split; [exact Hrun1|]. split; [exact Hrun2|]. split; [exact Hrun12|].
  split.
  - apply (Scatter_call_data_ext _ _ tid dest dest flags offs offs p
             _ _ st2 st12 Hok1 Hok Hrun2 Hrun12).
    intros l v. rewrite Hd1.
    destruct (bool_decide ((l, v) ∈ tile_elems)
              && passes tid (dispatch flags p) l v); [|reflexivity].
    destruct (get2 (data st) l v); reflexivity.
  - rewrite Hm2, Hm12, Hm1.
    assert (Hev : call_events g tid dest flags offs p (data st1) =
                  call_events (fun x => g (f x)) tid dest flags offs p (data st)).
    { unfold call_events. apply flat_map_ext_elem. intros [l v] He.
      unfold elem_events. cbn [fst snd].
      destruct (passes tid (dispatch flags p) l v) eqn:Hpass; [|reflexivity].
      rewrite Hd1, Hpass, (bool_decide_eq_true_2 _ He). cbn [andb].
      destruct (get2 (data st) l v); reflexivity. }
    rewrite Hev. apply run_stores_overwrite. intros ptr Hin.
    rewrite (call_events_fst _ f). exact Hin.
Qed.

(** ** Offsets that collide inside a lane *)

Lemma tile_elems_lookup_index (i l v : nat) :
  tile_elems !! i = Some (l, v) -> elem_index l v = i.
Proof.
  intros Hi. assert (Hlt := lookup_lt_Some _ _ _ Hi).
  unfold tile_elems in Hi, Hlt. rewrite length_elems_from in Hlt.
  rewrite (lookup_elems_from _ 0 i Hlt) in Hi.
  injection Hi as <- <-. unfold elem_index. cbn [Nat.add].
  rewrite (Nat.div_mod_eq i (Z.to_nat LOAD_VEC_SIZE)) at 3. lia.
Qed.

Lemma last_store_app_cons (s1 s2 : list (Z * T)) (p : Z) (x : T) :
  p ∉ s2.*1 -> last_store p (s1 ++ (p, x) :: s2) = Some x.
Proof.
  intros Hnin. assert (Hnil := last_store_None s2 p Hnin).
  unfold last_store in *. apply fmap_None, last_None in Hnil.
  rewrite filter_app, filter_cons_True by reflexivity.
  rewrite Hnil, last_snoc. reflexivity.
Qed.

(** X14.  When several elements of one lane have the same offset, the one
    handled last wins: the cell holds the transformed value of the element
    that passes the guard and comes last, in the order of the recursion,
    among the elements with that offset that pass the guard. *)
Theorem later_element_wins_in_lane (sh : Shape) (tid dest : Z)
    (offs : list (list Z)) (p : Z) (st : LaneState) (l v : nat) (x : T)
    (off : Z) :
  arrays_ok (shape_flags sh) offs (data st) = true ->
  in_tile l v ->
  passes tid (dispatch (shape_flags sh) p) l v = true ->
  get2 (data st) l v = Some x ->
  get2 offs l v = Some off ->
  (forall l' v',
     in_tile l' v' ->
     passes tid (dispatch (shape_flags sh) p) l' v' = true ->
     get2 offs l' v' = Some off ->
     (elem_index l' v' <= elem_index l v)%nat) ->
  exists st',
    Scatter_shape sh tid dest offs p st = Some st'
    /\ mem st' !! (dest + off) = Some (shape_transform sh x).
Proof.
  intros Hok Ht Hpass Hx Hoff Hlast.
  destruct (Scatter_shape_run sh tid dest offs p st Hok)
    as (st' & Hrun & _ & Hm & _).
  exists st'. split; [exact Hrun|].
  rewrite Hm, run_stores_lookup.
  assert (He : (l, v) ∈ tile_elems) by (apply in_tile_elems; exact Ht).
  apply list_elem_of_split in He as (es1 & es2 & Hes).
  unfold call_events. rewrite Hes, flat_map_app. cbn [flat_map].
  rewrite !stores_of_app.
  assert (Hee : stores_of (elem_events (shape_transform sh) tid dest offs
                             (dispatch (shape_flags sh) p) (data st) (l, v))
                = [(dest + off, shape_transform sh x)]).
  { unfold elem_events. cbn [fst snd]. rewrite Hpass, Hx, Hoff. reflexivity. }
  rewrite Hee. cbn [app].
  rewrite last_store_app_cons; [reflexivity|].
  intros Hin. apply list_elem_of_fmap in Hin as ([q y] & Hq & Hin).
  cbn [fst] in Hq. subst q.
  apply elem_of_stores_of in Hin as (l' & v' & Hin).
  apply elem_of_flat_map in Hin as (e' & He' & Hin).
  apply elem_of_elem_events_store in Hin
    as (-> & Hpass' & x' & off' & _ & Hoff' & Hptr & _).
  assert (off' = off) by lia. subst off'.
  assert (Ht' : in_tile l' v').
  { apply in_tile_elems. rewrite Hes. apply elem_of_app. right. right.
    exact He'. }
  specialize (Hlast l' v' Ht' Hpass' Hoff').
  apply list_elem_of_lookup in He' as [j Hj].
  assert (H1 : tile_elems !! length es1 = Some (l, v))
    by (rewrite Hes; apply list_lookup_middle; reflexivity).
  assert (H2 : tile_elems !! (length es1 + S j)%nat = Some (l', v')).
  { rewrite Hes, lookup_app_r by lia.
    replace (length es1 + S j - length es1)%nat with (S j) by lia.
    exact Hj. }
  apply tile_elems_lookup_index in H1, H2. lia.
Qed.

(** ** Tiles without collisions *)

Lemma Forall2_lane_call_fun (Transform : T -> T) (dest p : Z) (m : gmap Z T)
    (lanes : list Lane) (sts1 sts2 : list LaneState) :
  Forall2 (fun ln st => lane_call Transform dest p m ln = Some st) lanes sts1 ->
  Forall2 (fun ln st => lane_call Transform dest p m ln = Some st) lanes sts2 ->
  sts1 = sts2.
Proof.
  intros H1. revert sts2.
  induction H1 as [|ln st lanes sts1 Hc _ IH]; intros sts2 H2;
    inversion H2 as [|? st2 ? sts2' Hc2 H2']; subst; [reflexivity|].
  rewrite Hc in Hc2. injection Hc2 as <-. f_equal. apply IH. exact H2'.
Qed.

(** X15.  Without offset collisions the call of a tile has one outcome: every
    execution, whatever the order of the lanes' stores, leaves the memory
    that the stores made lane after lane leave, and the same registers. *)
Theorem collision_free_tile_deterministic (Transform : T -> T) (dest p : Z)
    (lanes lanes1 lanes2 : list Lane) (m m1 m2 : gmap Z T) :
  Forall (fun ln => lane_ok ln = true) lanes ->
  collision_free lanes ->
  tile_exec Transform dest p lanes m lanes1 m1 ->
  tile_exec Transform dest p lanes m lanes2 m2 ->
  m1 = run_stores (tile_stores Transform dest p lanes) m
  /\ m2 = m1 /\ lanes2 = lanes1.
Proof.
  intros Hok Hcf He1 He2.
  assert (Hnd := collision_free_NoDup Transform dest p lanes Hcf).
  assert (Hdet : forall lanes' m', tile_exec Transform dest p lanes m lanes' m' ->
                   m' = run_stores (tile_stores Transform dest p lanes) m).
  { intros lanes' m' He. apply map_eq. intros ptr.
    rewrite run_stores_lookup.
    destruct (tile_exec_lookup Transform dest p lanes lanes' m m' ptr Hok He)
      as [(x & Hin & Hl)|[Hnin Hl]].
    - rewrite Hl, (last_store_unique _ ptr x Hin); [reflexivity|].
      intros y Hy. exact (NoDup_fst_functional _ ptr y x Hnd Hy Hin).
    - rewrite Hl, (last_store_None _ _ Hnin). reflexivity. }
  split; [exact (Hdet _ _ He1)|]. split.
  - rewrite (Hdet _ _ He1), (Hdet _ _ He2). reflexivity.
  - destruct He1 as (sts1 & sched1 & Hc1 & _ & -> & _).
    destruct He2 as (sts2 & sched2 & Hc2 & _ & -> & _).
    rewrite (Forall2_lane_call_fun _ _ _ _ _ _ _ Hc1 Hc2). reflexivity.
Qed.

(** ** The default partial tile size *)

Lemma in_range_wrap (ty : IntTy) (z : Z) :
  0 < ty_bits ty -> in_range ty (wrap ty z) = true.
Proof.
  intros Hb. unfold in_range, wrap.
  assert (Hpow : 2 ^ ty_bits ty = 2 * 2 ^ (ty_bits ty - 1)).
  { rewrite <- Z.pow_succ_r by lia. f_equal. lia. }
  assert (Hpos : 0 < 2 ^ (ty_bits ty - 1)) by (apply Z.pow_pos_nonneg; lia).
  destruct (ty_signed ty).
  - pose proof (Z.mod_pos_bound (z + 2 ^ (ty_bits ty - 1)) (2 ^ ty_bits ty)
                  ltac:(lia)) as Hm.
    apply andb_true_intro. split; [apply Z.leb_le|apply Z.ltb_lt]; lia.
  - pose proof (Z.mod_pos_bound z (2 ^ ty_bits ty) ltac:(lia)) as Hm.
    apply andb_true_intro. split; [apply Z.leb_le|apply Z.ltb_lt]; lia.
Qed.

Lemma default_partial_tile_size_below :
  geometry_ok = true -> 0 < ty_bits SizeT ->
  in_range SizeT TILE_SIZE = false ->
  default_partial_tile_size < TILE_SIZE.
Proof.
  intros Hg Hb Hout.
  destruct (geometry_facts Hg) as (_ & _ & _ & _ & _ & _ & HT).
  assert (Hr : in_range SizeT default_partial_tile_size = true)
    by (apply in_range_wrap; exact Hb).
  assert (Hpos : 0 < 2 ^ (ty_bits SizeT - 1))
    by (apply Z.pow_pos_nonneg; lia).
  assert (Hpos' : 0 < 2 ^ ty_bits SizeT) by (apply Z.pow_pos_nonneg; lia).
  unfold in_range in Hr, Hout.
  destruct (ty_signed SizeT);
    apply andb_prop in Hr as [_ Hr]; apply Z.ltb_lt in Hr;
    apply andb_false_iff in Hout as [Hout|Hout];
    try (apply Z.leb_gt in Hout); try (apply Z.ltb_ge in Hout); lia.
Qed.

(** X16.  The default argument [partial_tile_size = TILE_SIZE] is the tile
    size converted to [SizeT].  When [SizeT] can hold the tile size, a call
    of any of the four shapes that leaves the argument out runs the overload
    without boundary check; when it cannot, the converted value is below the
    tile size and the call runs the overload with the boundary check on
    it. *)
Theorem default_partial_tile_size_dispatch (sh : Shape) (tid dest : Z)
    (offs : list (list Z)) (st : LaneState) :
  geometry_ok = true -> 0 < ty_bits SizeT ->
  in_range SizeT default_partial_tile_size = true
  /\ (in_range SizeT TILE_SIZE = true ->
      default_partial_tile_size = TILE_SIZE
      /\ Scatter_shape sh tid dest offs default_partial_tile_size st =
         Iterate_Invoke Iterate_depth (shape_transform sh) tid dest offs
           (plain_variant (shape_flags sh)) 0 0 (log (EvCompare false) st))
  /\ (in_range SizeT TILE_SIZE = false ->
      default_partial_tile_size < TILE_SIZE
      /\ Scatter_shape sh tid dest offs default_partial_tile_size st =
         Iterate_Invoke Iterate_depth (shape_transform sh) tid dest offs
           (boundary_variant (shape_flags sh) default_partial_tile_size) 0 0
           (log (EvCompare true) st)).
Proof.
  intros Hg Hb.
  assert (Hr : in_range SizeT default_partial_tile_size = true)
    by (apply in_range_wrap; exact Hb).
  pose proof (compare_exact default_partial_tile_size Hg Hb Hr) as Hc.
  split; [exact Hr|]. split.
  - intros Hin.
    destruct (default_partial_tile_size_full None Hg Hb Hin) as [Heq _].
    split; [exact Heq|].
    replace (default_partial_tile_size <? TILE_SIZE) with false in Hc
      by (rewrite Heq; symmetry; apply Z.ltb_irrefl).
    destruct sh; cbn [Scatter_shape shape_transform shape_flags plain_variant];
      unfold Scatter_nop, Scatter_flags_nop, Scatter, Scatter_flags;
      rewrite Hc; reflexivity.
  - intros Hout.
    pose proof (default_partial_tile_size_below Hg Hb Hout) as Hlt.
    split; [exact Hlt|].
    rewrite (proj2 (Z.ltb_lt _ _) Hlt) in Hc.
    destruct sh;
      cbn [Scatter_shape shape_transform shape_flags boundary_variant];
      unfold Scatter_nop, Scatter_flags_nop, Scatter, Scatter_flags;
      rewrite Hc; reflexivity.
Qed.

(** ** What a tile leaves alone *)

(** X17.  The call of a tile never touches a cell that is not at one of the
    lanes' offsets from [dest]: whatever the transform, the flags, the
    partial tile size and the order of the lanes' stores, every other cell
    holds afterwards what it held before. *)
Theorem tile_writes_only_at_offsets (Transform : T -> T) (dest p : Z)
    (lanes lanes' : list Lane) (m m' : gmap Z T) (ptr : Z) :
  Forall (fun ln => lane_ok ln = true) lanes ->
  tile_exec Transform dest p lanes m lanes' m' ->
  (forall off, off ∈ tile_offsets lanes -> ptr <> dest + off) ->
  m' !! ptr = m !! ptr.
Proof.
  intros Hok He Hout.
  destruct (tile_exec_lookup Transform dest p lanes lanes' m m' ptr Hok He)
    as [(x & Hin & _)|[_ Hl]]; [|exact Hl].
  exfalso.
  apply elem_of_tile_stores in Hin as (ln & Hln & Hin).
  apply elem_of_lane_stores in Hin
    as (l & v & Ht & _ & x' & off & _ & Hoff & Hptr & _).
  apply (Hout off); [|exact Hptr].
  unfold tile_offsets. apply elem_of_concat_map. exists ln.
  split; [exact Hln|].
  unfold lane_offset_list. apply list_elem_of_omap. exists (l, v).
  split; [apply in_tile_elems; exact Ht|exact Hoff].
Qed.

(** ** The elements a partial tile writes in a lane *)

Lemma omap_guard_prefix {A B : Type} (key : A -> Z) (F : A -> option B)
    (q : Z) (es : list A) :
  (forall i j a b, es !! i = Some a -> es !! j = Some b -> (i < j)%nat ->
     key a < key b) ->
  omap (fun e => if key e <? q then F e else None) es `prefix_of` omap F es.
Proof.
  induction es as [|a es IH]; intros Hsorted; [apply prefix_nil|].
  assert (IH' : omap (fun e => if key e <? q then F e else None) es
                `prefix_of` omap F es).
  { apply IH. intros i j x y Hi Hj Hij.
    apply (Hsorted (S i) (S j) x y Hi Hj). lia. }
  cbn [omap list_omap]. destruct (Z.ltb_spec (key a) q) as [Hlt|Hge].
  - destruct (F a); [apply prefix_cons|]; exact IH'.
  - replace (omap (fun e => if key e <? q then F e else None) es)
      with (@nil B); [apply prefix_nil|].
    symmetry. clear IH IH'.
    assert (Hall : forall b, b ∈ es -> q <= key b).
    { intros b Hb. apply list_elem_of_lookup in Hb as [j Hj].
      pose proof (Hsorted 0%nat (S j) a b eq_refl Hj ltac:(lia)). lia. }
    clear Hsorted. induction es as [|b es IHes]; [reflexivity|].
    cbn [omap list_omap].
    pose proof (Hall b ltac:(left)) as Hb.
    destruct (Z.ltb_spec (key b) q); [lia|].
    apply IHes. intros c Hc. apply Hall. right. exact Hc.
Qed.

Lemma tile_rank_increases (tid : Z) (i j : nat) (a b : nat * nat) :
  geometry_ok = true -> 0 <= tid < ACTIVE_THREADS ->
  tile_elems !! i = Some a -> tile_elems !! j = Some b -> (i < j)%nat ->
  tile_rank tid a.1 a.2 < tile_rank tid b.1 b.2.
Proof.
  intros Hg Ht Hi Hj Hij. destruct a as [l v], b as [l' v']. cbn [fst snd].
  destruct (geometry_facts Hg) as (_ & _ & _ & HV & HA & _ & _).
  assert (Ha : in_tile l v)
    by (apply in_tile_elems, list_elem_of_lookup; eauto).
  assert (Hb : in_tile l' v')
    by (apply in_tile_elems, list_elem_of_lookup; eauto).
  apply tile_elems_lookup_index in Hi, Hj. unfold elem_index in Hi, Hj.
  destruct Ha as [Hl Hv], Hb as [Hl' Hv'].
  destruct (tile_rank_exact tid l v Hg Ht Hl Hv) as [-> _].
  destruct (tile_rank_exact tid l' v' Hg Ht Hl' Hv') as [-> _].
  assert (Hn : Z.of_nat (Z.to_nat LOAD_VEC_SIZE) = LOAD_VEC_SIZE) by lia.
  assert (Hlt : Z.of_nat l * LOAD_VEC_SIZE + Z.of_nat v
                < Z.of_nat l' * LOAD_VEC_SIZE + Z.of_nat v') by nia.
  assert (Hcase : Z.of_nat l < Z.of_nat l'
                  \/ (l = l' /\ Z.of_nat v < Z.of_nat v')) by nia.
  destruct Hcase as [Hll|[-> Hvv]]; [|lia].
  assert (Z.of_nat l * ACTIVE_THREADS * LOAD_VEC_SIZE
          + ACTIVE_THREADS * LOAD_VEC_SIZE
          <= Z.of_nat l' * ACTIVE_THREADS * LOAD_VEC_SIZE) by nia.
  assert (LOAD_VEC_SIZE <= ACTIVE_THREADS * LOAD_VEC_SIZE) by nia.
  lia.
Qed.

(** X18.  Without flags, the elements a lane writes for a partial tile are
    the first ones in the order of the recursion: the stores of the call
    with a partial tile size are a prefix of the stores of the call on the
    full tile. *)
Theorem partial_tile_writes_prefix (Transform : T -> T) (tid dest : Z)
    (offs : list (list Z)) (p : Z) (d : list (list T)) (m : gmap Z T) :
  geometry_ok = true -> 0 < ty_bits SizeT ->
  in_range SizeT p = true -> in_range SizeT TILE_SIZE = true ->
  0 <= tid < ACTIVE_THREADS ->
  arrays_ok None offs d = true ->
  exists stp stf,
    Scatter Transform tid dest offs p (mkLane d m []) = Some stp
    /\ Scatter Transform tid dest offs TILE_SIZE (mkLane d m []) = Some stf
    /\ stores_of (trace stp) `prefix_of` stores_of (trace stf).
Proof.
  intros Hg Hb Hp HpT Htid Hok.
  destruct (Scatter_call_spec Transform tid dest None offs p (mkLane d m []) Hok)
    as (stp & Hrunp & Htrp & _ & _).
  destruct (Scatter_call_spec Transform tid dest None offs TILE_SIZE
              (mkLane d m []) Hok) as (stf & Hrunf & Htrf & _ & _).
  exists stp, stf. split; [exact Hrunp|]. split; [exact Hrunf|].
  rewrite Htrp, Htrf. cbn [trace data app].
  change (stores_of (call_events Transform tid dest None offs p d)
          `prefix_of`
          stores_of (call_events Transform tid dest None offs TILE_SIZE d)).
  rewrite (stores_of_call_events _ _ dest None offs p d Hg Hb Hp Htid).
  rewrite (stores_of_call_events _ _ dest None offs TILE_SIZE d Hg Hb HpT Htid).
  unfold guarded_stores, guard_holds, flag_holds. cbn [andb].
  rewrite Z.ltb_irrefl.
  destruct (Z.ltb_spec p TILE_SIZE) as [Hlt|Hge]; [|reflexivity].
  apply (omap_guard_prefix (fun e : nat * nat => tile_rank tid e.1 e.2)
           (fun e : nat * nat =>
              x ← get2 d e.1 e.2; off ← get2 offs e.1 e.2;
              Some (dest + off, Transform x)) p tile_elems).
  intros i j a b Hi Hj Hij.
  exact (tile_rank_increases tid i j a b Hg Htid Hi Hj Hij).
Qed.

(** X19.  Without offset collisions, after the call of a tile every element
    that passes the guard of its lane has its transformed value in its cell,
    whatever the transform, the flags, the partial tile size and the order
    of the lanes' stores. *)
Theorem collision_free_tile_scatters (Transform : T -> T) (dest p : Z)
    (lanes lanes' : list Lane) (m m' : gmap Z T) (ln : Lane) (l v : nat)
    (x : T) (off : Z) :
  Forall (fun ln => lane_ok ln = true) lanes ->
  collision_free lanes ->
  tile_exec Transform dest p lanes m lanes' m' ->
  ln ∈ lanes ->
  in_tile l v ->
  passes (lane_tid ln) (dispatch (lane_flags ln) p) l v = true ->
  get2 (lane_data ln) l v = Some x ->
  get2 (lane_offsets ln) l v = Some off ->
  m' !! (dest + off) = Some (Transform x).
Proof.
  intros Hok Hcf He Hln Ht Hpass Hx Hoff.
  apply (tile_exec_NoDup_lookup Transform dest p lanes lanes' m m' _ _ Hok
           (collision_free_NoDup Transform dest p lanes Hcf) He).
  apply elem_of_tile_stores. exists ln. split; [exact Hln|].
  apply elem_of_lane_stores. exists l, v.
  split; [exact Ht|]. split; [exact Hpass|].
  exists x, off. repeat split; assumption.
Qed.

End ScatterTile.


(** ** The scenario of a tile of sixteen *)

(** C8.  A tile of size 16 whose values and offsets are the tile ranks
    [0 .. 15], a destination of 32 cells that hold 0, and the lanes calling
    [Scatter] without flags and without transform with the partial tile
    size 10: after the call the cells [0 .. 9] hold [0 .. 9] and the cells
    [10 .. 31] hold 0. *)
Theorem partial_tile_of_sixteen (LOG_LOADS_PER_TILE LOG_LOAD_VEC_SIZE
    ACTIVE_THREADS : Z) (CacheModifier : Type) (CACHE_MODIFIER : CacheModifier)
    (Flag : Type) (flag_true : Flag -> bool) (SizeT : IntTy) (dest : Z)
    (lanes' : list (Lane Z Flag)) (m m' : gmap Z Z) :
  geometry_ok LOG_LOADS_PER_TILE LOG_LOAD_VEC_SIZE ACTIVE_THREADS = true ->
  TILE_SIZE LOG_LOADS_PER_TILE LOG_LOAD_VEC_SIZE ACTIVE_THREADS = 16 ->
  0 < ty_bits SizeT -> in_range SizeT 10 = true ->
  (forall c, 0 <= c < 32 -> m !! (dest + c) = Some 0) ->
  tile_exec_nop LOG_LOADS_PER_TILE LOG_LOAD_VEC_SIZE ACTIVE_THREADS
    CacheModifier CACHE_MODIFIER Z Flag flag_true SizeT dest 10
    (rank_lanes LOG_LOADS_PER_TILE LOG_LOAD_VEC_SIZE ACTIVE_THREADS Z Flag
       (fun r => r))
    m lanes' m' ->
  forall c, 0 <= c < 32 ->
    m' !! (dest + c) = Some (if c <? 10 then c else 0).
Proof.
  intros Hg HT Hb Hp Hzero Hex c Hc.
  apply tile_exec_nop_exec in Hex; [|apply rank_lanes_no_flags].
  rewrite (rank_tile_exec _ _ _ _ _ _ _ _ _ (NopTransform Z) (fun r => r)
             dest 10 lanes' m m' c Hg Hb Hp Hex).
  rewrite HT. unfold NopTransform.
  destruct (Z.ltb_spec c 10) as [Hlt|Hge].
  - rewrite (proj2 (Z.leb_le 0 c)), (proj2 (Z.ltb_lt c 16)) by lia. reflexivity.
  - rewrite andb_false_r. apply Hzero. exact Hc.
Qed.


(** ** A tile of two lanes, two loads of two items *)

Arguments mkLane {T} _ _ _.
Arguments data {T} _.
Arguments mem {T} _.
Arguments trace {T} _.
Arguments EvCompare {T} _.
Arguments EvTransform {T} _ _.
Arguments EvStore {T} _ _ _ _.
Arguments mkLaneArgs {T Flag} _ _ _ _.
Arguments lane_data {T Flag} _.
Arguments lane_offsets {T Flag} _.
Arguments lane_flags {T Flag} _.
Arguments ShapeNop {T Flag}.
Arguments ShapeTransform {T Flag} _.
Arguments ShapeFlagsNop {T Flag} _.
Arguments ShapeFlagsTransform {T Flag} _ _.
Arguments shape_flags {T Flag} _.
Arguments shape_transform {T Flag} _ _.
Arguments written {T} _ _ _.
Arguments stores_of {T} _.
Arguments stores_to {T} _ _.
Arguments is_compare {T} _.
Arguments is_transform_at {T} _ _ _.

Local Abbreviation ex_flag_true := (fun b : bool => b).
Local Abbreviation ex_double := (fun x : Z => 2 * x).
Local Abbreviation ex_flags := [[true; false]; [true; true]].
Local Abbreviation ex_offs := [[2; 3]; [6; 7]].
Local Abbreviation ex_data := [[10; 20]; [30; 40]].
Local Abbreviation ex_st := (mkLane ex_data (∅ : gmap Z Z) []).
Local Abbreviation ex_sh := (ShapeFlagsTransform ex_double ex_flags).
Local Abbreviation ex_Scatter_shape :=
  (Scatter_shape 1 1 2 unit tt Z bool ex_flag_true int_t).
Local Abbreviation ex_guard_holds := (guard_holds 1 1 2 bool ex_flag_true).
Local Abbreviation ex_run_stores := (run_stores unit tt Z).
Local Abbreviation ex_Iterate_Invoke :=
  (Iterate_Invoke 1 1 2 unit tt Z bool ex_flag_true int_t (Iterate_depth 1 1)).
Local Abbreviation ex_tile_exec := (tile_exec 1 1 2 unit tt Z bool ex_flag_true int_t).
Local Abbreviation ex_lane0 := (mkLaneArgs 0 [[-10; 20]; [30; -40]] None [[0; 1]; [4; 5]]).
Local Abbreviation ex_lane1 := (mkLaneArgs 1 [[50; 60]; [70; 80]] None [[2; 3]; [6; 7]]).
Local Abbreviation ex_lanes := [ex_lane0; ex_lane1].
Local Abbreviation ex_hit0 := (mkLaneArgs (Flag := bool) 0 [[10]] None [[5]]).
Local Abbreviation ex_hit1 := (mkLaneArgs (Flag := bool) 1 [[20]] None [[5]]).

Ltac nodup_compute :=
  vm_compute;
  match goal with |- NoDup ?l => exact (bool_decide_unpack (NoDup l) I) end.

(** The code run on concrete tiles. *)

(** One lane, two loads of eight items, values and offsets [0 .. 15], a
    destination of 32 cells that hold 0, and the partial tile size 10. *)
Example scatter_ten_of_sixteen :
  (st ← Scatter_nop 1 3 1 unit tt Z bool ex_flag_true size_t_t 0 0
          [[0; 1; 2; 3; 4; 5; 6; 7]; [8; 9; 10; 11; 12; 13; 14; 15]] 10
          (mkLane [[0; 1; 2; 3; 4; 5; 6; 7]; [8; 9; 10; 11; 12; 13; 14; 15]]
             (gset_to_gmap 0 (list_to_set (seqZ 0 32))) []);
   Some (map (fun c => mem st !! c) (seqZ 0 32)))
  = Some (map Some [0; 1; 2; 3; 4; 5; 6; 7; 8; 9; 0; 0; 0; 0; 0; 0;
                    0; 0; 0; 0; 0; 0; 0; 0; 0; 0; 0; 0; 0; 0; 0; 0]).
Proof. vm_compute. reflexivity. Qed.

(** Lane 1 of two, flags and a doubling transform, the partial tile size 7:
    the elements of rank 2 and 6 are written, the element of rank 3 has a
    false flag and the element of rank 7 is beyond the partial tile. *)
Example scatter_flags_doubling :
  (st ← ex_Scatter_shape ex_sh 1 100 ex_offs 7 ex_st;
   Some (data st, trace st, map (fun c => mem st !! c) [102; 103; 106; 107]))
  = Some ([[20; 20]; [60; 40]],
          [EvCompare true;
           EvTransform 0 0; EvStore 0 0 102 20;
           EvTransform 1 0; EvStore 1 0 106 60],
          [Some 20; None; Some 60; None]).
Proof. vm_compute. reflexivity. Qed.

(** A negative partial tile size in a signed [SizeT] selects the boundary
    check, and no element passes it. *)
Example scatter_negative_partial :
  (st ← Scatter 1 1 2 unit tt Z bool ex_flag_true long_long_t ex_double 1 100
          ex_offs (-1) ex_st;
   Some (data st, trace st))
  = Some (ex_data, [EvCompare true]).
Proof. vm_compute. reflexivity. Qed.

(** The same call twice on the same array: the second call doubles again. *)
Example scatter_doubling_twice :
  (st1 ← Scatter 0 0 1 unit tt Z bool ex_flag_true int_t ex_double 0 0 [[0]] 1
           (mkLane [[1]] {[0 := 0]} []);
   st2 ← Scatter 0 0 1 unit tt Z bool ex_flag_true int_t ex_double 0 0 [[0]] 1
           st1;
   Some (mem st1 !! 0, data st1, mem st2 !! 0, data st2))
  = Some (Some 2, [[2]], Some 4, [[4]]).
Proof. vm_compute. reflexivity. Qed.



Lemma scatter_dispatch_once_witness :
  (geometry_ok 1 1 2 = true /\ 0 < ty_bits int_t /\ in_range int_t 7 = true)
  /\ (7 < TILE_SIZE 1 1 2 ->
      ex_Scatter_shape ex_sh 1 100 ex_offs 7 ex_st =
      ex_Iterate_Invoke (shape_transform ex_sh) 1 100 ex_offs
        (boundary_variant bool (shape_flags ex_sh) 7) 0%nat 0%nat
        (log Z (EvCompare true) ex_st))
  /\ (TILE_SIZE 1 1 2 <= 7 ->
      ex_Scatter_shape ex_sh 1 100 ex_offs 7 ex_st =
      ex_Iterate_Invoke (shape_transform ex_sh) 1 100 ex_offs
        (plain_variant bool (shape_flags ex_sh)) 0%nat 0%nat
        (log Z (EvCompare false) ex_st))
  /\ (arrays_ok 1 1 Z bool (shape_flags ex_sh) ex_offs (data ex_st) = true ->
      exists st' evs,
        ex_Scatter_shape ex_sh 1 100 ex_offs 7 ex_st = Some st'
        /\ trace st' = trace ex_st ++ evs
        /\ List.filter is_compare evs = [EvCompare (7 <? TILE_SIZE 1 1 2)]).
Proof.
  assert (H1 : geometry_ok 1 1 2 = true) by reflexivity.
  assert (H2 : 0 < ty_bits int_t) by (cbn; lia).
  assert (H3 : in_range int_t 7 = true) by reflexivity.
  split; [auto|].
  exact (scatter_dispatch_once 1 1 2 unit tt Z bool ex_flag_true int_t
           ex_sh 1 100 ex_offs 7 ex_st H1 H2 H3).
Defined.

Lemma tile_rank_only_guards_witness :
  (geometry_ok 1 1 2 = true /\ 0 < ty_bits int_t /\ 0 <= 1 < 2
   /\ in_tile 1 1 1 1)
  /\ tile_rank 1 2 1 1 1 = 7
  /\ let rank :=
       1 * LOAD_VEC_SIZE 1 + Z.of_nat 1 * 2 * LOAD_VEC_SIZE 1 + Z.of_nat 1 in
     tile_rank 1 2 1 1 1 = rank
     /\ (forall p, in_range int_t p = true ->
           Invoke_body 1 2 unit tt Z bool ex_flag_true int_t ex_double 1 100
             ex_offs (GuardedByPartial bool p) 1 1 ex_st =
           if rank <? p
           then store_elem unit tt Z ex_double 100 ex_offs 1 1 ex_st
           else Some ex_st)
     /\ (forall fl f p, in_range int_t p = true -> get2 fl 1%nat 1%nat = Some f ->
           Invoke_body 1 2 unit tt Z bool ex_flag_true int_t ex_double 1 100
             ex_offs (GuardedByFlagsPartial bool fl p) 1 1 ex_st =
           if f && (rank <? p)
           then store_elem unit tt Z ex_double 100 ex_offs 1 1 ex_st
           else Some ex_st)
     /\ (forall tid',
           Invoke_body 1 2 unit tt Z bool ex_flag_true int_t ex_double tid' 100
             ex_offs (Unguarded bool) 1 1 ex_st =
           store_elem unit tt Z ex_double 100 ex_offs 1 1 ex_st)
     /\ (forall tid' fl f, get2 fl 1%nat 1%nat = Some f ->
           Invoke_body 1 2 unit tt Z bool ex_flag_true int_t ex_double tid' 100
             ex_offs (GuardedByFlags bool fl) 1 1 ex_st =
           if f then store_elem unit tt Z ex_double 100 ex_offs 1 1 ex_st
           else Some ex_st).
Proof.
  assert (H1 : geometry_ok 1 1 2 = true) by reflexivity.
  assert (H2 : 0 < ty_bits int_t) by (cbn; lia).
  assert (H3 : 0 <= 1 < 2) by lia.
  assert (H4 : in_tile 1 1 1 1) by (split; reflexivity).
  split; [auto|].
  split; [reflexivity|].
  exact (tile_rank_only_guards 1 1 2 unit tt Z bool ex_flag_true int_t
           ex_double 1 100 ex_offs 1 1 ex_st H1 H2 H3 H4).
Defined.

Lemma transform_once_before_store_witness :
  (geometry_ok 1 1 2 = true /\ 0 < ty_bits int_t /\ in_range int_t 7 = true
   /\ 0 <= 1 < 2
   /\ arrays_ok 1 1 Z bool (shape_flags ex_sh) ex_offs (data ex_st) = true)
  /\ exists st' evs,
       ex_Scatter_shape ex_sh 1 100 ex_offs 7 ex_st = Some st'
       /\ trace st' = trace ex_st ++ evs
       /\ forall l v, in_tile 1 1 l v ->
            exists x off,
              get2 (data ex_st) l v = Some x /\ get2 ex_offs l v = Some off
              /\ if ex_guard_holds 1 (shape_flags ex_sh) 7 l v
                 then
                   List.filter (is_transform_at l v) evs = [EvTransform l v]
                   /\ (exists pre post,
                         evs = pre ++ [EvTransform l v;
                                       EvStore l v (100 + off)
                                         (shape_transform ex_sh x)]
                                   ++ post)
                   /\ get2 (data st') l v = Some (shape_transform ex_sh x)
                   /\ ((forall l' v', in_tile 1 1 l' v' ->
                          ex_guard_holds 1 (shape_flags ex_sh) 7 l' v' = true ->
                          get2 ex_offs l' v' = Some off -> (l', v') = (l, v)) ->
                       mem st' !! (100 + off) = Some (shape_transform ex_sh x))
                 else
                   List.filter (is_transform_at l v) evs = []
                   /\ get2 (data st') l v = Some x.
Proof.
  assert (H1 : geometry_ok 1 1 2 = true) by reflexivity.
  assert (H2 : 0 < ty_bits int_t) by (cbn; lia).
  assert (H3 : in_range int_t 7 = true) by reflexivity.
  assert (H4 : 0 <= 1 < 2) by lia.
  assert (H5 : arrays_ok 1 1 Z bool (shape_flags ex_sh) ex_offs (data ex_st) = true)
    by reflexivity.
  split; [auto|].
  exact (transform_once_before_store 1 1 2 unit tt Z bool ex_flag_true int_t
           ex_sh 1 100 ex_offs 7 ex_st H1 H2 H3 H4 H5).
Defined.


Lemma full_tile_scatter_identity_witness :
  exists lanes' m',
    (geometry_ok 1 1 2 = true /\ 0 < ty_bits int_t /\ in_range int_t 8 = true
     /\ 8 = TILE_SIZE 1 1 2
     /\ Forall (fun ln => lane_ok 1 1 Z bool ln = true) ex_lanes
     /\ Forall (fun ln : Lane Z bool => lane_flags ln = None) ex_lanes
     /\ collision_free 1 1 Z bool ex_lanes
     /\ tile_exec_nop 1 1 2 unit tt Z bool ex_flag_true int_t 100 8 ex_lanes ∅
          lanes' m')
    /\ forall (ln : Lane Z bool) l v, ln ∈ ex_lanes -> in_tile 1 1 l v ->
         exists x off,
           get2 (lane_data ln) l v = Some x
           /\ get2 (lane_offsets ln) l v = Some off
           /\ m' !! (100 + off) = Some x.
Proof.
  assert (H1 : geometry_ok 1 1 2 = true) by reflexivity.
  assert (H2 : 0 < ty_bits int_t) by (cbn; lia).
  assert (H3 : in_range int_t 8 = true) by reflexivity.
  assert (H4 : 8 = TILE_SIZE 1 1 2) by reflexivity.
  assert (H5 : Forall (fun ln => lane_ok 1 1 Z bool ln = true) ex_lanes)
    by (repeat constructor).
  assert (H6 : Forall (fun ln : Lane Z bool => lane_flags ln = None) ex_lanes)
    by (repeat constructor).
  assert (H7 : collision_free 1 1 Z bool ex_lanes) by nodup_compute.
  destruct (tile_exec_nop_exists 1 1 2 unit tt Z bool ex_flag_true int_t
              100 8 ex_lanes ∅ H5 H6) as [lanes' H8].
  eexists lanes', _. split; [repeat split; eassumption|].
  exact (full_tile_scatter_identity 1 1 2 unit tt Z bool ex_flag_true int_t
           100 8 ex_lanes lanes' ∅ _ H1 H2 H3 H4 H5 H6 H7 H8).
Defined.

(** C7, as stated, fails: one lane of one element with the value 1, a
    transform that doubles, and two calls on the same array.  The first call
    leaves 2 in the cell and in the array, and the second call leaves 4 in
    the cell. *)
Lemma second_scatter_doubling_differs :
  exists lanes1 m1 lanes2 m2,
    collision_free 0 0 Z bool [mkLaneArgs 0 [[1]] None [[0]]]
    /\ tile_exec 0 0 1 unit tt Z bool ex_flag_true int_t ex_double 0 1
         [mkLaneArgs 0 [[1]] None [[0]]] {[0 := 0]} lanes1 m1
    /\ tile_exec 0 0 1 unit tt Z bool ex_flag_true int_t ex_double 0 1
         lanes1 m1 lanes2 m2
    /\ m1 !! 0 = Some 2 /\ m2 !! 0 = Some 4 /\ m2 <> m1.
Proof.
  eexists _, _, _, _.
  split; [unfold collision_free; nodup_compute|].
  split; [eapply tile_exec_single; reflexivity|].
  split; [eapply tile_exec_single; reflexivity|].
  split; [reflexivity|]. split; [reflexivity|].
  intros Heq. apply (f_equal (fun m => m !! 0)) in Heq.
  vm_compute in Heq. discriminate.
Qed.

Lemma second_scatter_keeps_destination_witness :
  exists lanes1 m1 lanesA mA lanesB mB,
    (Forall (fun ln => lane_ok 1 1 Z bool ln = true) ex_lanes
     /\ collision_free 1 1 Z bool ex_lanes
     /\ ex_tile_exec Z.abs 100 5 ex_lanes ∅ lanes1 m1
     /\ ex_tile_exec Z.abs 100 5 ex_lanes m1 lanesA mA
     /\ (forall x, Z.abs (Z.abs x) = Z.abs x)
     /\ ex_tile_exec Z.abs 100 5 lanes1 m1 lanesB mB)
    /\ mA = m1 /\ mB = m1.
Proof.
  assert (H1 : Forall (fun ln => lane_ok 1 1 Z bool ln = true) ex_lanes)
    by (repeat constructor).
  assert (H2 : collision_free 1 1 Z bool ex_lanes) by nodup_compute.
  destruct (tile_exec_exists 1 1 2 unit tt Z bool ex_flag_true int_t
              Z.abs 100 5 ex_lanes ∅ H1) as [lanes1 H3].
  destruct (tile_exec_exists 1 1 2 unit tt Z bool ex_flag_true int_t
              Z.abs 100 5 ex_lanes
              (ex_run_stores
                 (tile_stores 1 1 2 Z bool ex_flag_true int_t Z.abs 100 5
                    ex_lanes) ∅) H1) as [lanesA H4].
  assert (H5 : forall x, Z.abs (Z.abs x) = Z.abs x) by (intros x; lia).
  destruct (tile_exec_exists 1 1 2 unit tt Z bool ex_flag_true int_t
              Z.abs 100 5 lanes1
              (ex_run_stores
                 (tile_stores 1 1 2 Z bool ex_flag_true int_t Z.abs 100 5
                    ex_lanes) ∅)
              (tile_exec_post_ok 1 1 2 unit tt Z bool ex_flag_true int_t
                 Z.abs 100 5 ex_lanes lanes1 ∅ _ H1 H3)) as [lanesB H6].
  eexists lanes1, _, lanesA, _, lanesB, _.
  split; [repeat split; eassumption|]. split.
  - exact (proj1 (second_scatter_keeps_destination 1 1 2 unit tt Z bool
                    ex_flag_true int_t Z.abs 100 5 ex_lanes lanes1 lanesA
                    ∅ _ _ H1 H2 H3) H4).
  - exact (proj2 (second_scatter_keeps_destination 1 1 2 unit tt Z bool
                    ex_flag_true int_t Z.abs 100 5 ex_lanes lanes1 lanesB
                    ∅ _ _ H1 H2 H3) H5 H6).
Defined.

Lemma partial_tile_of_sixteen_witness :
  exists lanes' m',
    (geometry_ok 1 3 1 = true /\ TILE_SIZE 1 3 1 = 16 /\ 0 < ty_bits int_t
     /\ in_range int_t 10 = true
     /\ (forall c, 0 <= c < 32 ->
           (gset_to_gmap 0 (list_to_set (seqZ 0 32)) : gmap Z Z) !! (0 + c)
           = Some 0)
     /\ tile_exec_nop 1 3 1 unit tt Z bool ex_flag_true int_t 0 10
          (rank_lanes 1 3 1 Z bool (fun r => r))
          (gset_to_gmap 0 (list_to_set (seqZ 0 32))) lanes' m')
    /\ forall c, 0 <= c < 32 ->
         m' !! (0 + c) = Some (if c <? 10 then c else 0).
Proof.
  assert (H1 : geometry_ok 1 3 1 = true) by reflexivity.
  assert (H2 : TILE_SIZE 1 3 1 = 16) by reflexivity.
  assert (H3 : 0 < ty_bits int_t) by (cbn; lia).
  assert (H4 : in_range int_t 10 = true) by reflexivity.
  assert (H5 : forall c, 0 <= c < 32 ->
            (gset_to_gmap 0 (list_to_set (seqZ 0 32)) : gmap Z Z) !! (0 + c)
            = Some 0).
  { intros c Hc. apply lookup_gset_to_gmap_Some. split; [|reflexivity].
    apply elem_of_list_to_set, elem_of_seqZ. lia. }
  assert (H0 : Forall (fun ln => lane_ok 1 3 Z bool ln = true)
                 (rank_lanes 1 3 1 Z bool (fun r => r)))
    by (repeat constructor).
  assert (H7 : Forall (fun ln : Lane Z bool => lane_flags ln = None)
                 (rank_lanes 1 3 1 Z bool (fun r => r)))
    by (repeat constructor).
  destruct (tile_exec_nop_exists 1 3 1 unit tt Z bool ex_flag_true int_t
              0 10 (rank_lanes 1 3 1 Z bool (fun r => r))
              (gset_to_gmap 0 (list_to_set (seqZ 0 32))) H0 H7) as [lanes' H6].
  eexists lanes', _. split; [repeat split; eassumption|].
  exact (partial_tile_of_sixteen 1 3 1 unit tt bool ex_flag_true int_t 0
           lanes' _ _ H1 H2 H3 H4 H5 H6).
Defined.

Lemma colliding_lanes_one_value_wins_witness :
  (Forall (fun ln => lane_ok 0 0 Z bool ln = true) [ex_hit0; ex_hit1]
   /\ 0%nat <> 1%nat
   /\ [ex_hit0; ex_hit1] !! 0%nat = Some ex_hit0
   /\ [ex_hit0; ex_hit1] !! 1%nat = Some ex_hit1
   /\ stores_to 105
        (lane_stores 0 0 2 Z bool ex_flag_true int_t (NopTransform Z) 100 2 ex_hit0)
      = [(105, 10)]
   /\ stores_to 105
        (lane_stores 0 0 2 Z bool ex_flag_true int_t (NopTransform Z) 100 2 ex_hit1)
      = [(105, 20)]
   /\ (forall k ln, [ex_hit0; ex_hit1] !! k = Some ln -> k <> 0%nat -> k <> 1%nat ->
         stores_to 105
           (lane_stores 0 0 2 Z bool ex_flag_true int_t (NopTransform Z) 100 2 ln)
         = [])
   /\ 10 <> 20)
  /\ (forall lanes' m',
        tile_exec 0 0 2 unit tt Z bool ex_flag_true int_t (NopTransform Z) 100 2
          [ex_hit0; ex_hit1] ∅ lanes' m' ->
        m' !! 105 = Some 10 \/ m' !! 105 = Some 20)
  /\ (exists lanes1 m1 lanes2 m2,
        tile_exec 0 0 2 unit tt Z bool ex_flag_true int_t (NopTransform Z) 100 2
          [ex_hit0; ex_hit1] ∅ lanes1 m1
        /\ tile_exec 0 0 2 unit tt Z bool ex_flag_true int_t (NopTransform Z) 100 2
             [ex_hit0; ex_hit1] ∅ lanes2 m2
        /\ m1 !! 105 = Some 10 /\ m2 !! 105 = Some 20 /\ m1 <> m2).
Proof.
  assert (H1 : Forall (fun ln => lane_ok 0 0 Z bool ln = true) [ex_hit0; ex_hit1])
    by (repeat constructor).
  assert (H2 : 0%nat <> 1%nat) by lia.
  assert (H3 : [ex_hit0; ex_hit1] !! 0%nat = Some ex_hit0) by reflexivity.
  assert (H4 : [ex_hit0; ex_hit1] !! 1%nat = Some ex_hit1) by reflexivity.
  assert (H5 : stores_to 105
                 (lane_stores 0 0 2 Z bool ex_flag_true int_t (NopTransform Z)
                    100 2 ex_hit0) = [(105, 10)]) by reflexivity.
  assert (H6 : stores_to 105
                 (lane_stores 0 0 2 Z bool ex_flag_true int_t (NopTransform Z)
                    100 2 ex_hit1) = [(105, 20)]) by reflexivity.
  assert (H7 : forall k ln, [ex_hit0; ex_hit1] !! k = Some ln ->
                 k <> 0%nat -> k <> 1%nat ->
                 stores_to 105
                   (lane_stores 0 0 2 Z bool ex_flag_true int_t (NopTransform Z)
                      100 2 ln) = []).
  { intros [|[|k]] ln Hk Hk0 Hk1; [lia|lia|discriminate Hk]. }
  assert (H8 : 10 <> 20) by lia.
  split; [repeat split; assumption|].
  exact (colliding_lanes_one_value_wins 0 0 2 unit tt Z bool ex_flag_true int_t
           (NopTransform Z) 100 2 [ex_hit0; ex_hit1] ∅ 0%nat 1%nat ex_hit0 ex_hit1
           105 10 20 H1 H2 H3 H4 H5 H6 H7 H8).
Defined.

(** ** The further properties on concrete tiles *)

Local Abbreviation ex_Scatter := (Scatter 1 1 2 unit tt Z bool ex_flag_true int_t).
Local Abbreviation ex_Scatter_flags :=
  (Scatter_flags 1 1 2 unit tt Z bool ex_flag_true int_t).
Local Abbreviation ex_Scatter_call :=
  (Scatter_call 1 1 2 unit tt Z bool ex_flag_true int_t).
Local Abbreviation ex_tile_stores := (tile_stores 1 1 2 Z bool ex_flag_true int_t).
Local Abbreviation ex_passes := (passes 1 2 bool ex_flag_true int_t).
Local Abbreviation ex_dispatch := (dispatch 1 1 2 bool int_t).
Local Abbreviation ex_all_true := [[true; true]; [true; true]].
Local Abbreviation ex_all_false := [[false; false]; [false; false]].
Local Abbreviation ex_same_offs := [[5; 5]; [5; 6]].
Local Abbreviation ex_narrow := {| ty_signed := false; ty_bits := 2 |}.

Ltac in_tile_cases l v H :=
  destruct H as [?Hl ?Hv];
  destruct l as [|[|l]], v as [|[|v]];
  try (exfalso; unfold LOADS_PER_TILE, LOAD_VEC_SIZE in *;
       change (Z.shiftl 1 1) with 2 in *; lia).

Lemma tile_geometry_witness :
  geometry_ok 1 1 2 = true
  /\ LOADS_PER_TILE 1 = 2 ^ 1
  /\ LOAD_VEC_SIZE 1 = 2 ^ 1
  /\ 1 <= LOADS_PER_TILE 1 /\ 1 <= LOAD_VEC_SIZE 1
  /\ ELEMENTS_PER_THREAD 1 1 = LOADS_PER_TILE 1 * LOAD_VEC_SIZE 1
  /\ TILE_SIZE 1 1 2 = 2 * LOADS_PER_TILE 1 * LOAD_VEC_SIZE 1
  /\ ELEMENTS_PER_THREAD 1 1 <= TILE_SIZE 1 1 2 < 2 ^ 31.
Proof.
  assert (H1 : geometry_ok 1 1 2 = true) by reflexivity.
  split; [exact H1|].
  exact (tile_geometry 1 1 2 H1).
Defined.

Lemma iterate_visits_row_major_witness :
  (3 < length (tile_elems 1 1))%nat
  /\ tile_elems 1 1 !! 3%nat =
     Some ((3 / Z.to_nat (LOAD_VEC_SIZE 1))%nat, (3 mod Z.to_nat (LOAD_VEC_SIZE 1))%nat).
Proof.
  assert (H1 : (3 < length (tile_elems 1 1))%nat) by (vm_compute; lia).
  split; [exact H1|].
  exact (proj2 (proj2 (iterate_visits_row_major 1 1 2 unit tt Z bool ex_flag_true
                         int_t ex_double 1 100 ex_offs (Unguarded bool) ex_st))
           3%nat H1).
Defined.

Lemma iterate_depth_exact_witness :
  ((6 < Iterate_depth 1 1)%nat /\ (Iterate_depth 1 1 <= 9)%nat)
  /\ Iterate_Invoke 1 1 2 unit tt Z bool ex_flag_true int_t 6 ex_double 1 100
       ex_offs (Unguarded bool) 0 0 ex_st = None
  /\ Iterate_Invoke 1 1 2 unit tt Z bool ex_flag_true int_t 9 ex_double 1 100
       ex_offs (Unguarded bool) 0 0 ex_st =
     ex_Iterate_Invoke ex_double 1 100 ex_offs (Unguarded bool) 0%nat 0%nat ex_st.
Proof.
  assert (H1 : (6 < Iterate_depth 1 1)%nat) by (vm_compute; lia).
  assert (H2 : (Iterate_depth 1 1 <= 9)%nat) by (vm_compute; lia).
  split; [auto|]. split.
  - exact (proj1 (proj2 (iterate_depth_exact 1 1 2 unit tt Z bool ex_flag_true
                           int_t ex_double 1 100 ex_offs (Unguarded bool) ex_st
                           6%nat)) H1).
  - exact (proj2 (proj2 (iterate_depth_exact 1 1 2 unit tt Z bool ex_flag_true
                           int_t ex_double 1 100 ex_offs (Unguarded bool) ex_st
                           9%nat)) H2).
Defined.

Lemma iterate_outside_tile_never_ends_witness :
  (LOADS_PER_TILE 1 < Z.of_nat 3
   \/ (Z.of_nat 3 = LOADS_PER_TILE 1 /\ 0%nat <> 0%nat))
  /\ Iterate_Invoke 1 1 2 unit tt Z bool ex_flag_true int_t 50 ex_double 1 100
       ex_offs (Unguarded bool) 3 0 ex_st = None.
Proof.
  assert (H1 : LOADS_PER_TILE 1 < Z.of_nat 3
               \/ (Z.of_nat 3 = LOADS_PER_TILE 1 /\ 0%nat <> 0%nat))
    by (left; reflexivity).
  split; [exact H1|].
  exact (iterate_outside_tile_never_ends 1 1 2 unit tt Z bool ex_flag_true int_t
           ex_double 1 100 ex_offs (Unguarded bool) 50%nat 3%nat 0%nat ex_st H1).
Defined.

Lemma tile_rank_bijective_witness :
  (geometry_ok 1 1 2 = true /\ 0 <= 1 < 2 /\ in_tile 1 1 1 0
   /\ 0 <= 6 < TILE_SIZE 1 1 2)
  /\ 0 <= tile_rank 1 2 1 1 0 < TILE_SIZE 1 1 2
  /\ (forall tid' l' v', 0 <= tid' < 2 -> in_tile 1 1 l' v' ->
        tile_rank 1 2 1 1 0 = tile_rank 1 2 tid' l' v' ->
        1 = tid' /\ 1%nat = l' /\ 0%nat = v')
  /\ exists tid l v, 0 <= tid < 2 /\ in_tile 1 1 l v /\ tile_rank 1 2 tid l v = 6.
Proof.
  assert (H1 : geometry_ok 1 1 2 = true) by reflexivity.
  assert (H2 : 0 <= 1 < 2) by lia.
  assert (H3 : in_tile 1 1 1 0) by (split; reflexivity).
  assert (H4 : 0 <= 6 < TILE_SIZE 1 1 2) by (split; [lia|reflexivity]).
  split; [auto|].
  destruct (tile_rank_bijective 1 1 2 H1) as (Hrange & Hinj & Honto).
  split; [exact (Hrange 1 1%nat 0%nat H2 H3)|]. split.
  - intros tid' l' v' Ht' Hin'. exact (Hinj 1 tid' 1%nat 0%nat l' v' H2 Ht' H3 Hin').
  - exact (Honto 6 H4).
Defined.

Lemma whole_tile_stores_count_witness :
  (geometry_ok 1 1 2 = true /\ 0 < ty_bits int_t /\ in_range int_t 5 = true
   /\ Forall (fun ln => lane_ok 1 1 Z bool ln = true) ex_lanes
   /\ whole_tile 2 Z bool ex_lanes)
  /\ exists sts,
       lanes_Scatter 1 1 2 unit tt Z bool ex_flag_true int_t ex_double 100 5 ∅
         ex_lanes sts
       /\ length (concat (map (fun st => stores_of (trace st)) sts)) =
          Z.to_nat (Z.min 5 (TILE_SIZE 1 1 2)).
Proof.
  assert (H1 : geometry_ok 1 1 2 = true) by reflexivity.
  assert (H2 : 0 < ty_bits int_t) by (cbn; lia).
  assert (H3 : in_range int_t 5 = true) by reflexivity.
  assert (H4 : Forall (fun ln => lane_ok 1 1 Z bool ln = true) ex_lanes)
    by (repeat constructor).
  assert (H5 : whole_tile 2 Z bool ex_lanes)
    by (split; [reflexivity|repeat constructor]).
  split; [auto|].
  exact (whole_tile_stores_count 1 1 2 unit tt Z bool ex_flag_true int_t
           ex_double 100 5 ex_lanes ∅ H1 H2 H3 H4 H5).
Defined.

Lemma partial_size_monotone_witness :
  (geometry_ok 1 1 2 = true /\ 0 < ty_bits int_t /\ in_range int_t 3 = true
   /\ in_range int_t 7 = true /\ 0 <= 1 < 2
   /\ arrays_ok 1 1 Z bool (shape_flags ex_sh) ex_offs (data ex_st) = true
   /\ 3 <= 7)
  /\ exists stp evp stq evq,
       ex_Scatter_shape ex_sh 1 100 ex_offs 3 ex_st = Some stp
       /\ trace stp = trace ex_st ++ evp
       /\ ex_Scatter_shape ex_sh 1 100 ex_offs 7 ex_st = Some stq
       /\ trace stq = trace ex_st ++ evq
       /\ forall l v, written evp l v -> written evq l v.
Proof.
  assert (H1 : geometry_ok 1 1 2 = true) by reflexivity.
  assert (H2 : 0 < ty_bits int_t) by (cbn; lia).
  assert (H3 : in_range int_t 3 = true) by reflexivity.
  assert (H4 : in_range int_t 7 = true) by reflexivity.
  assert (H5 : 0 <= 1 < 2) by lia.
  assert (H6 : arrays_ok 1 1 Z bool (shape_flags ex_sh) ex_offs (data ex_st) = true)
    by reflexivity.
  assert (H7 : 3 <= 7) by lia.
  split; [repeat split; assumption|].
  exact (partial_size_monotone 1 1 2 unit tt Z bool ex_flag_true int_t ex_sh 1 100
           ex_offs 3 7 ex_st H1 H2 H3 H4 H5 H6 H7).
Defined.

Lemma nonpositive_partial_writes_nothing_witness :
  (geometry_ok 1 1 2 = true /\ 0 < ty_bits int_t /\ in_range int_t (-4) = true
   /\ 0 <= 1 < 2
   /\ arrays_ok 1 1 Z bool (shape_flags ex_sh) ex_offs (data ex_st) = true
   /\ -4 <= 0)
  /\ ex_Scatter_shape ex_sh 1 100 ex_offs (-4) ex_st =
     Some (log Z (EvCompare true) ex_st).
Proof.
  assert (H1 : geometry_ok 1 1 2 = true) by reflexivity.
  assert (H2 : 0 < ty_bits int_t) by (cbn; lia).
  assert (H3 : in_range int_t (-4) = true) by reflexivity.
  assert (H4 : 0 <= 1 < 2) by lia.
  assert (H5 : arrays_ok 1 1 Z bool (shape_flags ex_sh) ex_offs (data ex_st) = true)
    by reflexivity.
  assert (H6 : -4 <= 0) by lia.
  split; [repeat split; assumption|].
  exact (nonpositive_partial_writes_nothing 1 1 2 unit tt Z bool ex_flag_true int_t
           ex_sh 1 100 ex_offs (-4) ex_st H1 H2 H3 H4 H5 H6).
Defined.

Lemma true_flags_as_without_flags_witness :
  flags_all 1 1 bool ex_flag_true true ex_all_true
  /\ ex_Scatter_flags ex_double 1 100 ex_all_true ex_offs 7 ex_st =
     ex_Scatter ex_double 1 100 ex_offs 7 ex_st.
Proof.
  assert (H1 : flags_all 1 1 bool ex_flag_true true ex_all_true).
  { intros l v H. in_tile_cases l v H; exists true; split; reflexivity. }
  split; [exact H1|].
  exact (true_flags_as_without_flags 1 1 2 unit tt Z bool ex_flag_true int_t
           ex_double 1 100 ex_all_true ex_offs 7 ex_st H1).
Defined.

Lemma false_flags_write_nothing_witness :
  flags_all 1 1 bool ex_flag_true false ex_all_false
  /\ ex_Scatter_flags ex_double 1 100 ex_all_false ex_offs 7 ex_st =
     Some (log Z (EvCompare (lt_conv int_t int_t 7 (TILE_SIZE 1 1 2))) ex_st).
Proof.
  assert (H1 : flags_all 1 1 bool ex_flag_true false ex_all_false).
  { intros l v H. in_tile_cases l v H; exists false; split; reflexivity. }
  split; [exact H1|].
  exact (false_flags_write_nothing 1 1 2 unit tt Z bool ex_flag_true int_t
           ex_double 1 100 ex_all_false ex_offs 7 ex_st H1).
Defined.

Lemma nop_scatter_keeps_data_witness :
  arrays_ok 1 1 Z bool (Some ex_flags) ex_offs (data ex_st) = true
  /\ exists st',
       Scatter_flags_nop 1 1 2 unit tt Z bool ex_flag_true int_t 1 100 ex_flags
         ex_offs 7 ex_st = Some st'
       /\ data st' = data ex_st.
Proof.
  assert (H1 : arrays_ok 1 1 Z bool (Some ex_flags) ex_offs (data ex_st) = true)
    by reflexivity.
  split; [exact H1|].
  exact (nop_scatter_keeps_data 1 1 2 unit tt Z bool ex_flag_true int_t 1 100
           (Some ex_flags) ex_offs 7 ex_st H1).
Defined.

Lemma scatter_never_reads_dest_witness :
  arrays_ok 1 1 Z bool (shape_flags ex_sh) ex_offs ex_data = true
  /\ exists st1 st2,
       ex_Scatter_shape ex_sh 1 100 ex_offs 7 (mkLane ex_data ∅ []) = Some st1
       /\ ex_Scatter_shape ex_sh 1 100 ex_offs 7
            (mkLane ex_data {[102 := 1; 103 := 1]} []) = Some st2
       /\ data st1 = data st2
       /\ trace st1 = trace st2
       /\ forall ptr, ptr ∈ (stores_of (trace st1)).*1 ->
            mem st1 !! ptr = mem st2 !! ptr.
Proof.
  assert (H1 : arrays_ok 1 1 Z bool (shape_flags ex_sh) ex_offs ex_data = true)
    by reflexivity.
  split; [exact H1|].
  exact (scatter_never_reads_dest 1 1 2 unit tt Z bool ex_flag_true int_t ex_sh 1
           100 ex_offs 7 ex_data ∅ {[102 := 1; 103 := 1]} H1).
Defined.

Lemma scatter_twice_composes_witness :
  arrays_ok 1 1 Z bool (Some ex_flags) ex_offs (data ex_st) = true
  /\ exists st1 st2 st12,
       ex_Scatter_call ex_double 1 100 (Some ex_flags) ex_offs 7 ex_st = Some st1
       /\ ex_Scatter_call (fun x => x + 1) 1 100 (Some ex_flags) ex_offs 7 st1
          = Some st2
       /\ ex_Scatter_call (fun x => 2 * x + 1) 1 100 (Some ex_flags) ex_offs 7 ex_st
          = Some st12
       /\ data st2 = data st12
       /\ mem st2 = mem st12.
Proof.
  assert (H1 : arrays_ok 1 1 Z bool (Some ex_flags) ex_offs (data ex_st) = true)
    by reflexivity.
  split; [exact H1|].
  exact (scatter_twice_composes 1 1 2 unit tt Z bool ex_flag_true int_t ex_double
           (fun x => x + 1) 1 100 (Some ex_flags) ex_offs 7 ex_st H1).
Defined.

Lemma later_element_wins_in_lane_witness :
  (arrays_ok 1 1 Z bool (shape_flags (ShapeTransform (Flag := bool) ex_double))
     ex_same_offs (data ex_st) = true
   /\ in_tile 1 1 1 0
   /\ ex_passes 0
        (ex_dispatch (shape_flags (ShapeTransform (Flag := bool) ex_double)) 8)
        1%nat 0%nat = true
   /\ get2 (data ex_st) 1 0 = Some 30
   /\ get2 ex_same_offs 1 0 = Some 5
   /\ (forall l' v', in_tile 1 1 l' v' ->
         ex_passes 0
           (ex_dispatch (shape_flags (ShapeTransform (Flag := bool) ex_double)) 8)
           l' v' = true ->
         get2 ex_same_offs l' v' = Some 5 ->
         (elem_index 1 l' v' <= elem_index 1 1 0)%nat))
  /\ exists st',
       ex_Scatter_shape (ShapeTransform ex_double) 0 100 ex_same_offs 8 ex_st
       = Some st'
       /\ mem st' !! (100 + 5) = Some (shape_transform (ShapeTransform (Flag := bool) ex_double) 30).
Proof.
  assert (H1 : arrays_ok 1 1 Z bool
                 (shape_flags (ShapeTransform (Flag := bool) ex_double))
                 ex_same_offs (data ex_st) = true) by reflexivity.
  assert (H2 : in_tile 1 1 1 0) by (split; reflexivity).
  assert (H3 : ex_passes 0
                 (ex_dispatch (shape_flags (ShapeTransform (Flag := bool) ex_double)) 8)
                 1%nat 0%nat = true) by reflexivity.
  assert (H4 : get2 (data ex_st) 1 0 = Some 30) by reflexivity.
  assert (H5 : get2 ex_same_offs 1 0 = Some 5) by reflexivity.
  assert (H6 : forall l' v', in_tile 1 1 l' v' ->
                 ex_passes 0
                   (ex_dispatch (shape_flags (ShapeTransform (Flag := bool) ex_double)) 8)
                   l' v' = true ->
                 get2 ex_same_offs l' v' = Some 5 ->
                 (elem_index 1 l' v' <= elem_index 1 1 0)%nat).
  { intros l' v' H _ Hoff. in_tile_cases l' v' H;
      try discriminate Hoff; vm_compute; lia. }
  split; [repeat split; assumption|].
  exact (later_element_wins_in_lane 1 1 2 unit tt Z bool ex_flag_true int_t
           (ShapeTransform ex_double) 0 100 ex_same_offs 8 ex_st 1%nat 0%nat 30 5
           H1 H2 H3 H4 H5 H6).
Defined.

Lemma collision_free_tile_deterministic_witness :
  exists lanes1 m1 lanes2 m2,
    (Forall (fun ln => lane_ok 1 1 Z bool ln = true) ex_lanes
     /\ collision_free 1 1 Z bool ex_lanes
     /\ ex_tile_exec ex_double 100 5 ex_lanes ∅ lanes1 m1
     /\ ex_tile_exec ex_double 100 5 ex_lanes ∅ lanes2 m2)
    /\ m1 = ex_run_stores (ex_tile_stores ex_double 100 5 ex_lanes) ∅
    /\ m2 = m1 /\ lanes2 = lanes1.
Proof.
  assert (H1 : Forall (fun ln => lane_ok 1 1 Z bool ln = true) ex_lanes)
    by (repeat constructor).
  assert (H2 : collision_free 1 1 Z bool ex_lanes) by nodup_compute.
  destruct (tile_exec_exists 1 1 2 unit tt Z bool ex_flag_true int_t
              ex_double 100 5 ex_lanes ∅ H1) as [lanes1 H3].
  destruct (tile_exec_intro 1 1 2 unit tt Z bool ex_flag_true int_t
              ex_double 100 5 ex_lanes ∅ _ H1
              (Interleave_in_reverse_order
                 (map (lane_stores 1 1 2 Z bool ex_flag_true int_t ex_double 100 5)
                    ex_lanes)))
    as [lanes2 H4].
  eexists lanes1, _, lanes2, _. split; [repeat split; eassumption|].
  exact (collision_free_tile_deterministic 1 1 2 unit tt Z bool ex_flag_true int_t
           ex_double 100 5 ex_lanes lanes1 lanes2 ∅ _ _ H1 H2 H3 H4).
Defined.

Lemma default_partial_tile_size_dispatch_witness :
  (geometry_ok 1 1 2 = true /\ 0 < ty_bits int_t /\ 0 < ty_bits ex_narrow
   /\ in_range int_t (TILE_SIZE 1 1 2) = true
   /\ in_range ex_narrow (TILE_SIZE 1 1 2) = false)
  /\ (default_partial_tile_size 1 1 2 int_t = TILE_SIZE 1 1 2
      /\ ex_Scatter_shape ex_sh 1 100 ex_offs (default_partial_tile_size 1 1 2 int_t)
           ex_st =
         ex_Iterate_Invoke (shape_transform ex_sh) 1 100 ex_offs
           (plain_variant bool (shape_flags ex_sh)) 0%nat 0%nat
           (log Z (EvCompare false) ex_st))
  /\ (default_partial_tile_size 1 1 2 ex_narrow < TILE_SIZE 1 1 2
      /\ Scatter_shape 1 1 2 unit tt Z bool ex_flag_true ex_narrow ex_sh 1 100
           ex_offs (default_partial_tile_size 1 1 2 ex_narrow) ex_st =
         Iterate_Invoke 1 1 2 unit tt Z bool ex_flag_true ex_narrow
           (Iterate_depth 1 1) (shape_transform ex_sh) 1 100 ex_offs
           (boundary_variant bool (shape_flags ex_sh)
              (default_partial_tile_size 1 1 2 ex_narrow)) 0 0
           (log Z (EvCompare true) ex_st)).
Proof.
  assert (H1 : geometry_ok 1 1 2 = true) by reflexivity.
  assert (H2 : 0 < ty_bits int_t) by (cbn; lia).
  assert (H3 : 0 < ty_bits ex_narrow) by (cbn; lia).
  assert (H4 : in_range int_t (TILE_SIZE 1 1 2) = true) by reflexivity.
  assert (H5 : in_range ex_narrow (TILE_SIZE 1 1 2) = false) by reflexivity.
  split; [repeat split; assumption|]. split.
  - exact (proj1 (proj2 (default_partial_tile_size_dispatch 1 1 2 unit tt Z bool
                           ex_flag_true int_t ex_sh 1 100 ex_offs ex_st H1 H2))
             H4).
  - exact (proj2 (proj2 (default_partial_tile_size_dispatch 1 1 2 unit tt Z bool
                           ex_flag_true ex_narrow ex_sh 1 100 ex_offs ex_st H1
                           H3)) H5).
Defined.

Lemma tile_writes_only_at_offsets_witness :
  exists lanes' m',
    (Forall (fun ln => lane_ok 1 1 Z bool ln = true) ex_lanes
     /\ ex_tile_exec ex_double 100 5 ex_lanes {[50 := 1]} lanes' m'
     /\ (forall off, off ∈ tile_offsets 1 1 Z bool ex_lanes -> 50 <> 100 + off))
    /\ m' !! 50 = ({[50 := 1]} : gmap Z Z) !! 50.
Proof.
  assert (H1 : Forall (fun ln => lane_ok 1 1 Z bool ln = true) ex_lanes)
    by (repeat constructor).
  destruct (tile_exec_exists 1 1 2 unit tt Z bool ex_flag_true int_t
              ex_double 100 5 ex_lanes {[50 := 1]} H1) as [lanes' H2].
  assert (H3 : forall off, off ∈ tile_offsets 1 1 Z bool ex_lanes ->
                 50 <> 100 + off).
  { intros off Hoff.
    change (off ∈ [0; 1; 4; 5; 2; 3; 6; 7]) in Hoff.
    rewrite !elem_of_cons, elem_of_nil in Hoff. lia. }
  eexists lanes', _. split; [repeat split; eassumption|].
  exact (tile_writes_only_at_offsets 1 1 2 unit tt Z bool ex_flag_true int_t
           ex_double 100 5 ex_lanes lanes' {[50 := 1]} _ 50 H1 H2 H3).
Defined.

Lemma partial_tile_writes_prefix_witness :
  (geometry_ok 1 1 2 = true /\ 0 < ty_bits int_t /\ in_range int_t 3 = true
   /\ in_range int_t (TILE_SIZE 1 1 2) = true /\ 0 <= 1 < 2
   /\ arrays_ok 1 1 Z bool None ex_offs ex_data = true)
  /\ exists stp stf,
       ex_Scatter ex_double 1 100 ex_offs 3 (mkLane ex_data ∅ []) = Some stp
       /\ ex_Scatter ex_double 1 100 ex_offs (TILE_SIZE 1 1 2) (mkLane ex_data ∅ [])
          = Some stf
       /\ stores_of (trace stp) `prefix_of` stores_of (trace stf).
Proof.
  assert (H1 : geometry_ok 1 1 2 = true) by reflexivity.
  assert (H2 : 0 < ty_bits int_t) by (cbn; lia).
  assert (H3 : in_range int_t 3 = true) by reflexivity.
  assert (H4 : in_range int_t (TILE_SIZE 1 1 2) = true) by reflexivity.
  assert (H5 : 0 <= 1 < 2) by lia.
  assert (H6 : arrays_ok 1 1 Z bool None ex_offs ex_data = true) by reflexivity.
  split; [repeat split; first [assumption | lia]|].
  exact (partial_tile_writes_prefix 1 1 2 unit tt Z bool ex_flag_true int_t
           ex_double 1 100 ex_offs 3 ex_data ∅ H1 H2 H3 H4 H5 H6).
Defined.

Local Abbreviation ex_ln1 :=
  (mkLaneArgs (Flag := bool) 1 [[50; 60]; [70; 80]] None [[2; 3]; [6; 7]]).

Lemma collision_free_tile_scatters_witness :
  exists lanes' m',
    (Forall (fun ln => lane_ok 1 1 Z bool ln = true) ex_lanes
     /\ collision_free 1 1 Z bool ex_lanes
     /\ ex_tile_exec ex_double 100 5 ex_lanes ∅ lanes' m'
     /\ ex_ln1 ∈ ex_lanes
     /\ in_tile 1 1 0 1
     /\ ex_passes (lane_tid Z bool ex_ln1) (ex_dispatch (lane_flags ex_ln1) 5)
          0%nat 1%nat = true
     /\ get2 (lane_data ex_ln1) 0 1 = Some 60
     /\ get2 (lane_offsets ex_ln1) 0 1 = Some 3)
    /\ m' !! (100 + 3) = Some (2 * 60).
Proof.
  assert (H1 : Forall (fun ln => lane_ok 1 1 Z bool ln = true) ex_lanes)
    by (repeat constructor).
  assert (H2 : collision_free 1 1 Z bool ex_lanes) by nodup_compute.
  destruct (tile_exec_exists 1 1 2 unit tt Z bool ex_flag_true int_t
              ex_double 100 5 ex_lanes ∅ H1) as [lanes' H3].
  assert (H4 : ex_ln1 ∈ ex_lanes) by (right; left).
  assert (H5 : in_tile 1 1 0 1) by (split; reflexivity).
  assert (H6 : ex_passes (lane_tid Z bool ex_ln1)
                 (ex_dispatch (lane_flags ex_ln1) 5) 0%nat 1%nat = true)
    by reflexivity.
  assert (H7 : get2 (lane_data ex_ln1) 0 1 = Some 60) by reflexivity.
  assert (H8 : get2 (lane_offsets ex_ln1) 0 1 = Some 3) by reflexivity.
  eexists lanes', _. split; [repeat split; eassumption|].
  exact (collision_free_tile_scatters 1 1 2 unit tt Z bool ex_flag_true int_t
           ex_double 100 5 ex_lanes lanes' ∅ _ ex_ln1 0%nat 1%nat 60 3
           H1 H2 H3 H4 H5 H6 H7 H8).
Defined.

End ScatterTile.
